(** * Outreach Window Planner: the windowing and scoring engine

    A shallow embedding of [lib/types], [lib/mock/signals], [lib/windowing]
    and of the [GET /api/signals] route handler, followed by the properties
    of the engine.

    Conventions of the embedding.

    - A JavaScript [Date] is its time value: [Some t] for [t] milliseconds
      since the epoch, [None] for an Invalid Date (time value NaN).  Relational
      operators on dates compare the time values and are false as soon as
      one side is NaN.  The dates given to the functions are taken as
      they are; where the code makes a date from a number that it
      computed ([Date_of_number], in the route handler and in
      [computeWindows_number]), the limit of 8.64e15 ms on time values
      applies.
    - An ISO 8601 timestamp string is represented by the [Date] that
      [new Date(string)] yields; [toISOString] of a valid date is then the
      date itself.  [toISOString] raises on an Invalid Date; the dates it
      is applied to are shown valid below.
    - Scores are JavaScript numbers.  Every value the engine computes is a
      multiple of 1/2 bounded by 50 times the length of the signal array,
      hence exactly representable in binary64, so the arithmetic is exact
      and is modelled in [Q].
    - [computeWindows] is the function at a duration that is a whole
      number of milliseconds, which every caller in the repository
      gives it.  [computeWindows_number] is the function at any
      JavaScript number; the two agree on whole durations
      ([whole_duration_agrees]). *)

From Stdlib Require Import ZArith QArith Qminmax List String Bool Lia.
From Stdlib Require Import DecimalString Lqa.
From Stdlib Require Import Qround DecimalZ DecimalPos Sorted.
Import ListNotations.

Local Open Scope Z_scope.

(** ** lib/types *)

Inductive SignalType :=
| sanitation
| publicEvent
| shelterHours
| transitDisruption
| serviceBottleneck
| infrastructureWork
| megaEvent
| custom.

Inductive SourceKind := simulated | delayed | partnerProvided | publicCalendar.

(** ["low" | "medium" | "high"]: [ImpactLevel] and [ConfidenceLevel] are
    the same union of string literals. *)
Inductive Level := low | medium | high.
Definition ImpactLevel := Level.
Definition ConfidenceLevel := Level.

Inductive WindowStatus := safer | caution | avoid.

Definition Date := option Z.

Record TimeRange := { start : Date; end_ : Date }.

Record Source := {
  label : string;
  kind : SourceKind;
  lastUpdated : option Date
}.

Record Signal := {
  id : string;
  signalType : SignalType;
  title : string;
  description : string;
  timeRange : TimeRange;
  source : Source;
  impactLevel : ImpactLevel;
  confidenceLevel : ConfidenceLevel;
  interpretationNotes : string;
  areaContext : option string;
  isCustom : option bool
}.

Record SignalOverlap := {
  o_id : string;
  signals : list Signal;
  o_timeRange : TimeRange;
  combinedImpact : ImpactLevel;
  explanation : string
}.

Record OutreachWindow := {
  w_id : string;
  w_timeRange : TimeRange;
  status : WindowStatus;
  score : Q;
  annotation : string;
  contributingSignals : list Signal
}.

Record Meta := {
  queryRange : TimeRange;
  scenarioMode : bool;
  generatedAt : Date;
  disclaimer : string
}.

Record SignalsApiResponse := {
  r_signals : list Signal;
  r_overlaps : list SignalOverlap;
  r_windows : list OutreachWindow;
  meta : Meta
}.

(** ** The JavaScript operations the engine relies on *)

Definition level_eqb (a b : Level) : bool :=
  match a, b with
  | low, low | medium, medium | high, high => true
  | _, _ => false
  end.

(** [a < b], [a > b], [a <= b], [a >= b] on dates. *)
Definition date_lt (a b : Date) : bool :=
  match a, b with
  | Some x, Some y => x <? y
  | _, _ => false
  end.

Definition date_le (a b : Date) : bool :=
  match a, b with
  | Some x, Some y => x <=? y
  | _, _ => false
  end.

Definition date_gt (a b : Date) : bool := date_lt b a.
Definition date_ge (a b : Date) : bool := date_le b a.

(** [Date.prototype.getTime], [new Date(number)], and [Math.min],
    [Math.max], [+] on time values, where [None] is NaN. *)
Definition getTime (d : Date) : option Z := d.
Definition newDate (t : option Z) : Date := t.

Definition num_add (a : option Z) (b : Z) : option Z :=
  match a with
  | Some x => Some (x + b)
  | None => None
  end.

Definition Math_min (a b : option Z) : option Z :=
  match a, b with
  | Some x, Some y => Some (Z.min x y)
  | _, _ => None
  end.

Definition Math_max (a b : option Z) : option Z :=
  match a, b with
  | Some x, Some y => Some (Z.max x y)
  | _, _ => None
  end.

(** [Array.prototype.push]. *)
Definition push {A : Type} (l : list A) (x : A) : list A := (l ++ [x])%list.

(** [toISOString] on a date; the string is represented by the date. *)
Definition toISOString (d : Date) : Date := d.

(** Conversion of an integer to its decimal string, as in a template
    literal. *)
Definition numberToString (n : Z) : string :=
  NilZero.string_of_int (Z.to_int n).

(** ** lib/windowing *)

Local Open Scope Q_scope.

Definition IMPACT_WEIGHTS (l : ImpactLevel) : Q :=
  match l with
  | low => 10
  | medium => 30
  | high => 50
  end.

Definition CONFIDENCE_MULTIPLIERS (l : ConfidenceLevel) : Q :=
  match l with
  | low => 0.5
  | medium => 0.75
  | high => 1.0
  end.

Record StatusThresholds := { th_safer : Q; th_caution : Q }.

Definition STATUS_THRESHOLDS : StatusThresholds :=
  {| th_safer := 20; th_caution := 50 |}.

Definition DEFAULT_WINDOW_DURATION_MS : Z := (2 * 60 * 60 * 1000)%Z.

Definition computeSignalScore (signal : Signal) : Q :=
  let baseScore := IMPACT_WEIGHTS (impactLevel signal) in
  let multiplier := CONFIDENCE_MULTIPLIERS (confidenceLevel signal) in
  baseScore * multiplier.

Definition findOverlaps (sigs : list Signal) (windowStart windowEnd : Date)
  : list Signal :=
  filter (fun signal =>
    let signalStart := start (timeRange signal) in
    let signalEnd := end_ (timeRange signal) in
    date_lt signalStart windowEnd && date_gt signalEnd windowStart) sigs.

Local Open Scope string_scope.

Definition generateAnnotation (overlappingSignals : list Signal)
  (status : WindowStatus) : string :=
  if (Z.of_nat (List.length overlappingSignals) =? 0)%Z then
    "No known disruptions during this window. Good opportunity for outreach."
  else
    let highImpact :=
      filter (fun s => level_eqb (impactLevel s) high) overlappingSignals in
    let mediumImpact :=
      filter (fun s => level_eqb (impactLevel s) medium) overlappingSignals in
    let parts : list string := [] in
    let parts :=
      if (Z.of_nat (List.length highImpact) >? 0)%Z then
        push parts (numberToString (Z.of_nat (List.length highImpact))
                    ++ " high-impact signal(s): "
                    ++ String.concat ", " (map title highImpact))
      else parts in
    let parts :=
      if (Z.of_nat (List.length mediumImpact) >? 0)%Z then
        push parts (numberToString (Z.of_nat (List.length mediumImpact))
                    ++ " medium-impact signal(s)")
      else parts in
    let lowImpactCount :=
      (Z.of_nat (List.length overlappingSignals)
       - Z.of_nat (List.length highImpact)
       - Z.of_nat (List.length mediumImpact))%Z in
    let parts :=
      if (lowImpactCount >? 0)%Z then
        push parts (numberToString lowImpactCount
                    ++ " low-impact signal(s)")
      else parts in
    match status with
    | safer =>
        "Minor activity: " ++ String.concat "; " parts
        ++ ". Generally safe for outreach with awareness."
    | caution =>
        "Moderate disruption: " ++ String.concat "; " parts
        ++ ". Proceed with flexibility and backup plans."
    | avoid =>
        "High disruption: " ++ String.concat "; " parts
        ++ ". Consider rescheduling if possible."
    end.

Definition getStatusFromScore (score : Q) : WindowStatus :=
  if Qle_bool score (th_safer STATUS_THRESHOLDS) then safer
  else if Qle_bool score (th_caution STATUS_THRESHOLDS) then caution
  else avoid.

(** The [while] loop of [computeWindows], at a duration that is a whole
    number of milliseconds (the end of a window is then a whole number
    of milliseconds and [new Date] has nothing to cut).  [fuel] bounds the number of
    iterations; [None] means the bound was reached with the loop
    condition still true. *)
Fixpoint computeWindows_loop (fuel : nat) (sigs : list Signal)
  (rangeEnd : Date) (windowDurationMs : Z)
  (currentStart : Date) (windowIndex : Z) (windows : list OutreachWindow)
  : option (list OutreachWindow) :=
  if date_lt currentStart rangeEnd then
    match fuel with
    | O => None
    | S fuel' =>
        let currentEnd :=
          newDate (Math_min (num_add (getTime currentStart) windowDurationMs)
                            (getTime rangeEnd)) in
        let overlapping := findOverlaps sigs currentStart currentEnd in
        let rawScore :=
          fold_left (fun sum signal => (sum + computeSignalScore signal)%Q)
                    overlapping 0%Q in
        let score := Qmin 100 rawScore in
        let status := getStatusFromScore score in
        computeWindows_loop fuel' sigs rangeEnd windowDurationMs
          currentEnd (windowIndex + 1)%Z
          (push windows
             {| w_id := "window-" ++ numberToString windowIndex;
                w_timeRange := {| start := toISOString currentStart;
                                  end_ := toISOString currentEnd |};
                status := status;
                score := score;
                annotation := generateAnnotation overlapping status;
                contributingSignals := overlapping |})
    end
  else Some windows.

(** Number of iterations that suffices when the duration is positive:
    one more than the quotient of the range length by the duration. *)
Definition iterations (rangeStart rangeEnd : Date) (windowDurationMs : Z)
  : nat :=
  match rangeStart, rangeEnd with
  | Some a, Some b => Z.to_nat ((b - a) / windowDurationMs + 1)
  | _, _ => O
  end.

(** [computeWindows] at a whole duration; [None] when the loop does not
    come to an end. *)
Definition computeWindows (sigs : list Signal) (rangeStart rangeEnd : Date)
  (windowDurationMs : Z) : option (list OutreachWindow) :=
  let windows : list OutreachWindow := [] in
  let currentStart := newDate (getTime rangeStart) in
  let windowIndex := 0%Z in
  computeWindows_loop (iterations rangeStart rangeEnd windowDurationMs)
    sigs rangeEnd windowDurationMs currentStart windowIndex windows.

(** The call with the default argument. *)
Definition computeWindows_default (sigs : list Signal)
  (rangeStart rangeEnd : Date) : option (list OutreachWindow) :=
  computeWindows sigs rangeStart rangeEnd DEFAULT_WINDOW_DURATION_MS.

(** *** [computeWindows] at any number

    A JavaScript number: a finite value [m * 2 ^ e] (a binary64 value
    has [|m| < 2 ^ 53] and [-1074 <= e <= 971]), NaN, or an infinity. *)
Inductive number :=
| Finite (m e : Z)
| NaN
| PosInf
| NegInf.

(** The largest time value of a [Date]. *)
Definition MAX_TIME : Z := 8640000000000000%Z.

(** Rounding of [m * 2 ^ e] to binary64: the mantissa is cut to 53 bits,
    to the nearest, a tie going to the even mantissa; a value of 2^1024
    or more becomes an infinity. *)
Definition round64 (m e : Z) : number :=
  let k := (Z.log2 (Z.abs m) - 52)%Z in
  if (k <=? 0)%Z then Finite m e
  else
    let q := (Z.abs m / 2 ^ k)%Z in
    let r := (Z.abs m mod 2 ^ k)%Z in
    let half := (2 ^ (k - 1))%Z in
    let q' :=
      if (half <? r)%Z || ((r =? half)%Z && Z.odd q) then (q + 1)%Z
      else q in
    if (1024 <=? Z.log2 q' + (e + k))%Z then
      (if (m <? 0)%Z then NegInf else PosInf)
    else Finite (Z.sgn m * q') (e + k)%Z.

(** [t + d] for a time value [t] and a number [d]: the exact sum,
    rounded. *)
Definition time_plus (t : option Z) (d : number) : number :=
  match t, d with
  | None, _ => NaN
  | Some _, NaN => NaN
  | Some _, PosInf => PosInf
  | Some _, NegInf => NegInf
  | Some z, Finite m e =>
      if (0 <=? e)%Z then round64 (z + m * 2 ^ e) 0
      else round64 (z * 2 ^ (- e) + m) e
  end.

(** [Math.min(x, t)] for a number [x] and a time value [t]. *)
Definition number_min (x : number) (t : option Z) : number :=
  match t with
  | None => NaN
  | Some z =>
      match x with
      | NaN => NaN
      | NegInf => NegInf
      | PosInf => Finite z 0
      | Finite m e =>
          if (if (0 <=? e)%Z then (m * 2 ^ e <? z)%Z
              else (m <? z * 2 ^ (- e))%Z)
          then x else Finite z 0
      end
  end.

(** [new Date(x)] for a number [x]: an Invalid Date when [x] is not
    finite or beyond [MAX_TIME] in absolute value, else [x] cut to an
    integer, towards zero. *)
Definition Date_of_number (x : number) : Date :=
  match x with
  | Finite m e =>
      if (0 <=? e)%Z then
        if (Z.abs (m * 2 ^ e) <=? MAX_TIME)%Z then Some (m * 2 ^ e)%Z
        else None
      else
        if (Z.abs m <=? MAX_TIME * 2 ^ (- e))%Z
        then Some (Z.quot m (2 ^ (- e)))
        else None
  | _ => None
  end.

(** How a run of [computeWindows] ends: it returns the windows, it
    raises (the [RangeError] of [toISOString] on an Invalid Date), or it
    has not come to its end within the bound on the iterations. *)
Inductive Run :=
| Returned (windows : list OutreachWindow)
| Raised
| Unfinished.

Fixpoint computeWindows_number_loop (fuel : nat) (sigs : list Signal)
  (rangeEnd : Date) (windowDurationMs : number)
  (currentStart : Date) (windowIndex : Z) (windows : list OutreachWindow)
  : Run :=
  if date_lt currentStart rangeEnd then
    match fuel with
    | O => Unfinished
    | S fuel' =>
        let currentEnd :=
          Date_of_number
            (number_min (time_plus (getTime currentStart) windowDurationMs)
                        (getTime rangeEnd)) in
        let overlapping := findOverlaps sigs currentStart currentEnd in
        let rawScore :=
          fold_left (fun sum signal => (sum + computeSignalScore signal)%Q)
                    overlapping 0%Q in
        let score := Qmin 100 rawScore in
        let status := getStatusFromScore score in
        match currentStart, currentEnd with
        | Some _, Some _ =>
            computeWindows_number_loop fuel' sigs rangeEnd windowDurationMs
              currentEnd (windowIndex + 1)%Z
              (push windows
                 {| w_id := "window-" ++ numberToString windowIndex;
                    w_timeRange := {| start := toISOString currentStart;
                                      end_ := toISOString currentEnd |};
                    status := status;
                    score := score;
                    annotation := generateAnnotation overlapping status;
                    contributingSignals := overlapping |})
        | _, _ => Raised
        end
    end
  else Returned windows.

Definition computeWindows_number (fuel : nat) (sigs : list Signal)
  (rangeStart rangeEnd : Date) (windowDurationMs : number) : Run :=
  let windows : list OutreachWindow := [] in
  let currentStart := newDate (getTime rangeStart) in
  let windowIndex := 0%Z in
  computeWindows_number_loop fuel sigs rangeEnd windowDurationMs
    currentStart windowIndex windows.

(** The key type of [typeDescriptions] is the string of the signal type. *)
Definition signalTypeName (t : SignalType) : string :=
  match t with
  | sanitation => "sanitation"
  | publicEvent => "publicEvent"
  | shelterHours => "shelterHours"
  | transitDisruption => "transitDisruption"
  | serviceBottleneck => "serviceBottleneck"
  | infrastructureWork => "infrastructureWork"
  | megaEvent => "megaEvent"
  | custom => "custom"
  end.

(** [a || b] on strings: the empty string is the only falsy one. *)
Definition str_or (a b : string) : string :=
  if (a =? "")%string then b else a.

Definition generateOverlapExplanation (signalA signalB : Signal) : string :=
  let typeDescriptions (t : SignalType) : string :=
    match t with
    | sanitation => "sanitation activity"
    | publicEvent => "public event"
    | shelterHours => "shelter service hours"
    | transitDisruption => "transit disruption"
    | serviceBottleneck => "service bottleneck"
    | infrastructureWork => "infrastructure work"
    | megaEvent => "major event"
    | custom => "planned activity"
    end in
  let descA := str_or (typeDescriptions (signalType signalA))
                      (signalTypeName (signalType signalA)) in
  let descB := str_or (typeDescriptions (signalType signalB))
                      (signalTypeName (signalType signalB)) in
  title signalA ++ " (" ++ descA ++ ") overlaps with "
  ++ title signalB ++ " (" ++ descB ++ "). "
  ++ "Multiple disruptions increase unpredictability. Consider alternative windows or enhanced coordination.".

(** The body of the inner loop of [detectSignalOverlaps] at indices [i]
    and [j]; the indices are always in range there. *)
Definition detect_body (significantSignals : list Signal) (i j : nat)
  (overlaps : list SignalOverlap) : list SignalOverlap :=
  match nth_error significantSignals i, nth_error significantSignals j with
  | Some signalA, Some signalB =>
      let startA := start (timeRange signalA) in
      let endA := end_ (timeRange signalA) in
      let startB := start (timeRange signalB) in
      let endB := end_ (timeRange signalB) in
      if date_lt startA endB && date_gt endA startB then
        let overlapStart :=
          newDate (Math_max (getTime startA) (getTime startB)) in
        let overlapEnd :=
          newDate (Math_min (getTime endA) (getTime endB)) in
        let combinedImpact : ImpactLevel :=
          if level_eqb (impactLevel signalA) high
             || level_eqb (impactLevel signalB) high
          then high else medium in
        push overlaps
          {| o_id := "overlap-" ++ id signalA ++ "-" ++ id signalB;
             signals := [signalA; signalB];
             o_timeRange := {| start := toISOString overlapStart;
                               end_ := toISOString overlapEnd |};
             combinedImpact := combinedImpact;
             explanation := generateOverlapExplanation signalA signalB |}
      else overlaps
  | _, _ => overlaps
  end.

(** [for (i = 0; i < n; i++) for (j = i + 1; j < n; j++) ...] *)
Definition detectSignalOverlaps (sigs : list Signal) : list SignalOverlap :=
  let overlaps : list SignalOverlap := [] in
  let significantSignals :=
    filter (fun s => level_eqb (impactLevel s) medium
                     || level_eqb (impactLevel s) high) sigs in
  let n := List.length significantSignals in
  fold_left (fun overlaps i =>
    fold_left (fun overlaps j => detect_body significantSignals i j overlaps)
              (seq (i + 1) (n - (i + 1))) overlaps)
    (seq 0 n) overlaps.

(** ** lib/mock/signals and the route handler

    The module reads the clock once when it is loaded and builds its
    dates with the local-time calendar of the runtime ([setDate],
    [setHours], and the [Date] constructor on year, month and day).
    These, and the parser behind [new Date(string)], belong to the
    runtime and are parameters here. *)

Record Runtime := {
  (** The clock when the module is loaded. *)
  load_time : Z;
  (** Midnight, local time, of the day of an instant. *)
  startOfLocalDay : Z -> Z;
  (** [d.setDate(d.getDate() + days)]. *)
  plusLocalDays : Z -> Z -> Z;
  (** [d.setHours(hours, minutes, 0, 0)]. *)
  atLocalTime : Z -> Z -> Z -> Z;
  (** [new Date(string)]. *)
  parseDate : string -> Date
}.

Section Runtime.

Variable rt : Runtime.

Definition now : Date := Some (load_time rt).
Definition today : Date := Some (startOfLocalDay rt (load_time rt)).

Definition addDays (date : Date) (days : Z) : Date :=
  match date with
  | Some t => Some (plusLocalDays rt t days)
  | None => None
  end.

Definition setTime (date : Date) (hours minutes : Z) : Date :=
  match date with
  | Some t => Some (atLocalTime rt t hours minutes)
  | None => None
  end.

Local Open Scope Z_scope.

Definition sanitationSignals : list Signal :=
  [
  {| id := "sanitation-1";
     signalType := sanitation;
     title := "Street Cleaning - Wilshire Corridor";
     description :=
       "Scheduled street cleaning along Wilshire Blvd between Vermont and Western. Parking restrictions enforced.";
     timeRange :=
       {| start := toISOString (setTime (addDays today 0) 8 0);
          end_ := toISOString (setTime (addDays today 0) 12 0) |};
     source :=
       {| label := "LA Sanitation (Simulated Pattern)";
          kind := simulated;
          lastUpdated := Some (toISOString now) |};
     impactLevel := medium;
     confidenceLevel := medium;
     interpretationNotes :=
       "Street cleaning often precedes increased activity. Outreach during this window may face interruptions. Consider timing outreach before or after this period.";
     areaContext := Some "Koreatown - Wilshire Corridor";
     isCustom := None |};
  {| id := "sanitation-2";
     signalType := sanitation;
     title := "Street Cleaning - 6th Street Area";
     description :=
       "Scheduled street cleaning in residential areas around 6th Street and Serrano.";
     timeRange :=
       {| start := toISOString (setTime (addDays today 1) 9 0);
          end_ := toISOString (setTime (addDays today 1) 13 0) |};
     source :=
       {| label := "LA Sanitation (Simulated Pattern)";
          kind := simulated;
          lastUpdated := None |};
     impactLevel := medium;
     confidenceLevel := low;
     interpretationNotes :=
       "Residential cleaning typically lower impact than commercial corridors. Monitor for changes.";
     areaContext := Some "Koreatown - Residential";
     isCustom := None |};
  {| id := "sanitation-3";
     signalType := sanitation;
     title := "Street Cleaning - Vermont Ave";
     description :=
       "Weekly street cleaning along Vermont Avenue commercial district.";
     timeRange :=
       {| start := toISOString (setTime (addDays today 2) 7 0);
          end_ := toISOString (setTime (addDays today 2) 11 0) |};
     source :=
       {| label := "LA Sanitation (Simulated Pattern)";
          kind := simulated;
          lastUpdated := None |};
     impactLevel := high;
     confidenceLevel := medium;
     interpretationNotes :=
       "Vermont corridor is high-traffic. Cleaning may coincide with morning service hours at nearby clinics.";
     areaContext := Some "Koreatown - Vermont Corridor";
     isCustom := None |};
  {| id := "sanitation-4";
     signalType := sanitation;
     title := "Street Cleaning - Olympic Blvd";
     description :=
       "Bi-weekly street cleaning on Olympic Blvd between Normandie and Western.";
     timeRange :=
       {| start := toISOString (setTime (addDays today 3) 6 0);
          end_ := toISOString (setTime (addDays today 3) 10 0) |};
     source :=
       {| label := "LA Sanitation (Simulated Pattern)";
          kind := simulated;
          lastUpdated := None |};
     impactLevel := medium;
     confidenceLevel := high;
     interpretationNotes :=
       "Early morning cleaning. People may need to relocate temporarily. Good opportunity for outreach afterward.";
     areaContext := Some "Koreatown - Olympic Corridor";
     isCustom := None |}
  ].

Definition publicEventSignals : list Signal :=
  [
  {| id := "event-1";
     signalType := publicEvent;
     title := "K-Town Night Market";
     description :=
       "Monthly night market event at Robert F. Kennedy Community Schools. High foot traffic expected.";
     timeRange :=
       {| start := toISOString (setTime (addDays today 2) 17 0);
          end_ := toISOString (setTime (addDays today 2) 22 0) |};
     source :=
       {| label := "Community Calendar (Public)";
          kind := publicCalendar;
          lastUpdated := None |};
     impactLevel := medium;
     confidenceLevel := high;
     interpretationNotes :=
       "Community events can be opportunities for resource distribution but may also increase displacement pressure. Coordinate with event organizers if possible.";
     areaContext := Some "Koreatown";
     isCustom := None |};
  {| id := "event-2";
     signalType := publicEvent;
     title := "Wilshire Center Farmers Market";
     description :=
       "Weekly farmers market. Blocks portion of street parking.";
     timeRange :=
       {| start := toISOString (setTime (addDays today 3) 9 0);
          end_ := toISOString (setTime (addDays today 3) 14 0) |};
     source :=
       {| label := "Community Calendar (Public)";
          kind := publicCalendar;
          lastUpdated := None |};
     impactLevel := low;
     confidenceLevel := high;
     interpretationNotes :=
       "Farmers markets typically low disruption. Some food resources may be available for distribution.";
     areaContext := Some "Wilshire Center";
     isCustom := None |};
  {| id := "event-3";
     signalType := publicEvent;
     title := "Community Health Fair";
     description :=
       "Free health screenings and resources at MacArthur Park. Partner organizations will be present.";
     timeRange :=
       {| start := toISOString (setTime (addDays today 4) 10 0);
          end_ := toISOString (setTime (addDays today 4) 16 0) |};
     source :=
       {| label := "Community Calendar (Public)";
          kind := publicCalendar;
          lastUpdated := None |};
     impactLevel := low;
     confidenceLevel := high;
     interpretationNotes :=
       "Excellent opportunity for connecting community members with health resources. Coordinate to avoid duplication.";
     areaContext := Some "MacArthur Park";
     isCustom := None |};
  {| id := "event-4";
     signalType := publicEvent;
     title := "LACMA Free Admission Day";
     description :=
       "Free museum admission draws large crowds to Wilshire/Fairfax area.";
     timeRange :=
       {| start := toISOString (setTime (addDays today 5) 11 0);
          end_ := toISOString (setTime (addDays today 5) 20 0) |};
     source :=
       {| label := "Community Calendar (Public)";
          kind := publicCalendar;
          lastUpdated := None |};
     impactLevel := low;
     confidenceLevel := high;
     interpretationNotes :=
       "Increased pedestrian activity in museum area. Generally positive atmosphere.";
     areaContext := Some "Miracle Mile";
     isCustom := None |}
  ].

Definition shelterSignals : list Signal :=
  [
  {| id := "shelter-1";
     signalType := shelterHours;
     title := "Emergency Shelter Intake Opens";
     description :=
       "Nightly intake window at area emergency shelters. High demand period.";
     timeRange :=
       {| start := toISOString (setTime today 17 0);
          end_ := toISOString (setTime today 20 0) |};
     source :=
       {| label := "LAHSA Shelter Network (Simulated)";
          kind := simulated;
          lastUpdated := None |};
     impactLevel := low;
     confidenceLevel := high;
     interpretationNotes :=
       "Shelter intake is a positive resource window. Outreach can help connect people to beds during this time.";
     areaContext := Some "Los Angeles - Citywide";
     isCustom := None |};
  {| id := "shelter-2";
     signalType := shelterHours;
     title := "Day Center Services - Union Rescue Mission";
     description :=
       "Day center services including showers, meals, and case management.";
     timeRange :=
       {| start := toISOString (setTime (addDays today 0) 8 0);
          end_ := toISOString (setTime (addDays today 0) 14 0) |};
     source :=
       {| label := "Partner Services (Simulated)";
          kind := partnerProvided;
          lastUpdated := None |};
     impactLevel := low;
     confidenceLevel := high;
     interpretationNotes :=
       "Day centers provide essential services. Consider coordinating outreach to complement rather than compete with these hours.";
     areaContext := Some "Koreatown Area";
     isCustom := None |};
  {| id := "shelter-3";
     signalType := shelterHours;
     title := "Mobile Shower Unit - Vermont/Wilshire";
     description :=
       "Weekly mobile shower and hygiene services near Metro station.";
     timeRange :=
       {| start := toISOString (setTime (addDays today 1) 10 0);
          end_ := toISOString (setTime (addDays today 1) 15 0) |};
     source :=
       {| label := "Partner Services (Simulated)";
          kind := partnerProvided;
          lastUpdated := None |};
     impactLevel := low;
     confidenceLevel := high;
     interpretationNotes :=
       "Great opportunity for outreach coordination. People gathering for services are more accessible.";
     areaContext := Some "Koreatown - Vermont/Wilshire";
     isCustom := None |};
  {| id := "shelter-4";
     signalType := shelterHours;
     title := "Hot Meal Service - St. Basil's";
     description :=
       "Daily hot meal service at church community center.";
     timeRange :=
       {| start := toISOString (setTime (addDays today 0) 11 0);
          end_ := toISOString (setTime (addDays today 0) 13 0) |};
     source :=
       {| label := "Partner Services (Simulated)";
          kind := partnerProvided;
          lastUpdated := None |};
     impactLevel := low;
     confidenceLevel := high;
     interpretationNotes :=
       "Meal times are predictable gathering points. Excellent for resource distribution and relationship building.";
     areaContext := Some "Koreatown - Wilshire";
     isCustom := None |}
  ].

Definition transitSignals : list Signal :=
  [
  {| id := "transit-1";
     signalType := transitDisruption;
     title := "Metro Purple Line Construction";
     description :=
       "Ongoing construction at Wilshire/Western station. Reduced service and street closures.";
     timeRange :=
       {| start := toISOString (setTime today 0 0);
          end_ := toISOString (setTime (addDays today 7) 23 59) |};
     source :=
       {| label := "LA Metro (Public)";
          kind := publicCalendar;
          lastUpdated := None |};
     impactLevel := medium;
     confidenceLevel := high;
     interpretationNotes :=
       "Construction zones can complicate access for both outreach teams and community members. Plan alternative routes.";
     areaContext := Some "Koreatown - Wilshire/Western";
     isCustom := None |};
  {| id := "transit-2";
     signalType := transitDisruption;
     title := "Bus Reroute - Vermont Line";
     description :=
       "Temporary bus reroute due to utility work. Stops relocated.";
     timeRange :=
       {| start := toISOString (setTime (addDays today 2) 6 0);
          end_ := toISOString (setTime (addDays today 2) 18 0) |};
     source :=
       {| label := "LA Metro (Simulated)";
          kind := simulated;
          lastUpdated := None |};
     impactLevel := low;
     confidenceLevel := medium;
     interpretationNotes :=
       "Minor disruption. Some community members may be displaced from usual transit stops.";
     areaContext := Some "Vermont Corridor";
     isCustom := None |}
  ].

Definition serviceBottleneckSignals : list Signal :=
  [
  {| id := "bottleneck-1";
     signalType := serviceBottleneck;
     title := "Benefits Office High Volume";
     description :=
       "First week of month typically sees high volume at DPSS offices.";
     timeRange :=
       {| start := toISOString (setTime (addDays today 0) 8 0);
          end_ := toISOString (setTime (addDays today 3) 17 0) |};
     source :=
       {| label := "Service Provider Network (Simulated)";
          kind := simulated;
          lastUpdated := None |};
     impactLevel := medium;
     confidenceLevel := medium;
     interpretationNotes :=
       "High volume periods at benefits offices mean longer waits. Outreach can help with paperwork prep beforehand.";
     areaContext := Some "Los Angeles - Multiple Locations";
     isCustom := None |}
  ].

Definition infrastructureSignals : list Signal :=
  [
  {| id := "infra-1";
     signalType := infrastructureWork;
     title := "Water Main Repair";
     description :=
       "Emergency water main repair. Street closure and reduced pedestrian access.";
     timeRange :=
       {| start := toISOString (setTime (addDays today 1) 7 0);
          end_ := toISOString (setTime (addDays today 1) 19 0) |};
     source :=
       {| label := "LADWP (Simulated)";
          kind := simulated;
          lastUpdated := None |};
     impactLevel := medium;
     confidenceLevel := low;
     interpretationNotes :=
       "Infrastructure work can cause temporary displacement and access issues. Confirm completion before planning outreach in area.";
     areaContext := Some "Koreatown - 8th Street";
     isCustom := None |}
  ].

Definition megaEventSignals : list Signal :=
  [
  {| id := "mega-1";
     signalType := megaEvent;
     title := "[SCENARIO] Olympics Opening Week";
     description :=
       "SPECULATIVE: Simulated increased activity during Olympics opening ceremonies. Expect heightened security presence and potential displacement pressure.";
     timeRange :=
       {| start := toISOString (setTime (addDays today 14) 0 0);
          end_ := toISOString (setTime (addDays today 21) 23 59) |};
     source :=
       {| label := "Scenario Simulation (Speculative)";
          kind := simulated;
          lastUpdated := None |};
     impactLevel := high;
     confidenceLevel := low;
     interpretationNotes :=
       "SCENARIO MODE: This signal represents potential conditions during a mega-event. Actual impacts will vary. Use for planning exercises only.";
     areaContext := Some "Los Angeles - Citywide";
     isCustom := None |};
  {| id := "mega-2";
     signalType := megaEvent;
     title := "[SCENARIO] Transit Surge Period";
     description :=
       "SPECULATIVE: Simulated transit system at capacity. Metro stations may have restricted access.";
     timeRange :=
       {| start := toISOString (setTime (addDays today 15) 6 0);
          end_ := toISOString (setTime (addDays today 15) 22 0) |};
     source :=
       {| label := "Scenario Simulation (Speculative)";
          kind := simulated;
          lastUpdated := None |};
     impactLevel := high;
     confidenceLevel := low;
     interpretationNotes :=
       "SCENARIO MODE: Transit hubs near K-Town (Wilshire/Vermont, Wilshire/Western) may see increased security. Plan alternative meeting points.";
     areaContext := Some "Koreatown - Transit Hubs";
     isCustom := None |};
  {| id := "mega-3";
     signalType := megaEvent;
     title := "[SCENARIO] Venue Buffer Zones";
     description :=
       "SPECULATIVE: Security perimeters around event venues may expand, affecting nearby areas.";
     timeRange :=
       {| start := toISOString (setTime (addDays today 14) 0 0);
          end_ := toISOString (setTime (addDays today 28) 23 59) |};
     source :=
       {| label := "Scenario Simulation (Speculative)";
          kind := simulated;
          lastUpdated := None |};
     impactLevel := high;
     confidenceLevel := low;
     interpretationNotes :=
       "SCENARIO MODE: Buffer zones around venues historically cause displacement. This is speculative planning for potential 2028 conditions.";
     areaContext := Some "Los Angeles - Venue Adjacent";
     isCustom := None |}
  ].

Definition getBaseSignals : list Signal :=
  (sanitationSignals ++ publicEventSignals ++ shelterSignals
   ++ transitSignals ++ serviceBottleneckSignals
   ++ infrastructureSignals)%list.

Definition getAllSignals (includeScenario : bool) : list Signal :=
  let base := getBaseSignals in
  if includeScenario then (base ++ megaEventSignals)%list
  else base.

Definition filterSignalsByDateRange (sigs : list Signal)
  (start' end' : Date) : list Signal :=
  filter (fun signal =>
    let signalStart := start (timeRange signal) in
    let signalEnd := end_ (timeRange signal) in
    date_le signalStart end' && date_ge signalEnd start') sigs.

(** *** app/api/signals/route *)

Record Request := {
  q_start : option string;
  q_end : option string;
  q_scenario : option string
}.

Inductive Body :=
| ErrorBody (error : string)
| DataBody (response : SignalsApiResponse).

Record Response := { http_status : Z; body : Body }.

(** [isNaN] on a time value. *)
Definition isNaN (t : option Z) : bool :=
  match t with
  | Some _ => false
  | None => true
  end.

(** Truthiness of a query parameter: absent ([null]) and the empty
    string are falsy. *)
Definition truthy (p : option string) : option string :=
  match p with
  | Some s => if (s =? "")%string then None else Some s
  | None => None
  end.

(** [GET]: [request_time] and [response_time] are the two readings of
    the clock.  [None] when the handler does not come to an answer. *)
Definition GET (request_time response_time : Z) (request : Request)
  : option Response :=
  let now := Some request_time in
  let startParam := q_start request in
  let endParam := q_end request in
  let scenarioParam := q_scenario request in
  let start' :=
    match truthy startParam with
    | Some s => parseDate rt s
    | None => now
    end in
  let end' :=
    match truthy endParam with
    | Some s => parseDate rt s
    | None =>
        Date_of_number
          (time_plus (getTime start') (Finite (7 * 24 * 60 * 60 * 1000) 0))
    end in
  let includeScenario :=
    match scenarioParam with
    | Some s => (s =? "on")%string
    | None => false
    end in
  if isNaN (getTime start') || isNaN (getTime end') then
    Some {| http_status := 400;
            body := ErrorBody "Invalid date format. Use ISO 8601 format." |}
  else if date_le end' start' then
    Some {| http_status := 400;
            body := ErrorBody "End date must be after start date." |}
  else
    let allSignals := getAllSignals includeScenario in
    let filteredSignals := filterSignalsByDateRange allSignals start' end' in
    match computeWindows_default filteredSignals start' end' with
    | None => None
    | Some windows =>
        let overlaps := detectSignalOverlaps filteredSignals in
        let response :=
          {| r_signals := filteredSignals;
             r_overlaps := overlaps;
             r_windows := windows;
             meta :=
               {| queryRange := {| start := toISOString start';
                                   end_ := toISOString end' |};
                  scenarioMode := includeScenario;
                  generatedAt := toISOString (Some response_time);
                  disclaimer :=
                    "PROTOTYPE DATA: All signals are simulated or based on delayed/public information. "
                    ++ "This tool does not provide real-time data, enforcement information, or individual tracking. "
                    ++ "Use for organizational planning purposes only. Verify conditions before outreach activities." |} |} in
        Some {| http_status := 200; body := DataBody response |}
    end.

End Runtime.

(** ** Auxiliary definitions for the statements *)

(** The window pushed by an iteration of the loop of [computeWindows]
    that starts at [cs], ends at [ce] and has index [windowIndex]. *)
Definition window_at (sigs : list Signal) (windowIndex cs ce : Z)
  : OutreachWindow :=
  let overlapping := findOverlaps sigs (Some cs) (Some ce) in
  let score :=
    Qmin 100 (fold_left (fun sum signal => (sum + computeSignalScore signal)%Q)
                        overlapping 0%Q) in
  {| w_id := "window-" ++ numberToString windowIndex;
     w_timeRange := {| start := Some cs; end_ := Some ce |};
     status := getStatusFromScore score;
     score := score;
     annotation := generateAnnotation overlapping (getStatusFromScore score);
     contributingSignals := overlapping |}.

(** The iterations of the loop as a relation: the windows produced from
    [cs] on, with indices from [idx] on, up to [re]. *)
Inductive tiling (sigs : list Signal) (d re : Z)
  : Z -> Z -> list OutreachWindow -> Prop :=
| tiling_nil cs idx :
    (re <= cs)%Z -> tiling sigs d re cs idx []
| tiling_cons cs idx ws :
    (cs < re)%Z ->
    tiling sigs d re (Z.min (cs + d) re) (idx + 1) ws ->
    tiling sigs d re cs idx
      (window_at sigs idx cs (Z.min (cs + d) re) :: ws).

(** A signal overlaps a window: it starts before the window ends and
    ends after the window starts. *)
Definition overlaps_window (w : OutreachWindow) (s : Signal) : bool :=
  date_lt (start (timeRange s)) (end_ (w_timeRange w))
  && date_lt (start (w_timeRange w)) (end_ (timeRange s)).

(** The weighted sum of a list of signals. *)
Fixpoint weighted_sum (l : list Signal) : Q :=
  match l with
  | [] => 0%Q
  | s :: r =>
      (IMPACT_WEIGHTS (impactLevel s)
       * CONFIDENCE_MULTIPLIERS (confidenceLevel s) + weighted_sum r)%Q
  end.

(** Bounds and length of a window. *)
Definition w_start (w : OutreachWindow) : Date := start (w_timeRange w).
Definition w_end (w : OutreachWindow) : Date := end_ (w_timeRange w).

Definition w_length (w : OutreachWindow) : option Z :=
  match w_start w, w_end w with
  | Some a, Some b => Some (b - a)%Z
  | _, _ => None
  end.

(** Number of signals of a given impact level. *)
Fixpoint count_impact (l : Level) (sigs : list Signal) : nat :=
  match sigs with
  | [] => O
  | s :: r =>
      if level_eqb (impactLevel s) l then S (count_impact l r)
      else count_impact l r
  end.

(** The titles of the high-impact signals, in order. *)
Fixpoint high_titles (sigs : list Signal) : list string :=
  match sigs with
  | [] => []
  | s :: r =>
      if level_eqb (impactLevel s) high then title s :: high_titles r
      else high_titles r
  end.

(** The phrases of an annotation: one per impact level that has at
    least one signal, with its count; high first, then medium, then
    low. *)
Definition count_phrases (sigs : list Signal) : list string :=
  let high_phrase :=
    numberToString (Z.of_nat (count_impact high sigs))
    ++ " high-impact signal(s): " ++ String.concat ", " (high_titles sigs) in
  let medium_phrase :=
    numberToString (Z.of_nat (count_impact medium sigs))
    ++ " medium-impact signal(s)" in
  let low_phrase :=
    numberToString (Z.of_nat (count_impact low sigs))
    ++ " low-impact signal(s)" in
  ((if (0 <? count_impact high sigs)%nat then [high_phrase] else [])
   ++ (if (0 <? count_impact medium sigs)%nat then [medium_phrase] else [])
   ++ (if (0 <? count_impact low sigs)%nat then [low_phrase] else []))%list.

Definition status_prefix (st : WindowStatus) : string :=
  match st with
  | safer => "Minor activity"
  | caution => "Moderate disruption"
  | avoid => "High disruption"
  end.

Definition status_advice (st : WindowStatus) : string :=
  match st with
  | safer => ". Generally safe for outreach with awareness."
  | caution => ". Proceed with flexibility and backup plans."
  | avoid => ". Consider rescheduling if possible."
  end.

(** A signal touches the interval from [a] to [b]: it ends exactly at
    [a] or starts exactly at [b]. *)
Definition touches (s : Signal) (a b : Date) : Prop :=
  (exists t, end_ (timeRange s) = Some t /\ a = Some t) \/
  (exists t, start (timeRange s) = Some t /\ b = Some t).

(** A signal of medium or high impact. *)
Definition significant (s : Signal) : bool :=
  level_eqb (impactLevel s) medium || level_eqb (impactLevel s) high.

(** The time ranges of two signals intersect. *)
Definition intersects (a b : Signal) : bool :=
  date_lt (start (timeRange a)) (end_ (timeRange b))
  && date_gt (end_ (timeRange a)) (start (timeRange b)).

(** The overlap pushed for a pair of signals. *)
Definition overlap_of (signalA signalB : Signal) : SignalOverlap :=
  {| o_id := "overlap-" ++ id signalA ++ "-" ++ id signalB;
     signals := [signalA; signalB];
     o_timeRange :=
       {| start := Math_max (start (timeRange signalA))
                            (start (timeRange signalB));
          end_ := Math_min (end_ (timeRange signalA))
                           (end_ (timeRange signalB)) |};
     combinedImpact :=
       if level_eqb (impactLevel signalA) high
          || level_eqb (impactLevel signalB) high
       then high else medium;
     explanation := generateOverlapExplanation signalA signalB |}.

(** The overlaps of one signal with the signals after it, and of all
    pairs of a list, in the order of the two loops. *)
Fixpoint overlaps_from (a : Signal) (rest : list Signal)
  : list SignalOverlap :=
  match rest with
  | [] => []
  | b :: r =>
      ((if intersects a b then [overlap_of a b] else [])
       ++ overlaps_from a r)%list
  end.

Fixpoint pair_overlaps (l : list Signal) : list SignalOverlap :=
  match l with
  | [] => []
  | a :: r => (overlaps_from a r ++ pair_overlaps r)%list
  end.

(** Positions [i < j] of the input that hold two significant signals
    whose ranges intersect. *)
Definition qualifying (sigs : list Signal) (i j : nat) : Prop :=
  (i < j)%nat /\
  exists a b,
    nth_error sigs i = Some a /\ nth_error sigs j = Some b /\
    significant a = true /\ significant b = true /\
    intersects a b = true.

(** The qualifying positions, enumerated: [row_pairs i a j rest] pairs
    position [i], which holds [a], with the positions from [j] on, which
    hold [rest]; [qual_pairs k l] does so for every position from [k]
    on, which hold [l]. *)
Fixpoint row_pairs (i : nat) (a : Signal) (j : nat) (rest : list Signal)
  : list (nat * nat) :=
  match rest with
  | [] => []
  | b :: r =>
      ((if significant b && intersects a b then [(i, j)] else [])
       ++ row_pairs i a (S j) r)%list
  end.

Fixpoint qual_pairs (k : nat) (l : list Signal) : list (nat * nat) :=
  match l with
  | [] => []
  | a :: r =>
      ((if significant a then row_pairs k a (S k) r else [])
       ++ qual_pairs (S k) r)%list
  end.

(** Overlap [o] is the report of the pair of positions [p]: it holds
    the two signals, in order, its range is the intersection of theirs,
    and its impact is high when one of them is of high impact, medium
    otherwise. *)
Definition reports (sigs : list Signal) (p : nat * nat) (o : SignalOverlap)
  : Prop :=
  exists a b sa ea sb eb,
    nth_error sigs (fst p) = Some a /\ nth_error sigs (snd p) = Some b /\
    timeRange a = {| start := Some sa; end_ := Some ea |} /\
    timeRange b = {| start := Some sb; end_ := Some eb |} /\
    signals o = [a; b] /\
    o_timeRange o = {| start := Some (Z.max sa sb);
                       end_ := Some (Z.min ea eb) |} /\
    combinedImpact o
    = (if level_eqb (impactLevel a) high || level_eqb (impactLevel b) high
       then high else medium) /\
    o_id o = "overlap-" ++ id a ++ "-" ++ id b /\
    explanation o = generateOverlapExplanation a b.

(** The start of the query range of a request: the parsed [start]
    parameter, or the time of the request when the parameter is absent
    or empty; its end: the parsed [end] parameter, or seven days after
    the start, an Invalid Date when that is beyond the largest time
    value; and the scenario flag. *)
Definition query_start (rt : Runtime) (request_time : Z)
  (request : Request) : Date :=
  match truthy (q_start request) with
  | Some s => parseDate rt s
  | None => Some request_time
  end.

Definition query_end (rt : Runtime) (request_time : Z)
  (request : Request) : Date :=
  match truthy (q_end request) with
  | Some s => parseDate rt s
  | None =>
      match query_start rt request_time request with
      | Some t =>
          if (Z.abs (t + 604800000) <=? MAX_TIME)%Z
          then Some (t + 604800000)%Z
          else None
      | None => None
      end
  end.

Definition scenario_flag (request : Request) : bool :=
  match q_scenario request with
  | Some s => (s =? "on")%string
  | None => false
  end.

Definition DISCLAIMER : string :=
  "PROTOTYPE DATA: All signals are simulated or based on delayed/public information. This tool does not provide real-time data, enforcement information, or individual tracking. Use for organizational planning purposes only. Verify conditions before outreach activities.".

(** The list a run returned, if it returned. *)
Definition run_list (r : Run) : option (list OutreachWindow) :=
  match r with
  | Returned ws => Some ws
  | Raised | Unfinished => None
  end.

(** A date that a [Date] object can hold: invalid, or within the limit
    on time values. *)
Definition representable (d : Date) : Prop :=
  match d with
  | Some t => (Z.abs t <= MAX_TIME)%Z
  | None => True
  end.

(** A signal with the given identifier, title, type, bounds and levels,
    and no text; for the examples. *)
Definition mkSig (i t : string) (ty : SignalType) (a b : Z) (il cl : Level)
  : Signal :=
  {| id := i; signalType := ty; title := t; description := "";
     timeRange := {| start := Some a; end_ := Some b |};
     source := {| label := ""; kind := simulated; lastUpdated := None |};
     impactLevel := il; confidenceLevel := cl; interpretationNotes := "";
     areaContext := None; isCustom := None |}.

Definition example_signals : list Signal :=
  [ mkSig "a" "A" sanitation 1 3 high low;
    mkSig "b" "B" publicEvent 2 9 medium medium;
    mkSig "c" "C" custom 0 4 low high ].

(** The windows of the example signals over the range from 0 to 10 with
    duration 4. *)
Definition example_windows : list OutreachWindow :=
  [ window_at example_signals 0 0 4;
    window_at example_signals 1 4 8;
    window_at example_signals 2 8 10 ].

(** A signal that starts where the second window of the example ends. *)
Definition touching_signal : Signal :=
  mkSig "t" "T" transitDisruption 8 12 high high.

(** A runtime for the examples: the module is loaded at time 0, the
    local day starts at the multiples of 86400000 ms, and a timestamp is
    parsed from two strings only. *)
Definition ex_runtime : Runtime :=
  {| load_time := 0;
     startOfLocalDay := fun t => (t / 86400000 * 86400000)%Z;
     plusLocalDays := fun t days => (t + days * 86400000)%Z;
     atLocalTime := fun t hours minutes =>
       (t / 86400000 * 86400000 + hours * 3600000 + minutes * 60000)%Z;
     parseDate := fun s =>
       if (s =? "1970-01-01T00:00:00.000Z")%string then Some 0%Z
       else if (s =? "1970-01-02T00:00:00.000Z")%string
            then Some 86400000%Z
       else None |}.

(** The same runtime, parsing the last instant a date can hold. *)
Definition far_runtime : Runtime :=
  {| load_time := 0;
     startOfLocalDay := startOfLocalDay ex_runtime;
     plusLocalDays := plusLocalDays ex_runtime;
     atLocalTime := atLocalTime ex_runtime;
     parseDate := fun s =>
       if (s =? "+275760-09-13T00:00:00.000Z")%string then Some MAX_TIME
       else None |}.

Definition far_request : Request :=
  {| q_start := Some "+275760-09-13T00:00:00.000Z";
     q_end := None;
     q_scenario := None |}.

Definition ex_request : Request :=
  {| q_start := Some "1970-01-01T00:00:00.000Z";
     q_end := Some "1970-01-02T00:00:00.000Z";
     q_scenario := Some "on" |}.

Definition ex_bad_request : Request :=
  {| q_start := Some "yesterday"; q_end := None; q_scenario := None |}.

(** ** The rest of lib/mock/signals and lib/windowing *)

Definition signalType_eqb (a b : SignalType) : bool :=
  match a, b with
  | sanitation, sanitation
  | publicEvent, publicEvent
  | shelterHours, shelterHours
  | transitDisruption, transitDisruption
  | serviceBottleneck, serviceBottleneck
  | infrastructureWork, infrastructureWork
  | megaEvent, megaEvent
  | custom, custom => true
  | _, _ => false
  end.

Definition status_eqb (a b : WindowStatus) : bool :=
  match a, b with
  | safer, safer | caution, caution | avoid, avoid => true
  | _, _ => false
  end.

(** [groupSignalsByType]: the record with one array per signal type is
    a function of the type; every array starts empty and each signal is
    pushed onto the array of its type. *)
Definition groupSignalsByType (sigs : list Signal)
  : SignalType -> list Signal :=
  let grouped : SignalType -> list Signal := fun _ => [] in
  fold_left (fun (grouped : SignalType -> list Signal) signal =>
    fun t =>
      if signalType_eqb t (signalType signal) then push (grouped t) signal
      else grouped t)
    sigs grouped.

Definition getHighImpactSignals (sigs : list Signal) : list Signal :=
  filter (fun s => level_eqb (impactLevel s) high) sigs.

(** [Math.round]: the nearest integer, a half going up. *)
Definition Math_round (x : Q) : Z := Qfloor (x + (1 # 2)).

Record WindowSummary := {
  s_total : Z;
  s_safer : Z;
  s_caution : Z;
  s_avoid : Z;
  s_averageScore : Z
}.

(** [getWindowSummary].  The sum of the scores is exact (multiples of
    1/2); the quotient by the length is taken exactly here.  In binary64
    the quotient is rounded by less than 2^-46, while the exact quotient
    of less than 2^32 scores either is a half-integer, hence exact, or is
    at least 2^-33 away from one: [Math.round] gives the same integer. *)
Definition getWindowSummary (windows : list OutreachWindow) : WindowSummary :=
  let safer' :=
    Z.of_nat (List.length
                (filter (fun w => status_eqb (status w) safer) windows)) in
  let caution' :=
    Z.of_nat (List.length
                (filter (fun w => status_eqb (status w) caution) windows)) in
  let avoid' :=
    Z.of_nat (List.length
                (filter (fun w => status_eqb (status w) avoid) windows)) in
  let averageScore :=
    if (Z.of_nat (List.length windows) >? 0)%Z then
      (fold_left (fun sum w => sum + score w) windows 0
       / inject_Z (Z.of_nat (List.length windows)))%Q
    else 0%Q in
  {| s_total := Z.of_nat (List.length windows);
     s_safer := safer';
     s_caution := caution';
     s_avoid := avoid';
     s_averageScore := Math_round averageScore |}.

(** [-] on time values. *)
Definition num_sub (a b : option Z) : option Z :=
  match a, b with
  | Some x, Some y => Some (x - y)%Z
  | _, _ => None
  end.

(** [Array.prototype.sort] with a comparator: the sort is stable, and a
    comparator value that is NaN counts as 0.  On a consistent
    comparator the result is fixed by these two facts; it is computed
    here by insertion from the right. *)
Definition sort_value (v : option Z) : Z :=
  match v with
  | Some x => x
  | None => 0%Z
  end.

Fixpoint sort_insert {A : Type} (cmp : A -> A -> option Z) (x : A)
  (l : list A) : list A :=
  match l with
  | [] => [x]
  | y :: r =>
      if (sort_value (cmp x y) >? 0)%Z then y :: sort_insert cmp x r
      else x :: y :: r
  end.

Definition Array_sort {A : Type} (cmp : A -> A -> option Z) (l : list A)
  : list A :=
  fold_right (sort_insert cmp) [] l.

(** [findNextSaferWindow]; the default of [fromTime] is the clock. *)
Definition findNextSaferWindow (windows : list OutreachWindow)
  (fromTime : Date) : option OutreachWindow :=
  let futureWindows :=
    filter (fun w => date_ge (start (w_timeRange w)) fromTime
                     && status_eqb (status w) safer) windows in
  if (Z.of_nat (List.length futureWindows) =? 0)%Z then None
  else
    nth_error
      (Array_sort (fun a b =>
                     num_sub (getTime (start (w_timeRange a)))
                             (getTime (start (w_timeRange b))))
                  futureWindows) 0.

(** ** The pages *)

(** app/page, [OverviewPage]: the window that holds the present instant,
    the next safer window, and the count of windows by status. *)
Definition currentWindow (data : option SignalsApiResponse) (now : Date)
  : option OutreachWindow :=
  match data with
  | Some d =>
      find (fun w =>
              let start' := start (w_timeRange w) in
              let end' := end_ (w_timeRange w) in
              date_ge now start' && date_lt now end') (r_windows d)
  | None => None
  end.

Definition nextSaferWindow (data : option SignalsApiResponse) (now : Date)
  : option OutreachWindow :=
  match data with
  | Some d =>
      find (fun w =>
              let start' := start (w_timeRange w) in
              date_gt start' now && status_eqb (status w) safer)
           (r_windows d)
  | None => None
  end.

Record WindowCounts := { c_safer : Z; c_caution : Z; c_avoid : Z }.

Definition windowCounts (data : option SignalsApiResponse) : WindowCounts :=
  match data with
  | Some d =>
      fold_left (fun acc w =>
        match status w with
        | safer => {| c_safer := c_safer acc + 1;
                      c_caution := c_caution acc;
                      c_avoid := c_avoid acc |}
        | caution => {| c_safer := c_safer acc;
                        c_caution := c_caution acc + 1;
                        c_avoid := c_avoid acc |}
        | avoid => {| c_safer := c_safer acc;
                      c_caution := c_caution acc;
                      c_avoid := c_avoid acc + 1 |}
        end)%Z
        (r_windows d) {| c_safer := 0; c_caution := 0; c_avoid := 0 |}
  | None => {| c_safer := 0; c_caution := 0; c_avoid := 0 |}
  end.

(** app/planner/page, [PlannerPage]: the window selected by its
    identifier, and the lists of custom signals that adding, removing
    and importing hand to [saveCustomSignals]. *)
Definition selectedWindowData (data : option SignalsApiResponse)
  (selectedWindow : option string) : option OutreachWindow :=
  match data with
  | Some d =>
      find (fun w =>
              match selectedWindow with
              | Some sel => (w_id w =? sel)%string
              | None => false
              end) (r_windows d)
  | None => None
  end.

Definition handleAddSignal (customSignals : list Signal) (signal : Signal)
  : list Signal :=
  (customSignals ++
   [{| id := id signal;
       signalType := signalType signal;
       title := title signal;
       description := description signal;
       timeRange := timeRange signal;
       source := source signal;
       impactLevel := impactLevel signal;
       confidenceLevel := confidenceLevel signal;
       interpretationNotes := interpretationNotes signal;
       areaContext := areaContext signal;
       isCustom := Some true |}])%list.

Definition handleRemoveCustomSignal (customSignals : list Signal)
  (signalId : string) : list Signal :=
  filter (fun s => negb (id s =? signalId)%string) customSignals.

(** [Array.prototype.findIndex], -1 when no element satisfies the
    predicate, and [filter] with the index of the element. *)
Fixpoint findIndex_from {A : Type} (p : A -> bool) (l : list A) (i : Z) : Z :=
  match l with
  | [] => (-1)%Z
  | x :: r => if p x then i else findIndex_from p r (i + 1)%Z
  end.

Definition findIndex {A : Type} (p : A -> bool) (l : list A) : Z :=
  findIndex_from p l 0%Z.

Fixpoint filter_indexed {A : Type} (p : A -> Z -> bool) (l : list A) (i : Z)
  : list A :=
  match l with
  | [] => []
  | x :: r =>
      if p x i then x :: filter_indexed p r (i + 1)%Z
      else filter_indexed p r (i + 1)%Z
  end.

(** The list [unique] of [handleImport], from the custom signals and the
    imported ones. *)
Definition import_unique (customSignals imported : list Signal)
  : list Signal :=
  let merged := (customSignals ++ imported)%list in
  filter_indexed
    (fun s i => (findIndex (fun x => (id x =? id s)%string) merged =? i)%Z)
    merged 0%Z.

(** The dialog that adds a signal, [AddSignalDialog]. *)
Record FormState := {
  f_title : string;
  f_description : string;
  f_signalType : SignalType;
  f_impactLevel : ImpactLevel;
  f_startDate : string;
  f_endDate : string;
  f_notes : string
}.

(** What [handleSubmit] does: nothing, an alert, an exception (of
    [toISOString], on an Invalid Date), or the call of [onAdd]. *)
Inductive SubmitOutcome :=
| Ignored
| Alerted (message : string)
| Threw
| Added (signal : Signal).

Section Dialog.

Variable rt : Runtime.
(** [String.prototype.trim]. *)
Variable trim : string -> string.
(** [Date.now()], the base-36 digits taken from [Math.random()], and the
    clock read for [lastUpdated]. *)
Variable id_time : Z.
Variable random_digits : string.
Variable update_time : Z.

Definition handleSubmit (form : FormState) : SubmitOutcome :=
  if (trim (f_title form) =? "")%string then Ignored
  else
    let start' := parseDate rt (f_startDate form) in
    let end' := parseDate rt (f_endDate form) in
    if date_le end' start' then Alerted "End time must be after start time."
    else
      match start', end' with
      | Some _, Some _ =>
          Added
            {| id := "custom-" ++ numberToString id_time ++ "-"
                     ++ random_digits;
               signalType := f_signalType form;
               title := trim (f_title form);
               description := str_or (trim (f_description form))
                                     (trim (f_title form));
               timeRange := {| start := toISOString start';
                               end_ := toISOString end' |};
               source := {| label := "Custom (Org-added)";
                            kind := partnerProvided;
                            lastUpdated :=
                              Some (toISOString (Some update_time)) |};
               impactLevel := f_impactLevel form;
               confidenceLevel := high;
               interpretationNotes :=
                 str_or (trim (f_notes form))
                        "Custom item added by organization.";
               areaContext := Some "Koreatown Area";
               isCustom := Some true |}
      | _, _ => Threw
      end.

End Dialog.

(** ** Auxiliary definitions for the further properties *)

(** Rank of a status, from safer to avoid. *)
Definition status_rank (st : WindowStatus) : Z :=
  match st with
  | safer => 0
  | caution => 1
  | avoid => 2
  end.

(** A signal with valid bounds, the start before the end. *)
Definition well_formed (s : Signal) : Prop :=
  exists a b,
    timeRange s = {| start := Some a; end_ := Some b |} /\ (a < b)%Z.

(** The start of a window as an integer, 0 for an invalid date. *)
Definition start_ms (w : OutreachWindow) : Z :=
  match w_start w with
  | Some t => t
  | None => 0%Z
  end.

(** A window qualifies for [findNextSaferWindow]. *)
Definition future_safer (fromTime : Date) (w : OutreachWindow) : bool :=
  date_ge (w_start w) fromTime && status_eqb (status w) safer.

(** A window holds an instant: the test of [currentWindow]. *)
Definition holds_instant (w : OutreachWindow) (t : Z) : bool :=
  date_ge (Some t) (w_start w) && date_lt (Some t) (w_end w).

(** [l] is [l'] with some elements left out. *)
Inductive subseq {A : Type} : list A -> list A -> Prop :=
| subseq_nil l' : subseq [] l'
| subseq_skip x l l' : subseq l l' -> subseq l (x :: l')
| subseq_keep x l l' : subseq l l' -> subseq (x :: l) (x :: l').

(** The signal types, in the order of the declaration. *)
Definition all_signalTypes : list SignalType :=
  [sanitation; publicEvent; shelterHours; transitDisruption;
   serviceBottleneck; infrastructureWork; megaEvent; custom].

(** The first of the windows of a list whose start is the least. *)
Fixpoint first_min (l : list OutreachWindow) : option OutreachWindow :=
  match l with
  | [] => None
  | x :: r =>
      match first_min r with
      | None => Some x
      | Some m => if (start_ms x - start_ms m >? 0)%Z then Some m else Some x
      end
  end.

(** The elements of [l] whose identifier is neither that of an element
    of [seen] nor that of an earlier element of [l]. *)
Fixpoint keep_first (seen l : list Signal) : list Signal :=
  match l with
  | [] => []
  | x :: r =>
      if existsb (fun y => (id y =? id x)%string) seen
      then keep_first (seen ++ [x]) r
      else x :: keep_first (seen ++ [x]) r
  end.

(** A response that holds the given windows and nothing else. *)
Definition response_of (windows : list OutreachWindow)
  : SignalsApiResponse :=
  {| r_signals := [];
     r_overlaps := [];
     r_windows := windows;
     meta := {| queryRange := {| start := None; end_ := None |};
                scenarioMode := false;
                generatedAt := None;
                disclaimer := "" |} |}.

Definition ex_form : FormState :=
  {| f_title := "Team shift";
     f_description := "";
     f_signalType := custom;
     f_impactLevel := low;
     f_startDate := "1970-01-01T00:00:00.000Z";
     f_endDate := "1970-01-02T00:00:00.000Z";
     f_notes := "" |}.

(** ** The loop of [computeWindows] *)

Lemma loop_done fuel sigs re d cs idx acc :
  date_lt cs re = false ->
  computeWindows_loop fuel sigs re d cs idx acc = Some acc.
Proof.
  intros H. destruct fuel; simpl; rewrite H; reflexivity.
Qed.

Lemma loop_step fuel sigs re d cs idx acc :
  (cs < re)%Z ->
  computeWindows_loop (S fuel) sigs (Some re) d (Some cs) idx acc =
  computeWindows_loop fuel sigs (Some re) d (Some (Z.min (cs + d) re))
    (idx + 1) (acc ++ [window_at sigs idx cs (Z.min (cs + d) re)]).
Proof.
  intros H. simpl. apply Z.ltb_lt in H. rewrite H. reflexivity.
Qed.

Lemma loop_tiling fuel sigs re d :
  forall cs idx acc ws,
    computeWindows_loop fuel sigs (Some re) d (Some cs) idx acc = Some ws ->
    exists tl, ws = (acc ++ tl)%list /\ tiling sigs d re cs idx tl.
Proof.
  induction fuel as [|fuel IH]; intros cs idx acc ws H.
  - simpl in H. destruct (cs <? re)%Z eqn:E; [discriminate|].
    injection H as <-. exists []. rewrite app_nil_r. split; [reflexivity|].
    constructor. apply Z.ltb_ge in E. exact E.
  - destruct (Z.lt_ge_cases cs re) as [Hlt|Hge].
    + rewrite loop_step in H by exact Hlt.
      apply IH in H. destruct H as [tl [-> Ht]].
      exists (window_at sigs idx cs (Z.min (cs + d) re) :: tl).
      split; [rewrite <- app_assoc; reflexivity|].
      constructor; assumption.
    + rewrite loop_done in H by (simpl; apply Z.ltb_ge; exact Hge).
      injection H as <-. exists []. rewrite app_nil_r. split; [reflexivity|].
      constructor. exact Hge.
Qed.

Lemma loop_total fuel sigs re d :
  (0 < d)%Z ->
  forall cs idx acc,
    (re - cs <= d * Z.of_nat fuel)%Z ->
    exists ws,
      computeWindows_loop fuel sigs (Some re) d (Some cs) idx acc = Some ws.
Proof.
  intros Hd. induction fuel as [|fuel IH]; intros cs idx acc Hb.
  - exists acc. apply loop_done. simpl. apply Z.ltb_ge. lia.
  - destruct (Z.lt_ge_cases cs re) as [Hlt|Hge].
    + rewrite loop_step by exact Hlt. apply IH. lia.
    + exists acc. apply loop_done. simpl. apply Z.ltb_ge. exact Hge.
Qed.

Lemma loop_diverges fuel sigs re d :
  (d <= 0)%Z ->
  forall cs idx acc,
    (cs < re)%Z ->
    computeWindows_loop fuel sigs (Some re) d (Some cs) idx acc = None.
Proof.
  intros Hd. induction fuel as [|fuel IH]; intros cs idx acc Hlt.
  - simpl. apply Z.ltb_lt in Hlt. rewrite Hlt. reflexivity.
  - rewrite loop_step by exact Hlt. apply IH. lia.
Qed.

(** More fuel does not change the outcome of a loop that came to its
    end. *)
Lemma loop_fuel_mono fuel sigs re d :
  forall cs idx acc ws k,
    computeWindows_loop fuel sigs re d cs idx acc = Some ws ->
    computeWindows_loop (fuel + k) sigs re d cs idx acc = Some ws.
Proof.
  induction fuel as [|fuel IH]; intros cs idx acc ws k H.
  - simpl in H. destruct (date_lt cs re) eqn:E; [discriminate|].
    rewrite loop_done by exact E. exact H.
  - simpl in H. simpl. destruct (date_lt cs re); [|exact H].
    apply IH. exact H.
Qed.

Lemma iterations_enough a b d :
  (0 < d)%Z -> (b - a <= d * Z.of_nat (iterations (Some a) (Some b) d))%Z.
Proof.
  intros Hd. unfold iterations.
  destruct (Z.lt_ge_cases (b - a) 0) as [Hn|Hp].
  - assert (0 <= Z.of_nat (Z.to_nat ((b - a) / d + 1)))%Z by lia. nia.
  - assert (0 <= (b - a) / d)%Z by (apply Z.div_pos; lia).
    rewrite Z2Nat.id by lia.
    pose proof (Z.mul_succ_div_gt (b - a) d Hd). lia.
Qed.

(** With a positive duration [computeWindows] returns. *)
Lemma computeWindows_total sigs rs re d :
  (0 < d)%Z -> exists ws, computeWindows sigs rs re d = Some ws.
Proof.
  intros Hd. unfold computeWindows, newDate, getTime.
  destruct rs as [a|]; [destruct re as [b|]|].
  - apply loop_total; [exact Hd|]. apply iterations_enough. exact Hd.
  - exists []. apply loop_done. reflexivity.
  - exists []. apply loop_done. reflexivity.
Qed.

(** With an empty range, or an invalid bound, the result is empty. *)
Lemma computeWindows_empty sigs rs re d :
  date_lt rs re = false -> computeWindows sigs rs re d = Some [].
Proof.
  intros H. unfold computeWindows. apply loop_done. exact H.
Qed.

(** With a duration that is not positive the loop has no end on a
    range that is not empty, whatever the number of iterations. *)
Lemma computeWindows_diverges sigs rs re d fuel :
  (d <= 0)%Z -> (rs < re)%Z ->
  computeWindows_loop fuel sigs (Some re) d (Some rs) 0 [] = None /\
  computeWindows sigs (Some rs) (Some re) d = None.
Proof.
  intros Hd Hlt. split; [|unfold computeWindows, newDate, getTime];
    apply loop_diverges; assumption.
Qed.

Lemma computeWindows_valid_tiling sigs a b d ws :
  computeWindows sigs (Some a) (Some b) d = Some ws ->
  tiling sigs d b a 0 ws.
Proof.
  unfold computeWindows, newDate, getTime. intros H.
  apply loop_tiling in H. destruct H as [tl [-> Ht]]. exact Ht.
Qed.

Lemma computeWindows_tiling sigs rs re d ws :
  computeWindows sigs rs re d = Some ws ->
  ws = [] \/
  exists a b, rs = Some a /\ re = Some b /\ tiling sigs d b a 0 ws.
Proof.
  intros H. destruct (date_lt rs re) eqn:E.
  - destruct rs as [a|]; [|discriminate]. destruct re as [b|]; [|discriminate].
    right. exists a, b. split; [reflexivity|]. split; [reflexivity|].
    apply computeWindows_valid_tiling. exact H.
  - left. rewrite computeWindows_empty in H by exact E.
    injection H as <-. reflexivity.
Qed.

(** A tiling that is not empty has a positive duration. *)
Lemma tiling_positive sigs d re cs idx ws :
  tiling sigs d re cs idx ws -> ws <> [] -> (0 < d)%Z.
Proof.
  induction 1 as [cs idx Hge|cs idx ws Hlt Ht IH]; intros Hne.
  - contradiction.
  - destruct ws as [|w ws'].
    + inversion Ht; subst. lia.
    + apply IH. discriminate.
Qed.

(** Every window of a tiling is the window of an iteration. *)
Lemma tiling_windows sigs d re cs idx ws :
  tiling sigs d re cs idx ws ->
  Forall (fun w => exists i s,
            (cs <= s < re)%Z /\ (0 < d)%Z /\
            w = window_at sigs i s (Z.min (s + d) re)) ws.
Proof.
  intros Ht. pose proof (tiling_positive _ _ _ _ _ _ Ht) as Hpos.
  induction Ht as [cs idx Hge|cs idx ws Hlt Ht IH].
  - constructor.
  - assert (Hd : (0 < d)%Z) by (apply Hpos; discriminate).
    constructor.
    + exists idx, cs. repeat split; try lia.
    + eapply Forall_impl; [|apply IH; intros _; exact Hd].
      intros w [i [s [Hs [_ ->]]]]. exists i, s. repeat split; try lia.
Qed.

(** Every window [computeWindows] returns is the window of an
    iteration over a range that is not empty. *)
Lemma computeWindows_windows sigs rs re d ws w :
  computeWindows sigs rs re d = Some ws -> In w ws ->
  exists i s b,
    re = Some b /\ (s < b)%Z /\ (0 < d)%Z /\
    w = window_at sigs i s (Z.min (s + d) b).
Proof.
  intros H Hin. apply computeWindows_tiling in H.
  destruct H as [->|[a [b [-> [-> Ht]]]]]; [contradiction|].
  apply tiling_windows in Ht. rewrite Forall_forall in Ht.
  destruct (Ht w Hin) as [i [s [Hs [Hd ->]]]].
  exists i, s, b. repeat split; try lia.
Qed.

(** Replaces a returned window by the window of its iteration. *)
Ltac returned_window H Hin :=
  let i := fresh "i" in
  let s := fresh "s" in
  let b := fresh "b" in
  destruct (computeWindows_windows _ _ _ _ _ _ H Hin)
    as [i [s [b [_ [_ [_ ->]]]]]].

(** The dates that [computeWindows] converts with [toISOString] are
    valid. *)
Lemma computeWindows_dates_valid sigs rs re d ws w :
  computeWindows sigs rs re d = Some ws -> In w ws ->
  exists a b, w_timeRange w = {| start := Some a; end_ := Some b |}.
Proof.
  intros H Hin. returned_window H Hin. do 2 eexists. reflexivity.
Qed.

(** ** Scores *)

Lemma computeSignalScore_nonneg s : (0 <= computeSignalScore s)%Q.
Proof.
  unfold computeSignalScore.
  destruct (impactLevel s), (confidenceLevel s); vm_compute; discriminate.
Qed.

(** Every signal score is a whole number of halves, at most 50. *)
Lemma computeSignalScore_halves s :
  exists k : Z, (0 < k <= 100)%Z /\ (computeSignalScore s == k # 2)%Q.
Proof.
  unfold computeSignalScore.
  destruct (impactLevel s), (confidenceLevel s); simpl.
  - exists 10%Z. split; [lia|reflexivity].
  - exists 15%Z. split; [lia|reflexivity].
  - exists 20%Z. split; [lia|reflexivity].
  - exists 30%Z. split; [lia|reflexivity].
  - exists 45%Z. split; [lia|reflexivity].
  - exists 60%Z. split; [lia|reflexivity].
  - exists 50%Z. split; [lia|reflexivity].
  - exists 75%Z. split; [lia|reflexivity].
  - exists 100%Z. split; [lia|reflexivity].
Qed.

Lemma weighted_sum_nonneg l : (0 <= weighted_sum l)%Q.
Proof.
  induction l as [|s l IH]; simpl.
  - apply Qle_refl.
  - pose proof (computeSignalScore_nonneg s) as H.
    unfold computeSignalScore in H. simpl in H.
    replace 0%Q with (0 + 0)%Q by reflexivity.
    apply Qplus_le_compat; assumption.
Qed.

(** The accumulation of [reduce] is the weighted sum. *)
Lemma reduce_weighted_sum l :
  forall a,
    (fold_left (fun sum signal => sum + computeSignalScore signal) l a
     == a + weighted_sum l)%Q.
Proof.
  induction l as [|s l IH]; intros a; simpl.
  - rewrite Qplus_0_r. reflexivity.
  - rewrite IH. unfold computeSignalScore. simpl.
    rewrite Qplus_assoc. reflexivity.
Qed.

Lemma window_at_score sigs i cs ce :
  (score (window_at sigs i cs ce)
   == Qmin 100 (weighted_sum (findOverlaps sigs (Some cs) (Some ce))))%Q.
Proof.
  unfold window_at. simpl. rewrite reduce_weighted_sum, Qplus_0_l.
  reflexivity.
Qed.

Lemma window_at_overlaps sigs i cs ce :
  filter (overlaps_window (window_at sigs i cs ce)) sigs =
  findOverlaps sigs (Some cs) (Some ce).
Proof.
  unfold findOverlaps. apply filter_ext. intros s.
  unfold overlaps_window, date_gt. reflexivity.
Qed.

Lemma getStatusFromScore_spec q :
  (getStatusFromScore q = safer <-> (q <= 20)%Q) /\
  (getStatusFromScore q = caution <-> (20 < q)%Q /\ (q <= 50)%Q) /\
  (getStatusFromScore q = avoid <-> (50 < q)%Q).
Proof.
  unfold getStatusFromScore. simpl.
  destruct (Qle_bool q 20) eqn:E1.
  - apply Qle_bool_iff in E1.
    repeat split; intros; try discriminate; try assumption; exfalso; lra.
  - assert (H1 : (20 < q)%Q).
    { apply Qnot_le_lt. intros H. apply Qle_bool_iff in H. congruence. }
    destruct (Qle_bool q 50) eqn:E2.
    + apply Qle_bool_iff in E2.
      repeat split; intros; try discriminate; try assumption; exfalso; lra.
    + assert (H2 : (50 < q)%Q).
      { apply Qnot_le_lt. intros H. apply Qle_bool_iff in H. congruence. }
      repeat split; intros; try discriminate; try assumption; exfalso; lra.
Qed.

(** C1.  Whenever the duration is a positive whole number of
    milliseconds [computeWindows] returns, and the score of every window it returns is the minimum of 100 and the
    sum, over the signals that overlap the window, of the impact weight
    times the confidence multiplier; the weights are 10, 30 and 50 and
    the multipliers 0.5, 0.75 and 1.0. *)
Theorem score_is_capped_weighted_sum sigs rs re d :
  ((0 < d)%Z -> exists ws, computeWindows sigs rs re d = Some ws) /\
  (forall ws w,
      computeWindows sigs rs re d = Some ws -> In w ws ->
      (score w
       == Qmin 100 (weighted_sum (filter (overlaps_window w) sigs)))%Q) /\
  (IMPACT_WEIGHTS low == 10 /\ IMPACT_WEIGHTS medium == 30 /\
   IMPACT_WEIGHTS high == 50)%Q /\
  (CONFIDENCE_MULTIPLIERS low == 1 # 2 /\
   CONFIDENCE_MULTIPLIERS medium == 3 # 4 /\
   CONFIDENCE_MULTIPLIERS high == 1)%Q.
Proof.
  split; [apply computeWindows_total|]. split.
  - intros ws w H Hin.
    returned_window H Hin.
    rewrite window_at_overlaps. apply window_at_score.
  - repeat split; reflexivity.
Qed.

Lemma score_is_capped_weighted_sum_witness :
  (score (window_at example_signals 0 0 4)
   == Qmin 100
        (weighted_sum
           (filter (overlaps_window (window_at example_signals 0 0 4))
                   example_signals)))%Q.
Proof.
  destruct (score_is_capped_weighted_sum example_signals
              (Some 0%Z) (Some 10%Z) 4) as [_ [Hs _]].
  apply (Hs example_windows); [reflexivity|left; reflexivity].
Defined.

(** C2.  Whenever the duration is a positive whole number of
    milliseconds [computeWindows] returns, and the score of every window it returns, for any signals, range and
    duration, lies between 0 and 100. *)
Theorem score_between_0_and_100 sigs rs re d :
  ((0 < d)%Z -> exists ws, computeWindows sigs rs re d = Some ws) /\
  (forall ws w,
      computeWindows sigs rs re d = Some ws -> In w ws ->
      (0 <= score w /\ score w <= 100)%Q).
Proof.
  split; [apply computeWindows_total|].
  intros ws w H Hin. returned_window H Hin.
  rewrite window_at_score. split.
  - apply Q.min_glb; [discriminate|apply weighted_sum_nonneg].
  - apply Q.le_min_l.
Qed.

Lemma score_between_0_and_100_witness :
  (0 <= score (window_at example_signals 0 0 4)
   /\ score (window_at example_signals 0 0 4) <= 100)%Q.
Proof.
  destruct (score_between_0_and_100 example_signals
              (Some 0%Z) (Some 10%Z) 4) as [_ Hs].
  apply (Hs example_windows); [reflexivity|left; reflexivity].
Defined.

(** C3.  Every window [computeWindows] returns has the status fixed by
    the thresholds on its score: safer exactly when the score is at most
    20, caution exactly when it is above 20 and at most 50, avoid
    exactly when it is above 50. *)
Theorem status_by_thresholds sigs rs re d :
  ((0 < d)%Z -> exists ws, computeWindows sigs rs re d = Some ws) /\
  (forall ws w,
      computeWindows sigs rs re d = Some ws -> In w ws ->
      (status w = safer <-> (score w <= 20)%Q) /\
      (status w = caution <-> (20 < score w)%Q /\ (score w <= 50)%Q) /\
      (status w = avoid <-> (50 < score w)%Q)).
Proof.
  split; [apply computeWindows_total|].
  intros ws w H Hin. returned_window H Hin.
  apply getStatusFromScore_spec.
Qed.

Lemma status_by_thresholds_witness :
  (status (window_at example_signals 1 4 8) = safer
   <-> (score (window_at example_signals 1 4 8) <= 20)%Q) /\
  (status (window_at example_signals 1 4 8) = caution
   <-> (20 < score (window_at example_signals 1 4 8))%Q
       /\ (score (window_at example_signals 1 4 8) <= 50)%Q) /\
  (status (window_at example_signals 1 4 8) = avoid
   <-> (50 < score (window_at example_signals 1 4 8))%Q).
Proof.
  destruct (status_by_thresholds example_signals
              (Some 0%Z) (Some 10%Z) 4) as [_ Hs].
  apply (Hs example_windows); [reflexivity|right; left; reflexivity].
Defined.

(** ** The shape of the list of windows *)

(** The window at position [i] of a tiling, in closed form. *)
Lemma tiling_nth sigs d re cs idx ws :
  tiling sigs d re cs idx ws ->
  forall i w,
    nth_error ws i = Some w ->
    (0 < d)%Z /\
    (cs + d * Z.of_nat i < re)%Z /\
    w = window_at sigs (idx + Z.of_nat i) (cs + d * Z.of_nat i)
          (Z.min (cs + d * (Z.of_nat i + 1)) re).
Proof.
  intros Ht. pose proof (tiling_positive _ _ _ _ _ _ Ht) as Hpos.
  induction Ht as [cs idx Hge|cs idx ws Hlt Ht IH]; intros i w Hi.
  - destruct i; discriminate.
  - assert (Hd : (0 < d)%Z) by (apply Hpos; discriminate).
    destruct i as [|i].
    + injection Hi as <-. simpl Z.of_nat.
      replace (cs + d * 0)%Z with cs by lia.
      replace (cs + d * (0 + 1))%Z with (cs + d)%Z by lia.
      replace (idx + 0)%Z with idx by lia.
      repeat split; try assumption.
    + simpl in Hi. destruct (IH (fun _ => Hd) i w Hi) as [_ [Hb ->]].
      assert (Hm : Z.min (cs + d) re = (cs + d)%Z) by nia.
      rewrite Hm in *.
      replace (cs + d + d * Z.of_nat i)%Z
        with (cs + d * Z.of_nat (S i))%Z in * by lia.
      replace (cs + d * Z.of_nat (S i) + d)%Z
        with (cs + d * (Z.of_nat (S i) + 1))%Z by lia.
      replace (cs + d + d * (Z.of_nat i + 1))%Z
        with (cs + d * (Z.of_nat (S i) + 1))%Z by lia.
      replace (idx + 1 + Z.of_nat i)%Z with (idx + Z.of_nat (S i))%Z by lia.
      repeat split; try assumption.
Qed.

(** The last window of a tiling ends at the end of the range. *)
Lemma tiling_last sigs d re cs idx ws :
  tiling sigs d re cs idx ws ->
  forall w, nth_error ws (List.length ws - 1) = Some w -> w_end w = Some re.
Proof.
  induction 1 as [cs idx Hge|cs idx ws Hlt Ht IH]; intros w Hw.
  - discriminate.
  - destruct ws as [|w' ws'].
    + simpl in Hw. injection Hw as <-. inversion Ht; subst.
      unfold w_end. simpl. f_equal. lia.
    + apply IH. simpl in Hw. simpl.
      rewrite Nat.sub_0_r in *. exact Hw.
Qed.

(** A range that is not empty gives at least one window. *)
Lemma tiling_nonempty sigs d re cs idx ws :
  tiling sigs d re cs idx ws -> (cs < re)%Z -> ws <> [].
Proof.
  intros Ht Hlt. inversion Ht; subst; [lia|discriminate].
Qed.

(** The number of windows: the range length over the duration, rounded
    up. *)
Lemma tiling_length sigs d re cs idx ws :
  tiling sigs d re cs idx ws -> (0 < d)%Z -> (cs <= re)%Z ->
  Z.of_nat (List.length ws) = ((re - cs + d - 1) / d)%Z.
Proof.
  intros Ht Hd. induction Ht as [cs idx Hge|cs idx ws Hlt Ht IH]; intros Hle.
  - simpl. symmetry. apply Z.div_small. lia.
  - simpl List.length. rewrite Nat2Z.inj_succ, IH by lia.
    destruct (Z.le_gt_cases (cs + d) re) as [H1|H1].
    + rewrite Z.min_l by lia.
      replace (re - cs + d - 1)%Z with ((re - (cs + d) + d - 1) + 1 * d)%Z
        by lia.
      rewrite Z.div_add by lia. lia.
    + rewrite Z.min_r by lia.
      replace (re - re + d - 1)%Z with (d - 1)%Z by lia.
      rewrite Z.div_small by lia.
      replace (re - cs + d - 1)%Z with ((re - cs - 1) + 1 * d)%Z by lia.
      rewrite Z.div_add by lia. rewrite Z.div_small by lia. lia.
Qed.

Lemma computeWindows_nth sigs rs re d ws i w :
  computeWindows sigs rs re d = Some ws ->
  nth_error ws i = Some w ->
  exists a b,
    rs = Some a /\ re = Some b /\ tiling sigs d b a 0 ws /\
    (0 < d)%Z /\ (a + d * Z.of_nat i < b)%Z /\
    w = window_at sigs (Z.of_nat i) (a + d * Z.of_nat i)
          (Z.min (a + d * (Z.of_nat i + 1)) b).
Proof.
  intros H Hi. apply computeWindows_tiling in H.
  destruct H as [->|[a [b [-> [-> Ht]]]]]; [destruct i; discriminate|].
  exists a, b. destruct (tiling_nth _ _ _ _ _ _ Ht i w Hi) as [Hd [Hb Hw]].
  repeat split; assumption.
Qed.

Lemma window_at_bounds sigs i cs ce :
  w_start (window_at sigs i cs ce) = Some cs /\
  w_end (window_at sigs i cs ce) = Some ce /\
  w_length (window_at sigs i cs ce) = Some (ce - cs)%Z.
Proof. repeat split. Qed.

(** Length of the window at position [i]: the duration, except for the
    last window, which stops at the end of the range. *)
Lemma computeWindows_length sigs rs re d ws i w :
  computeWindows sigs rs re d = Some ws ->
  nth_error ws i = Some w ->
  exists len,
    w_length w = Some len /\ (0 < len <= d)%Z /\
    (S i < List.length ws -> len = d)%nat.
Proof.
  intros H Hi.
  destruct (computeWindows_nth _ _ _ _ _ _ _ H Hi)
    as [a [b [-> [-> [Ht [Hd [Hb ->]]]]]]].
  eexists. split; [apply window_at_bounds|]. split; [lia|].
  intros Hlt. destruct (nth_error ws (S i)) as [w'|] eqn:E.
  - destruct (tiling_nth _ _ _ _ _ _ Ht (S i) w' E) as [_ [Hb' _]]. lia.
  - apply nth_error_None in E. lia.
Qed.

(** C8, amended.  On a range that is not empty and with a duration that
    is a positive whole number of milliseconds the windows tile the range in order: there is a first window, it starts
    at the start of the range; every next window starts where the one
    before it ends; every window is a non-empty interval and a window
    ends no later than any later window starts; the last window ends at
    the end of the range and is cut short when the duration does not
    divide the range length.  On an empty range the result is the empty
    list. *)
Theorem windows_tile_range sigs d :
  (forall rs re,
      (rs < re)%Z -> (0 < d)%Z ->
      exists ws,
        computeWindows sigs (Some rs) (Some re) d = Some ws /\
        (exists w0, nth_error ws 0 = Some w0 /\ w_start w0 = Some rs) /\
        (forall i w w',
            nth_error ws i = Some w -> nth_error ws (S i) = Some w' ->
            w_start w' = w_end w) /\
        (forall i w,
            nth_error ws i = Some w ->
            exists a b,
              w_start w = Some a /\ w_end w = Some b /\ (a < b)%Z) /\
        (forall i j wi wj,
            (i < j)%nat ->
            nth_error ws i = Some wi -> nth_error ws j = Some wj ->
            exists b a,
              w_end wi = Some b /\ w_start wj = Some a /\ (b <= a)%Z) /\
        (exists wl,
            nth_error ws (List.length ws - 1) = Some wl /\
            w_end wl = Some re /\
            w_length wl =
              Some (if ((re - rs) mod d =? 0)%Z then d
                    else ((re - rs) mod d)%Z))) /\
  (forall rs re,
      date_ge rs re = true -> computeWindows sigs rs re d = Some []).
Proof.
  split.
  - intros rs re Hlt Hd.
    destruct (computeWindows_total sigs (Some rs) (Some re) d Hd) as [ws H].
    exists ws. split; [exact H|].
    assert (Hnth : forall i w, nth_error ws i = Some w ->
              (rs + d * Z.of_nat i < re)%Z /\
              w = window_at sigs (Z.of_nat i) (rs + d * Z.of_nat i)
                    (Z.min (rs + d * (Z.of_nat i + 1)) re)).
    { intros i w Hi.
      destruct (computeWindows_nth _ _ _ _ _ _ _ H Hi)
        as [a [b [Ea [Eb [_ [_ [Hb Hw]]]]]]].
      injection Ea as <-. injection Eb as <-. split; assumption. }
    assert (Ht : tiling sigs d re rs 0 ws)
      by (apply computeWindows_valid_tiling; exact H).
    assert (Hne : ws <> []) by (eapply tiling_nonempty; eassumption).
    assert (Hlast : exists wl, nth_error ws (List.length ws - 1) = Some wl).
    { destruct (nth_error ws (List.length ws - 1)) as [wl|] eqn:E.
      - exists wl. reflexivity.
      - apply nth_error_None in E. destruct ws; [contradiction|].
        simpl in E. lia. }
    repeat split.
    + destruct ws as [|w0 ws']; [contradiction|].
      exists w0. split; [reflexivity|].
      destruct (Hnth 0%nat w0 eq_refl) as [_ ->]. simpl.
      unfold w_start. simpl. f_equal. lia.
    + intros i w w' Hi Hi'.
      destruct (Hnth _ _ Hi) as [_ ->]. destruct (Hnth _ _ Hi') as [Hb ->].
      unfold w_start, w_end. simpl. f_equal. lia.
    + intros i w Hi. destruct (Hnth _ _ Hi) as [Hb ->].
      do 2 eexists. split; [reflexivity|]. split; [reflexivity|]. lia.
    + intros i j wi wj Hij Hi Hj.
      destruct (Hnth _ _ Hi) as [_ ->]. destruct (Hnth _ _ Hj) as [Hb ->].
      do 2 eexists. split; [reflexivity|]. split; [reflexivity|]. nia.
    + destruct Hlast as [wl Hl]. exists wl. split; [exact Hl|].
      pose proof (tiling_last _ _ _ _ _ _ Ht wl Hl) as He.
      split; [exact He|].
      destruct (Hnth _ _ Hl) as [Hb ->].
      unfold w_end in He. simpl in He. injection He as He.
      unfold w_length, w_start, w_end. simpl. rewrite He. f_equal.
      set (k := Z.of_nat (List.length ws - 1)) in *.
      assert (Hmod : ((re - rs) mod d
                      = (re - (rs + d * k)) mod d)%Z).
      { replace (re - rs)%Z with ((re - (rs + d * k)) + k * d)%Z by lia.
        apply Z_mod_plus_full. }
      rewrite Hmod.
      destruct (Z.eq_dec (re - (rs + d * k)) d) as [E|E].
      * rewrite E, Z_mod_same_full. reflexivity.
      * rewrite Z.mod_small by lia.
        destruct (Z.eqb_spec (re - (rs + d * k)) 0); [lia|reflexivity].
  - intros rs re Hge. apply computeWindows_empty.
    destruct rs as [a|], re as [b|]; try reflexivity.
    unfold date_ge, date_le in Hge. simpl. apply Z.leb_le in Hge.
    apply Z.ltb_ge. exact Hge.
Qed.

Lemma windows_tile_range_witness :
  exists ws,
    computeWindows example_signals (Some 0%Z) (Some 10%Z) 4 = Some ws /\
    (exists wl,
        nth_error ws (List.length ws - 1) = Some wl /\
        w_end wl = Some 10%Z /\ w_length wl = Some 2%Z) /\
    computeWindows example_signals (Some 10%Z) (Some 10%Z) 4 = Some [].
Proof.
  destruct (windows_tile_range example_signals 4) as [Ht He].
  destruct (Ht 0%Z 10%Z ltac:(lia) ltac:(lia))
    as [ws [Hws [_ [_ [_ [_ Hl]]]]]].
  exists ws. split; [exact Hws|]. split; [exact Hl|].
  apply He. reflexivity.
Defined.

(** ** Window lengths *)

(** C5, as stated, fails: on the range from 0 to 3 with duration 2 the
    second window has length 1. *)
Lemma fixed_length_fails :
  exists ws w,
    computeWindows [] (Some 0%Z) (Some 3%Z) 2 = Some ws /\
    In w ws /\ w_length w = Some 1%Z /\ w_length w <> Some 2%Z.
Proof.
  exists [window_at [] 0 0 2; window_at [] 1 2 3], (window_at [] 1 2 3).
  split; [reflexivity|]. split; [right; left; reflexivity|].
  split; [reflexivity|discriminate].
Qed.

(** C5, amended.  Whenever the duration is a positive whole number of
    milliseconds [computeWindows] returns; every window it returns is at most as long as the duration
    and not empty, and every window but the last is exactly as long as
    the duration.  The default duration is two hours. *)
Theorem window_lengths sigs rs re d :
  ((0 < d)%Z -> exists ws, computeWindows sigs rs re d = Some ws) /\
  (forall ws i w,
      computeWindows sigs rs re d = Some ws ->
      nth_error ws i = Some w ->
      exists len,
        w_length w = Some len /\ (0 < len <= d)%Z /\
        (S i < List.length ws -> len = d)%nat) /\
  computeWindows_default sigs rs re =
    computeWindows sigs rs re (2 * 3600 * 1000)%Z.
Proof.
  split; [apply computeWindows_total|]. split; [|reflexivity].
  intros ws i w H Hi. eapply computeWindows_length; eassumption.
Qed.

Lemma window_lengths_witness :
  w_length (window_at example_signals 0 0 4) = Some 4%Z /\
  exists len,
    w_length (window_at example_signals 2 8 10) = Some len /\
    (0 < len <= 4)%Z.
Proof.
  destruct (window_lengths example_signals (Some 0%Z) (Some 10%Z) 4)
    as [_ [Hl _]].
  split.
  - destruct (Hl example_windows 0%nat (window_at example_signals 0 0 4)
                eq_refl eq_refl) as [len [E [_ Hd]]].
    rewrite E. f_equal. apply Hd. simpl. lia.
  - destruct (Hl example_windows 2%nat (window_at example_signals 2 8 10)
                eq_refl eq_refl) as [len [E [Hb _]]].
    exists len. split; assumption.
Defined.

(** ** Annotations *)

Lemma filter_impact_length l sigs :
  List.length (filter (fun s => level_eqb (impactLevel s) l) sigs)
  = count_impact l sigs.
Proof.
  induction sigs as [|s r IH]; simpl; [reflexivity|].
  destruct (level_eqb (impactLevel s) l); simpl; rewrite IH; reflexivity.
Qed.

Lemma filter_high_titles sigs :
  map title (filter (fun s => level_eqb (impactLevel s) high) sigs)
  = high_titles sigs.
Proof.
  induction sigs as [|s r IH]; simpl; [reflexivity|].
  destruct (level_eqb (impactLevel s) high); simpl; rewrite IH; reflexivity.
Qed.

(** The three counts add up to the number of signals. *)
Lemma count_impact_total sigs :
  List.length sigs
  = (count_impact high sigs + count_impact medium sigs
     + count_impact low sigs)%nat.
Proof.
  induction sigs as [|s r IH]; simpl; [reflexivity|].
  destruct (impactLevel s); simpl; lia.
Qed.

Lemma generateAnnotation_empty st :
  generateAnnotation [] st
  = "No known disruptions during this window. Good opportunity for outreach.".
Proof. reflexivity. Qed.

Lemma generateAnnotation_phrases sigs st :
  sigs <> [] ->
  generateAnnotation sigs st
  = status_prefix st ++ ": " ++ String.concat "; " (count_phrases sigs)
    ++ status_advice st.
Proof.
  intros Hne. unfold generateAnnotation.
  destruct (Z.eqb_spec (Z.of_nat (List.length sigs)) 0) as [E|_].
  { destruct sigs; [contradiction|discriminate]. }
  rewrite !filter_impact_length, filter_high_titles.
  replace (Z.of_nat (List.length sigs) - Z.of_nat (count_impact high sigs)
           - Z.of_nat (count_impact medium sigs))%Z
    with (Z.of_nat (count_impact low sigs))
    by (rewrite (count_impact_total sigs); lia).
  unfold count_phrases, push.
  assert (Hgt : forall n, (Z.of_nat n >? 0)%Z = (0 <? n)%nat).
  { intros n. destruct n; reflexivity. }
  rewrite !Hgt.
  destruct (0 <? count_impact high sigs)%nat,
           (0 <? count_impact medium sigs)%nat,
           (0 <? count_impact low sigs)%nat, st; reflexivity.
Qed.

(** C6.  Whenever the duration is a positive whole number of
    milliseconds [computeWindows] returns.
    The contributing signals of a returned window are the signals that
    overlap it.  When there is none, the annotation is the fixed
    sentence, the score is 0 and the status is safer.  Otherwise the
    annotation is the prefix of the status, then the phrases that give
    the counts of the high-, medium- and low-impact contributing signals
    (a level without signal has no phrase), then the advice of the
    status. *)
Theorem annotation_by_signals_and_status sigs rs re d :
  ((0 < d)%Z -> exists ws, computeWindows sigs rs re d = Some ws) /\
  (forall ws w,
      computeWindows sigs rs re d = Some ws -> In w ws ->
      contributingSignals w = filter (overlaps_window w) sigs /\
      (contributingSignals w = [] ->
       annotation w
       = "No known disruptions during this window. Good opportunity for outreach."
       /\ (score w == 0)%Q /\ status w = safer) /\
      (contributingSignals w <> [] ->
       annotation w
       = status_prefix (status w) ++ ": "
         ++ String.concat "; " (count_phrases (contributingSignals w))
         ++ status_advice (status w))).
Proof.
  split; [apply computeWindows_total|].
  intros ws w H Hin. returned_window H Hin.
  split; [symmetry; apply window_at_overlaps|]. split.
  - unfold window_at. simpl. intros ->. simpl. repeat split.
  - unfold window_at. simpl. apply generateAnnotation_phrases.
Qed.

Lemma annotation_by_signals_and_status_witness :
  annotation (window_at example_signals 0 0 4)
  = "High disruption: 1 high-impact signal(s): A; 1 medium-impact signal(s); 1 low-impact signal(s). Consider rescheduling if possible."
  /\
  (annotation (window_at [] 0 0 2)
   = "No known disruptions during this window. Good opportunity for outreach."
   /\ (score (window_at [] 0 0 2) == 0)%Q
   /\ status (window_at [] 0 0 2) = safer).
Proof.
  split.
  - destruct (annotation_by_signals_and_status example_signals
                (Some 0%Z) (Some 10%Z) 4) as [_ Hs].
    destruct (Hs example_windows (window_at example_signals 0 0 4)
                eq_refl (or_introl eq_refl)) as [_ [_ Hne]].
    apply Hne. discriminate.
  - destruct (annotation_by_signals_and_status []
                (Some 0%Z) (Some 3%Z) 2) as [_ Hs].
    destruct (Hs [window_at [] 0 0 2; window_at [] 1 2 3]
                (window_at [] 0 0 2) eq_refl (or_introl eq_refl))
      as [_ [He _]].
    apply He. reflexivity.
Defined.

(** ** Boundaries: strict for windows, inclusive for the query range *)

Lemma touching_not_overlapping s a b :
  touches s a b ->
  date_lt (start (timeRange s)) b && date_gt (end_ (timeRange s)) a = false.
Proof.
  unfold date_gt. intros [[t [-> ->]]|[t [-> ->]]].
  - simpl. rewrite Z.ltb_irrefl. apply andb_false_r.
  - simpl. rewrite Z.ltb_irrefl. reflexivity.
Qed.

Lemma findOverlaps_spec sigs a b s :
  In s (findOverlaps sigs a b) <->
  In s sigs /\
  date_lt (start (timeRange s)) b = true /\
  date_gt (end_ (timeRange s)) a = true.
Proof.
  unfold findOverlaps. rewrite filter_In, andb_true_iff. reflexivity.
Qed.

(** A signal that touches the interval can be taken out of the list
    without changing the overlapping signals. *)
Lemma findOverlaps_without_touching sigs1 s sigs2 a b :
  touches s a b ->
  findOverlaps (sigs1 ++ s :: sigs2) a b = findOverlaps (sigs1 ++ sigs2) a b.
Proof.
  intros Ht. unfold findOverlaps. rewrite !filter_app. simpl.
  rewrite (touching_not_overlapping _ _ _ Ht). reflexivity.
Qed.

Lemma window_at_without_touching sigs1 s sigs2 i cs ce :
  touches s (Some cs) (Some ce) ->
  window_at (sigs1 ++ s :: sigs2) i cs ce = window_at (sigs1 ++ sigs2) i cs ce.
Proof.
  intros Ht. unfold window_at.
  rewrite (findOverlaps_without_touching _ _ _ _ _ Ht). reflexivity.
Qed.

Lemma tiling_functional sigs d re cs idx ws1 :
  tiling sigs d re cs idx ws1 ->
  forall ws2, tiling sigs d re cs idx ws2 -> ws1 = ws2.
Proof.
  induction 1 as [cs idx Hge|cs idx ws Hlt Ht IH]; intros ws2 H2.
  - inversion H2; subst; [reflexivity|lia].
  - inversion H2; subst; [lia|]. f_equal. apply IH. assumption.
Qed.

(** The windows for another list of signals: as many, with the same
    bounds. *)
Lemma tiling_other_signals sigs sigs' d re cs idx ws :
  tiling sigs d re cs idx ws ->
  exists ws',
    tiling sigs' d re cs idx ws' /\ List.length ws' = List.length ws.
Proof.
  induction 1 as [cs idx Hge|cs idx ws Hlt Ht [ws' [Ht' Hl]]].
  - exists []. split; [constructor; assumption|reflexivity].
  - exists (window_at sigs' idx cs (Z.min (cs + d) re) :: ws').
    split; [constructor; assumption|simpl; congruence].
Qed.

(** A tiling from the start of the range is what [computeWindows]
    returns. *)
Lemma tiling_computeWindows sigs a b d ws :
  tiling sigs d b a 0 ws -> computeWindows sigs (Some a) (Some b) d = Some ws.
Proof.
  intros Ht. destruct ws as [|w0 ws0].
  - apply computeWindows_empty. inversion Ht; subst.
    simpl. apply Z.ltb_ge. assumption.
  - assert (Hd : (0 < d)%Z)
      by (eapply tiling_positive; [exact Ht|discriminate]).
    destruct (computeWindows_total sigs (Some a) (Some b) d Hd) as [ws2 H2].
    rewrite H2. f_equal. apply computeWindows_valid_tiling in H2.
    eapply tiling_functional; eassumption.
Qed.

(** The result does not depend on the bound on the iterations: a run of
    the loop that comes to its end, with whatever bound, gives what
    [computeWindows] returns. *)
Lemma computeWindows_any_fuel sigs rs re d fuel ws :
  computeWindows_loop fuel sigs re d rs 0 [] = Some ws ->
  computeWindows sigs rs re d = Some ws.
Proof.
  intros H. destruct (date_lt rs re) eqn:E.
  - destruct rs as [a|]; [|discriminate]. destruct re as [b|]; [|discriminate].
    apply loop_tiling in H. destruct H as [tl [-> Ht]].
    apply tiling_computeWindows. exact Ht.
  - rewrite loop_done in H by exact E. injection H as <-.
    apply computeWindows_empty. exact E.
Qed.

Lemma filterSignalsByDateRange_spec sigs a b s :
  In s (filterSignalsByDateRange sigs a b) <->
  In s sigs /\
  date_le (start (timeRange s)) b = true /\
  date_ge (end_ (timeRange s)) a = true.
Proof.
  unfold filterSignalsByDateRange. rewrite filter_In, andb_true_iff.
  reflexivity.
Qed.

(** C9.  A signal that ends exactly where an interval starts, or starts
    exactly where it ends, is not among the signals [findOverlaps]
    returns for the interval.  For a window [computeWindows] returns and
    a signal that touches it: the signal is not among the contributing
    signals, the score is the capped weighted sum of the contributing
    signals, and the call without that signal returns as many windows,
    with the very same window at that position.  [filterSignalsByDateRange]
    keeps the signals that start no later than the end of the query range
    and end no earlier than its start, hence a signal of the list that,
    ending no earlier than it starts, touches the query range. *)
Theorem strict_windows_inclusive_range sigs1 s sigs2 :
  (forall a b,
      touches s a b -> ~ In s (findOverlaps (sigs1 ++ s :: sigs2) a b)) /\
  (forall rs re d ws,
      computeWindows (sigs1 ++ s :: sigs2) rs re d = Some ws ->
      exists ws',
        computeWindows (sigs1 ++ sigs2) rs re d = Some ws' /\
        List.length ws' = List.length ws /\
        forall i w,
          nth_error ws i = Some w ->
          touches s (w_start w) (w_end w) ->
          ~ In s (contributingSignals w) /\
          (score w == Qmin 100 (weighted_sum (contributingSignals w)))%Q /\
          nth_error ws' i = Some w) /\
  (forall a b x,
      In x (filterSignalsByDateRange (sigs1 ++ s :: sigs2) a b) <->
      In x (sigs1 ++ s :: sigs2) /\
      date_le (start (timeRange x)) b = true /\
      date_ge (end_ (timeRange x)) a = true) /\
  (forall qs qe ss se,
      (qs <= qe)%Z -> (ss <= se)%Z ->
      timeRange s = {| start := Some ss; end_ := Some se |} ->
      touches s (Some qs) (Some qe) ->
      In s (filterSignalsByDateRange (sigs1 ++ s :: sigs2)
              (Some qs) (Some qe))).
Proof.
  split; [|split; [|split]].
  - intros a b Ht Hin. apply findOverlaps_spec in Hin.
    destruct Hin as [_ [H1 H2]].
    pose proof (touching_not_overlapping _ _ _ Ht) as Hf.
    rewrite H1, H2 in Hf. discriminate.
  - intros rs re d ws H.
    destruct (date_lt rs re) eqn:E.
    2:{ rewrite computeWindows_empty in H by exact E. injection H as <-.
        exists []. split; [apply computeWindows_empty; exact E|].
        split; [reflexivity|]. intros i w Hi. destruct i; discriminate. }
    destruct rs as [a|]; [|discriminate].
    destruct re as [b|]; [|discriminate].
    clear E. pose proof (computeWindows_valid_tiling _ _ _ _ _ H) as Ht.
    { destruct (tiling_other_signals _ (sigs1 ++ sigs2) _ _ _ _ _ Ht)
        as [ws' [Ht' Hl]].
      exists ws'.
      pose proof (tiling_computeWindows _ _ _ _ _ Ht') as H'.
      split; [exact H'|]. split; [exact Hl|].
      intros i w Hi Htouch.
      destruct (tiling_nth _ _ _ _ _ _ Ht i w Hi) as [_ [_ Hw]].
      assert (Hi' : exists w', nth_error ws' i = Some w').
      { destruct (nth_error ws' i) as [w'|] eqn:E; [eauto|].
        apply nth_error_None in E.
        assert (i < List.length ws)%nat
          by (apply nth_error_Some; congruence).
        lia. }
      destruct Hi' as [w' Hi'].
      destruct (tiling_nth _ _ _ _ _ _ Ht' i w' Hi') as [_ [_ Hw']].
      subst w. destruct (window_at_bounds (sigs1 ++ s :: sigs2)
        (0 + Z.of_nat i) (a + d * Z.of_nat i)
        (Z.min (a + d * (Z.of_nat i + 1)) b)) as [Es [Ee _]].
      rewrite Es, Ee in Htouch.
      repeat split.
      * unfold window_at. simpl. intros Hin.
        apply findOverlaps_spec in Hin. destruct Hin as [_ [H1 H2]].
        pose proof (touching_not_overlapping _ _ _ Htouch) as Hf.
        rewrite H1, H2 in Hf. discriminate.
      * apply window_at_score.
      * rewrite Hi', Hw'. f_equal. symmetry.
        apply window_at_without_touching. exact Htouch. }
  - intros a b x. apply filterSignalsByDateRange_spec.
  - intros qs qe ss se Hq Hs Etr Ht.
    apply filterSignalsByDateRange_spec.
    split; [apply in_or_app; right; left; reflexivity|].
    rewrite Etr. simpl. unfold date_ge. simpl.
    unfold touches in Ht. rewrite Etr in Ht. simpl in Ht.
    destruct Ht as [[t [E1 E2]]|[t [E1 E2]]];
      injection E1 as E1; injection E2 as E2; subst;
      split; apply Z.leb_le; lia.
Qed.

Lemma strict_windows_inclusive_range_witness :
  ~ In touching_signal
       (findOverlaps ([] ++ touching_signal :: example_signals)
          (Some 4%Z) (Some 8%Z)) /\
  (exists w ws',
      nth_error
        [window_at (touching_signal :: example_signals) 0 0 4;
         window_at (touching_signal :: example_signals) 1 4 8;
         window_at (touching_signal :: example_signals) 2 8 10] 1 = Some w /\
      computeWindows ([] ++ example_signals) (Some 0%Z) (Some 10%Z) 4
        = Some ws' /\
      ~ In touching_signal (contributingSignals w) /\
      nth_error ws' 1 = Some w) /\
  In touching_signal
     (filterSignalsByDateRange ([] ++ touching_signal :: example_signals)
        (Some 0%Z) (Some 8%Z)).
Proof.
  destruct (strict_windows_inclusive_range [] touching_signal example_signals)
    as [H1 [H2 [_ H4]]].
  split; [|split].
  - apply H1. right. exists 8%Z. split; reflexivity.
  - destruct (H2 (Some 0%Z) (Some 10%Z) 4%Z
                [window_at (touching_signal :: example_signals) 0 0 4;
                 window_at (touching_signal :: example_signals) 1 4 8;
                 window_at (touching_signal :: example_signals) 2 8 10]
                eq_refl) as [ws' [Hws' [_ Hw]]].
    exists (window_at (touching_signal :: example_signals) 1 4 8), ws'.
    split; [reflexivity|]. split; [exact Hws'|].
    destruct (Hw 1%nat (window_at (touching_signal :: example_signals) 1 4 8)
                eq_refl) as [Hn [_ Hi]].
    + right. exists 8%Z. split; reflexivity.
    + split; assumption.
  - apply (H4 0%Z 8%Z 8%Z 12%Z); [lia|lia|reflexivity|].
    right. exists 8%Z. split; reflexivity.
Defined.

(** ** The overlap detector *)

Lemma detect_body_some L i j a b acc :
  nth_error L i = Some a -> nth_error L j = Some b ->
  detect_body L i j acc
  = (acc ++ (if intersects a b then [overlap_of a b] else []))%list.
Proof.
  intros Hi Hj. unfold detect_body. rewrite Hi, Hj.
  fold (intersects a b). unfold intersects, push, overlap_of.
  destruct (date_lt (start (timeRange a)) (end_ (timeRange b))
            && date_gt (end_ (timeRange a)) (start (timeRange b))).
  - reflexivity.
  - rewrite app_nil_r. reflexivity.
Qed.

Lemma detect_body_none L i j acc :
  nth_error L j = None -> detect_body L i j acc = acc.
Proof.
  intros Hj. unfold detect_body. rewrite Hj.
  destruct (nth_error L i); reflexivity.
Qed.

Lemma skipn_nth_error {A : Type} (l : list A) :
  forall k x, nth_error l k = Some x -> skipn k l = x :: skipn (S k) l.
Proof.
  induction l as [|y l IH]; intros [|k] x H; try discriminate.
  - injection H as ->. reflexivity.
  - simpl in H. apply IH in H. exact H.
Qed.

(** The inner loop: the overlaps of [a] with the signals at positions
    [k], ..., [k + m - 1]. *)
Lemma inner_loop L i a :
  nth_error L i = Some a ->
  forall m k acc,
    fold_left (fun overlaps j => detect_body L i j overlaps) (seq k m) acc
    = (acc ++ overlaps_from a (firstn m (skipn k L)))%list.
Proof.
  intros Hi. induction m as [|m IH]; intros k acc.
  - simpl. rewrite app_nil_r. reflexivity.
  - simpl seq. simpl fold_left. rewrite IH.
    destruct (nth_error L k) as [b|] eqn:Hk.
    + rewrite (detect_body_some _ _ _ _ _ _ Hi Hk).
      rewrite (skipn_nth_error _ _ _ Hk). simpl.
      rewrite <- !app_assoc. reflexivity.
    + rewrite (detect_body_none _ _ _ _ Hk).
      apply nth_error_None in Hk.
      rewrite !skipn_all2 by lia. rewrite !firstn_nil. reflexivity.
Qed.

(** The outer loop, from position [k] on. *)
Lemma outer_loop L :
  forall m k acc,
    (k + m = List.length L)%nat ->
    fold_left (fun overlaps i =>
      fold_left (fun overlaps j => detect_body L i j overlaps)
                (seq (i + 1) (List.length L - (i + 1))) overlaps)
      (seq k m) acc
    = (acc ++ pair_overlaps (skipn k L))%list.
Proof.
  induction m as [|m IH]; intros k acc Hk.
  - simpl. rewrite skipn_all2 by lia. simpl. rewrite app_nil_r. reflexivity.
  - simpl seq. simpl fold_left.
    destruct (nth_error L k) as [a|] eqn:Ha.
    2:{ apply nth_error_None in Ha. lia. }
    rewrite (inner_loop _ _ _ Ha), IH by lia.
    rewrite (skipn_nth_error _ _ _ Ha). simpl.
    rewrite Nat.add_1_r, firstn_all2 by (rewrite length_skipn; lia).
    rewrite <- app_assoc. reflexivity.
Qed.

(** The two loops enumerate the pairs of the significant signals. *)
Lemma detectSignalOverlaps_pairs sigs :
  detectSignalOverlaps sigs = pair_overlaps (filter significant sigs).
Proof.
  unfold detectSignalOverlaps. fold significant.
  rewrite outer_loop by reflexivity. reflexivity.
Qed.

Lemma row_pairs_In i a rest :
  forall j i' j',
    In (i', j') (row_pairs i a j rest) <->
    i' = i /\ (j <= j')%nat /\
    exists b,
      nth_error rest (j' - j) = Some b /\
      significant b = true /\ intersects a b = true.
Proof.
  induction rest as [|b r IH]; intros j i' j'; simpl.
  - split; [contradiction|]. intros [_ [_ [x [H _]]]].
    destruct (j' - j)%nat; discriminate.
  - rewrite in_app_iff, IH. split.
    + intros [H|[-> [Hj [x [Hx Hq]]]]].
      * destruct (significant b && intersects a b) eqn:E; [|contradiction].
        destruct H as [H|[]]. injection H as <- <-.
        apply andb_true_iff in E. split; [reflexivity|]. split; [lia|].
        exists b. rewrite Nat.sub_diag. split; [reflexivity|exact E].
      * split; [reflexivity|]. split; [lia|]. exists x.
        replace (j' - j)%nat with (S (j' - S j)) by lia. split; assumption.
    + intros [-> [Hj [x [Hx [Hs Hi]]]]].
      destruct (Nat.eq_dec j' j) as [->|Hne].
      * left. rewrite Nat.sub_diag in Hx. injection Hx as ->.
        rewrite Hs, Hi. left. reflexivity.
      * right. split; [reflexivity|]. split; [lia|]. exists x.
        replace (j' - j)%nat with (S (j' - S j)) in Hx by lia.
        split; [exact Hx|]. split; assumption.
Qed.

Lemma row_pairs_NoDup i a rest : forall j, NoDup (row_pairs i a j rest).
Proof.
  induction rest as [|b r IH]; intros j; simpl; [constructor|].
  destruct (significant b && intersects a b); simpl; [|apply IH].
  constructor; [|apply IH].
  intros H. apply row_pairs_In in H. lia.
Qed.

Lemma qual_pairs_In l :
  forall k i j,
    In (i, j) (qual_pairs k l) <->
    (k <= i)%nat /\ (i < j)%nat /\
    exists a b,
      nth_error l (i - k) = Some a /\ nth_error l (j - k) = Some b /\
      significant a = true /\ significant b = true /\
      intersects a b = true.
Proof.
  induction l as [|a r IH]; intros k i j; simpl.
  - split; [contradiction|]. intros [_ [_ [x [y [H _]]]]].
    destruct (i - k)%nat; discriminate.
  - rewrite in_app_iff, IH. split.
    + intros [H|[Hk [Hij [x [y [Hx [Hy Hq]]]]]]].
      * destruct (significant a) eqn:Ea; [|contradiction].
        apply row_pairs_In in H. destruct H as [-> [Hj [y [Hy [Hs Hi]]]]].
        split; [lia|]. split; [lia|]. exists a, y.
        rewrite Nat.sub_diag.
        replace (j - k)%nat with (S (j - S k)) by lia.
        repeat split; assumption.
      * split; [lia|]. split; [lia|]. exists x, y.
        replace (i - k)%nat with (S (i - S k)) by lia.
        replace (j - k)%nat with (S (j - S k)) by lia.
        split; [exact Hx|]. split; [exact Hy|]. exact Hq.
    + intros [Hk [Hij [x [y [Hx [Hy [Hsx [Hsy Hi]]]]]]]].
      replace (j - k)%nat with (S (j - S k)) in Hy by lia. simpl in Hy.
      destruct (Nat.eq_dec i k) as [->|Hne].
      * left. rewrite Nat.sub_diag in Hx. injection Hx as ->.
        rewrite Hsx. apply row_pairs_In.
        split; [reflexivity|]. split; [lia|]. exists y.
        repeat split; assumption.
      * right. split; [lia|]. split; [lia|]. exists x, y.
        replace (i - k)%nat with (S (i - S k)) in Hx by lia.
        split; [exact Hx|]. split; [exact Hy|]. repeat split; assumption.
Qed.

Lemma qual_pairs_NoDup l : forall k, NoDup (qual_pairs k l).
Proof.
  induction l as [|a r IH]; intros k; simpl; [constructor|].
  assert (Hdis : forall p, In p (row_pairs k a (S k) r) ->
                           ~ In p (qual_pairs (S k) r)).
  { intros [i j] H1 H2. apply row_pairs_In in H1.
    apply qual_pairs_In in H2. lia. }
  destruct (significant a); simpl; [|apply IH].
  induction (row_pairs_NoDup k a r (S k)) as [|p ps Hp Hnd IHnd].
  - apply IH.
  - simpl. constructor.
    + rewrite in_app_iff. intros [H|H]; [contradiction|].
      apply (Hdis p); [left; reflexivity|exact H].
    + apply IHnd. intros q Hq. apply Hdis. right. exact Hq.
Qed.

Lemma intersects_valid a b :
  intersects a b = true ->
  exists sa ea sb eb,
    timeRange a = {| start := Some sa; end_ := Some ea |} /\
    timeRange b = {| start := Some sb; end_ := Some eb |}.
Proof.
  unfold intersects, date_gt. intros H. apply andb_true_iff in H.
  destruct H as [H1 H2].
  destruct (timeRange a) as [[sa|] [ea|]], (timeRange b) as [[sb|] [eb|]];
    try discriminate.
  exists sa, ea, sb, eb. split; reflexivity.
Qed.

Lemma overlap_of_reports sigs i j a b :
  nth_error sigs i = Some a -> nth_error sigs j = Some b ->
  intersects a b = true ->
  reports sigs (i, j) (overlap_of a b).
Proof.
  intros Hi Hj Hint.
  destruct (intersects_valid _ _ Hint) as [sa [ea [sb [eb [Ea Eb]]]]].
  exists a, b, sa, ea, sb, eb.
  split; [exact Hi|]. split; [exact Hj|]. split; [exact Ea|].
  split; [exact Eb|]. split; [reflexivity|].
  unfold overlap_of. simpl. rewrite Ea, Eb. simpl.
  repeat split.
Qed.

Lemma row_pairs_reports sigs i a :
  nth_error sigs i = Some a ->
  forall rest j,
    (forall m, nth_error sigs (j + m) = nth_error rest m) ->
    Forall2 (reports sigs) (row_pairs i a j rest)
            (overlaps_from a (filter significant rest)).
Proof.
  intros Hi. induction rest as [|b r IH]; intros j Hoff; simpl.
  - constructor.
  - assert (Hj : nth_error sigs j = Some b).
    { rewrite <- (Nat.add_0_r j). rewrite Hoff. reflexivity. }
    assert (Hr : Forall2 (reports sigs) (row_pairs i a (S j) r)
                   (overlaps_from a (filter significant r))).
    { apply IH. intros m.
      transitivity (nth_error sigs (j + S m)); [f_equal; lia|apply Hoff]. }
    destruct (significant b); simpl; [|exact Hr].
    destruct (intersects a b) eqn:E; simpl; [|exact Hr].
    constructor; [|exact Hr].
    apply overlap_of_reports; assumption.
Qed.

Lemma qual_pairs_reports sigs :
  forall l k,
    (forall m, nth_error sigs (k + m) = nth_error l m) ->
    Forall2 (reports sigs) (qual_pairs k l)
            (pair_overlaps (filter significant l)).
Proof.
  induction l as [|a r IH]; intros k Hoff; simpl.
  - constructor.
  - assert (Hk : nth_error sigs k = Some a).
    { rewrite <- (Nat.add_0_r k). rewrite Hoff. reflexivity. }
    assert (Hoff' : forall m, nth_error sigs (S k + m) = nth_error r m).
    { intros m.
      transitivity (nth_error sigs (k + S m)); [f_equal; lia|apply Hoff]. }
    destruct (significant a); simpl; [|apply IH; exact Hoff'].
    apply Forall2_app; [|apply IH; exact Hoff'].
    apply row_pairs_reports; assumption.
Qed.

Lemma Forall2_In_r {A B : Type} (R : A -> B -> Prop) l1 l2 :
  Forall2 R l1 l2 -> forall y, In y l2 -> exists x, In x l1 /\ R x y.
Proof.
  induction 1 as [|x y l1 l2 HR HF IH]; intros z Hz; [contradiction|].
  destruct Hz as [<-|Hz].
  - exists x. split; [left; reflexivity|exact HR].
  - destruct (IH z Hz) as [x' [Hx' HR']]. exists x'.
    split; [right; exact Hx'|exact HR'].
Qed.

Lemma significant_not_low s : significant s = true -> impactLevel s <> low.
Proof.
  unfold significant. destruct (impactLevel s); [discriminate|congruence..].
Qed.

(** C4.  The overlaps [detectSignalOverlaps] returns are, one for one
    and in order, the reports of a list without repetition of pairs of
    positions [i < j] of the input; a pair is in that list exactly when
    the two signals at these positions are of medium or high impact and
    their ranges intersect.  The report of a pair holds the two signals,
    has the intersection of their ranges as its range, and is of high
    impact when one of the two is, of medium impact otherwise.  No
    returned overlap holds a low-impact signal. *)
Theorem overlaps_are_qualifying_pairs sigs :
  exists ps : list (nat * nat),
    NoDup ps /\
    (forall i j, In (i, j) ps <-> qualifying sigs i j) /\
    Forall2 (reports sigs) ps (detectSignalOverlaps sigs) /\
    (forall o s,
        In o (detectSignalOverlaps sigs) -> In s (signals o) ->
        impactLevel s <> low).
Proof.
  exists (qual_pairs 0 sigs).
  assert (HIn : forall i j, In (i, j) (qual_pairs 0 sigs)
                            <-> qualifying sigs i j).
  { intros i j. rewrite qual_pairs_In, !Nat.sub_0_r. unfold qualifying.
    split; [intros [_ H]; exact H|intros H; split; [lia|exact H]]. }
  assert (HF : Forall2 (reports sigs) (qual_pairs 0 sigs)
                 (detectSignalOverlaps sigs)).
  { rewrite detectSignalOverlaps_pairs. apply qual_pairs_reports.
    intros m. reflexivity. }
  split; [apply qual_pairs_NoDup|]. split; [exact HIn|].
  split; [exact HF|].
  intros o s Ho Hs.
  destruct (Forall2_In_r _ _ _ HF o Ho) as [[i j] [Hp Hrep]].
  apply HIn in Hp.
  destruct Hp as [_ [a [b [Ha [Hb [Hsa [Hsb _]]]]]]].
  destruct Hrep as [a' [b' [sa [ea [sb [eb [Ha' [Hb' [_ [_ [Hsig _]]]]]]]]]]].
  simpl in Ha', Hb'. rewrite Ha in Ha'. rewrite Hb in Hb'.
  injection Ha' as <-. injection Hb' as <-.
  rewrite Hsig in Hs. destruct Hs as [<-|[<-|[]]];
    apply significant_not_low; assumption.
Qed.

Lemma overlaps_are_qualifying_pairs_witness :
  In (overlap_of (mkSig "a" "A" sanitation 1 3 high low)
                 (mkSig "b" "B" publicEvent 2 9 medium medium))
     (detectSignalOverlaps example_signals) /\
  impactLevel (mkSig "a" "A" sanitation 1 3 high low) <> low /\
  exists ps : list (nat * nat),
    In (0%nat, 1%nat) ps /\
    Forall2 (reports example_signals) ps
            (detectSignalOverlaps example_signals).
Proof.
  destruct (overlaps_are_qualifying_pairs example_signals)
    as [ps [_ [Hin [HF Hlow]]]].
  assert (Ho : In (overlap_of (mkSig "a" "A" sanitation 1 3 high low)
                              (mkSig "b" "B" publicEvent 2 9 medium medium))
                  (detectSignalOverlaps example_signals))
    by (left; reflexivity).
  split; [exact Ho|]. split.
  - apply (Hlow _ _ Ho). left. reflexivity.
  - exists ps. split; [|exact HF].
    apply Hin. split; [lia|].
    do 2 eexists. split; [reflexivity|]. split; [reflexivity|].
    repeat split.
Defined.

(** The overlaps of a list, matched one for one with its qualifying
    pairs of positions. *)
Lemma detectSignalOverlaps_reports sigs :
  exists ps : list (nat * nat),
    NoDup ps /\
    (forall i j, In (i, j) ps <-> qualifying sigs i j) /\
    Forall2 (reports sigs) ps (detectSignalOverlaps sigs).
Proof.
  exists (qual_pairs 0 sigs). split; [apply qual_pairs_NoDup|]. split.
  - intros i j. rewrite qual_pairs_In, !Nat.sub_0_r. unfold qualifying.
    split; [intros [_ H]; exact H|intros H; split; [lia|exact H]].
  - rewrite detectSignalOverlaps_pairs. apply qual_pairs_reports.
    intros m. reflexivity.
Qed.

(** The inclusive test of [filterSignalsByDateRange] on valid bounds. *)
Lemma filterSignalsByDateRange_inclusive sigs a b x :
  In x (filterSignalsByDateRange sigs (Some a) (Some b)) <->
  In x sigs /\
  exists xs xe,
    timeRange x = {| start := Some xs; end_ := Some xe |} /\
    (xs <= b)%Z /\ (a <= xe)%Z.
Proof.
  rewrite filterSignalsByDateRange_spec. unfold date_ge.
  destruct (timeRange x) as [[xs|] [xe|]]; simpl.
  - rewrite !Z.leb_le. split.
    + intros [Hin [H1 H2]]. split; [exact Hin|].
      exists xs, xe. split; [reflexivity|]. split; assumption.
    + intros [Hin [xs' [xe' [E [H1 H2]]]]]. injection E as <- <-.
      split; [exact Hin|]. split; assumption.
  - split; [intros [_ [_ H]]; discriminate|].
    intros [_ [xs' [xe' [E _]]]]. discriminate.
  - split; [intros [_ [H _]]; discriminate|].
    intros [_ [xs' [xe' [E _]]]]. discriminate.
  - split; [intros [_ [H _]]; discriminate|].
    intros [_ [xs' [xe' [E _]]]]. discriminate.
Qed.

(** ** Whole numbers as JavaScript numbers *)

Lemma round64_exact m e :
  (Z.abs m < 2 ^ 53)%Z -> round64 m e = Finite m e.
Proof.
  intros H. unfold round64.
  assert (Hl : (Z.log2 (Z.abs m) <= 52)%Z).
  { destruct (Z.eq_dec (Z.abs m) 0) as [E|E]; [rewrite E; simpl; lia|].
    assert (Z.log2 (Z.abs m) < 53)%Z by (apply Z.log2_lt_pow2; lia). lia. }
  destruct (Z.leb_spec (Z.log2 (Z.abs m) - 52) 0); [reflexivity|lia].
Qed.

(** The integers that rounding may change are of 2^53 or more in
    absolute value, and so is what they are rounded to. *)
Lemma round64_big m :
  (2 ^ 53 <= Z.abs m)%Z ->
  match round64 m 0 with
  | Finite m' e' =>
      (0 <= e')%Z /\ (2 ^ 53 <= Z.abs (m' * 2 ^ e'))%Z /\
      ((0 < m)%Z <-> (0 < m' * 2 ^ e')%Z)
  | PosInf => (0 < m)%Z
  | NegInf => (m < 0)%Z
  | NaN => False
  end.
Proof.
  intros H. unfold round64.
  assert (Hl : (53 <= Z.log2 (Z.abs m))%Z) by (apply Z.log2_le_pow2; lia).
  set (k := (Z.log2 (Z.abs m) - 52)%Z).
  assert (Hk : (1 <= k)%Z) by (unfold k; lia).
  destruct (Z.leb_spec k 0) as [Hc|_]; [lia|].
  set (q := (Z.abs m / 2 ^ k)%Z).
  assert (Hpow : (0 < 2 ^ k)%Z) by (apply Z.pow_pos_nonneg; lia).
  assert (Hq : (2 ^ 52 <= q)%Z).
  { unfold q. apply Z.div_le_lower_bound; [exact Hpow|].
    rewrite <- Z.pow_add_r by lia.
    replace (k + 52)%Z with (Z.log2 (Z.abs m)) by (unfold k; lia).
    apply Z.log2_spec. lia. }
  set (q' := if ((2 ^ (k - 1) <? Z.abs m mod 2 ^ k)%Z
                 || ((Z.abs m mod 2 ^ k =? 2 ^ (k - 1))%Z && Z.odd q))%bool
             then (q + 1)%Z else q).
  assert (Hq' : (2 ^ 52 <= q')%Z) by (unfold q'; destruct (_ || _)%bool; lia).
  destruct (1024 <=? Z.log2 q' + (0 + k))%Z.
  - destruct (Z.ltb_spec m 0); lia.
  - split; [lia|].
    assert (Hv : (2 ^ 53 <= q' * 2 ^ k)%Z).
    { change (2 ^ 53)%Z with (2 ^ 52 * 2 ^ 1)%Z.
      apply Z.mul_le_mono_nonneg; try lia.
      apply Z.pow_le_mono_r; lia. }
    replace (0 + k)%Z with k by lia.
    destruct (Z.lt_trichotomy m 0) as [Hm|[Hm|Hm]].
    + rewrite (Z.sgn_neg m Hm). split; [|split; intros; nia].
      replace (-1 * q' * 2 ^ k)%Z with (- (q' * 2 ^ k))%Z by ring.
      rewrite Z.abs_opp, Z.abs_eq by nia. exact Hv.
    + subst m. simpl in H. lia.
    + rewrite (Z.sgn_pos m Hm). split; [|split; intros; nia].
      replace (1 * q' * 2 ^ k)%Z with (q' * 2 ^ k)%Z by ring.
      rewrite Z.abs_eq by nia. exact Hv.
Qed.

(** The date made of the lesser of a rounded integer and a time value. *)
Lemma MAX_TIME_bounds : (0 < MAX_TIME < 2 ^ 53)%Z.
Proof. split; reflexivity. Qed.

Lemma number_min_whole y z :
  number_min (Finite y 0) (Some z)
  = if (y <? z)%Z then Finite y 0 else Finite z 0.
Proof.
  unfold number_min. change (0 <=? 0)%Z with true. cbv iota.
  rewrite Z.pow_0_r, Z.mul_1_r. reflexivity.
Qed.

Lemma Date_of_whole y :
  Date_of_number (Finite y 0)
  = if (Z.abs y <=? MAX_TIME)%Z then Some y else None.
Proof.
  unfold Date_of_number. change (0 <=? 0)%Z with true. cbv iota.
  rewrite Z.pow_0_r, Z.mul_1_r. reflexivity.
Qed.

Lemma time_plus_whole t d :
  time_plus (Some t) (Finite d 0) = round64 (t + d) 0.
Proof.
  unfold time_plus. change (0 <=? 0)%Z with true. cbv iota.
  rewrite Z.pow_0_r, Z.mul_1_r. reflexivity.
Qed.

Lemma date_of_whole_sum x re :
  (Z.abs re <= MAX_TIME)%Z ->
  Date_of_number (number_min (round64 x 0) (Some re))
  = if (x <? - MAX_TIME)%Z then None else Some (Z.min x re).
Proof.
  intros Hre. pose proof MAX_TIME_bounds as HM.
  destruct (Z.lt_ge_cases (Z.abs x) (2 ^ 53)) as [Hx|Hx].
  - rewrite round64_exact by exact Hx. rewrite number_min_whole.
    destruct (Z.ltb_spec x re) as [Hlt|Hge]; rewrite Date_of_whole.
    + destruct (Z.ltb_spec x (- MAX_TIME)),
               (Z.leb_spec (Z.abs x) MAX_TIME);
        try lia; try reflexivity. f_equal. lia.
    + destruct (Z.ltb_spec x (- MAX_TIME)),
               (Z.leb_spec (Z.abs re) MAX_TIME);
        try lia. f_equal. lia.
  - pose proof (round64_big x Hx) as Hr.
    destruct (round64 x 0) as [m' e'| | |].
    + destruct Hr as [He [Hv Hs]]. cbn [number_min].
      destruct (Z.leb_spec 0 e') as [_|Hc]; [|lia].
      destruct (Z.ltb_spec (m' * 2 ^ e') re) as [Hlt|Hge].
      * cbn [Date_of_number].
        destruct (Z.leb_spec 0 e') as [_|Hc]; [|lia].
        destruct (Z.leb_spec (Z.abs (m' * 2 ^ e')) MAX_TIME); [lia|].
        destruct (Z.ltb_spec x (- MAX_TIME)); [reflexivity|].
        exfalso. lia.
      * rewrite Date_of_whole.
        destruct (Z.ltb_spec x (- MAX_TIME)),
                 (Z.leb_spec (Z.abs re) MAX_TIME);
          try lia. f_equal. lia.
    + contradiction.
    + cbn [number_min]. rewrite Date_of_whole.
      destruct (Z.ltb_spec x (- MAX_TIME)),
               (Z.leb_spec (Z.abs re) MAX_TIME);
        try lia. f_equal. lia.
    + cbn [number_min Date_of_number].
      destruct (Z.ltb_spec x (- MAX_TIME)); [reflexivity|lia].
Qed.

Lemma whole_step cs d re :
  (Z.abs re <= MAX_TIME)%Z ->
  Date_of_number
    (number_min (time_plus (Some cs) (Finite d 0)) (Some re))
  = if (cs + d <? - MAX_TIME)%Z then None else Some (Z.min (cs + d) re).
Proof.
  intros Hre. rewrite time_plus_whole.
  apply date_of_whole_sum. exact Hre.
Qed.

(** The default end of the query range of the route handler. *)
Lemma default_end_value t :
  Date_of_number
    (time_plus (Some t) (Finite (7 * 24 * 60 * 60 * 1000) 0))
  = if (Z.abs (t + 604800000) <=? MAX_TIME)%Z
    then Some (t + 604800000)%Z else None.
Proof.
  change (7 * 24 * 60 * 60 * 1000)%Z with 604800000%Z.
  rewrite time_plus_whole.
  pose proof MAX_TIME_bounds as HM.
  destruct (Z.lt_ge_cases (Z.abs (t + 604800000)) (2 ^ 53)) as [Hx|Hx].
  - rewrite round64_exact by exact Hx. apply Date_of_whole.
  - pose proof (round64_big _ Hx) as Hr.
    destruct (Z.leb_spec (Z.abs (t + 604800000)) MAX_TIME); [lia|].
    destruct (round64 (t + 604800000) 0) as [m' e'| | |];
      try reflexivity.
    destruct Hr as [He [Hv _]]. cbn [Date_of_number].
    destruct (Z.leb_spec 0 e'); [|lia].
    destruct (Z.leb_spec (Z.abs (m' * 2 ^ e')) MAX_TIME);
      [lia|reflexivity].
Qed.

Lemma number_loop_done fuel sigs re d cs idx acc :
  date_lt cs re = false ->
  computeWindows_number_loop fuel sigs re d cs idx acc = Returned acc.
Proof.
  intros H. destruct fuel; simpl; rewrite H; reflexivity.
Qed.

Lemma number_loop_step fuel sigs re d cs idx acc ce :
  (cs < re)%Z ->
  Date_of_number (number_min (time_plus (Some cs) d) (Some re)) = Some ce ->
  computeWindows_number_loop (S fuel) sigs (Some re) d (Some cs) idx acc
  = computeWindows_number_loop fuel sigs (Some re) d (Some ce) (idx + 1)
      (acc ++ [window_at sigs idx cs ce]).
Proof.
  intros H E. cbn [computeWindows_number_loop date_lt].
  apply Z.ltb_lt in H. rewrite H. unfold getTime. rewrite E. reflexivity.
Qed.

Lemma number_loop_raises fuel sigs re d cs idx acc :
  (cs < re)%Z ->
  Date_of_number (number_min (time_plus (Some cs) d) (Some re)) = None ->
  computeWindows_number_loop (S fuel) sigs (Some re) d (Some cs) idx acc
  = Raised.
Proof.
  intros H E. cbn [computeWindows_number_loop date_lt].
  apply Z.ltb_lt in H. rewrite H. unfold getTime. rewrite E. reflexivity.
Qed.

Lemma whole_positive_loop sigs re d fuel :
  (Z.abs re <= MAX_TIME)%Z -> (0 < d)%Z ->
  forall cs idx acc,
    (- MAX_TIME <= cs)%Z ->
    run_list (computeWindows_number_loop fuel sigs (Some re) (Finite d 0)
                (Some cs) idx acc)
    = computeWindows_loop fuel sigs (Some re) d (Some cs) idx acc.
Proof.
  intros Hre Hd. induction fuel as [|fuel IH]; intros cs idx acc Hcs.
  - simpl. destruct (cs <? re)%Z; reflexivity.
  - destruct (Z.lt_ge_cases cs re) as [Hlt|Hge].
    + assert (E := whole_step cs d re Hre).
      destruct (Z.ltb_spec (cs + d) (- MAX_TIME)) as [Hc|_]; [lia|].
      rewrite (number_loop_step _ _ _ _ _ _ _ _ Hlt E).
      rewrite loop_step by exact Hlt. apply IH. lia.
    + rewrite number_loop_done, loop_done
        by (simpl; apply Z.ltb_ge; exact Hge).
      reflexivity.
Qed.

Lemma whole_nonpositive_loop sigs re d fuel :
  (Z.abs re <= MAX_TIME)%Z -> (d <= 0)%Z ->
  forall cs idx acc,
    (cs < re)%Z ->
    run_list (computeWindows_number_loop fuel sigs (Some re) (Finite d 0)
                (Some cs) idx acc) = None.
Proof.
  intros Hre Hd. induction fuel as [|fuel IH]; intros cs idx acc Hlt.
  - simpl. apply Z.ltb_lt in Hlt. rewrite Hlt. reflexivity.
  - assert (E := whole_step cs d re Hre).
    destruct (Z.ltb_spec (cs + d) (- MAX_TIME)) as [Hc|Hc].
    + rewrite (number_loop_raises _ _ _ _ _ _ _ Hlt E). reflexivity.
    + rewrite (number_loop_step _ _ _ _ _ _ _ _ Hlt E). apply IH. lia.
Qed.

(** On dates that a [Date] can hold, and at a duration that is a whole
    number of milliseconds, a run of the function at numbers returns
    what the loop at whole durations returns, with every bound on the
    iterations; when the latter has no end the former raises or has no
    end. *)
Lemma whole_duration_agrees sigs rs re d fuel :
  representable rs -> representable re ->
  run_list (computeWindows_number fuel sigs rs re (Finite d 0))
  = computeWindows_loop fuel sigs re d rs 0 [].
Proof.
  intros Hrs Hre. unfold computeWindows_number, newDate, getTime.
  destruct (date_lt rs re) eqn:E.
  - destruct rs as [a|]; [|discriminate]. destruct re as [b|]; [|discriminate].
    simpl in Hrs, Hre, E. apply Z.ltb_lt in E.
    destruct (Z.lt_ge_cases 0 d) as [Hd|Hd].
    + apply whole_positive_loop; [exact Hre|exact Hd|lia].
    + rewrite whole_nonpositive_loop by (assumption || lia).
      symmetry. apply loop_diverges; assumption.
  - rewrite number_loop_done, loop_done by exact E. reflexivity.
Qed.

(** With enough iterations allowed, that is what [computeWindows]
    returns. *)
Lemma whole_duration_returns sigs rs re d ws :
  representable rs -> representable re ->
  computeWindows sigs rs re d = Some ws ->
  exists fuel,
    computeWindows_number fuel sigs rs re (Finite d 0) = Returned ws.
Proof.
  intros Hrs Hre H. exists (iterations rs re d).
  pose proof (whole_duration_agrees sigs rs re d (iterations rs re d)
                Hrs Hre) as E.
  unfold computeWindows in H. unfold newDate, getTime in H.
  rewrite H in E.
  destruct (computeWindows_number _ _ _ _ _); simpl in E;
    [injection E as ->; reflexivity|discriminate..].
Qed.

(** *** Durations that are not whole numbers of milliseconds *)

(** With a duration of half a millisecond an iteration that starts at 0
    ends at 0: the end, 0.5, is cut to 0 by [new Date]. *)
Lemma half_millisecond_loop fuel sigs :
  forall idx acc,
    computeWindows_number_loop fuel sigs (Some 10%Z) (Finite 1 (-1))
      (Some 0%Z) idx acc = Unfinished.
Proof.
  induction fuel as [|fuel IH]; intros idx acc.
  - reflexivity.
  - rewrite (number_loop_step fuel sigs 10 (Finite 1 (-1)) 0 idx acc 0);
      [apply IH|lia|reflexivity].
Qed.

(** C8, as stated, fails: a duration of half a millisecond is positive
    and the range from 0 to 10 is not empty, and yet [computeWindows]
    returns no list of windows: within any bound on the iterations it is
    still running, its current start still at 0. *)
Lemma half_millisecond_never_returns :
  date_lt (Some 0%Z) (Some 10%Z) = true /\
  (forall sigs fuel,
      computeWindows_number fuel sigs (Some 0%Z) (Some 10%Z) (Finite 1 (-1))
      = Unfinished) /\
  (forall sigs fuel ws,
      computeWindows_number fuel sigs (Some 0%Z) (Some 10%Z) (Finite 1 (-1))
      <> Returned ws).
Proof.
  split; [reflexivity|]. split.
  - intros sigs fuel. apply half_millisecond_loop.
  - intros sigs fuel ws H.
    unfold computeWindows_number, newDate, getTime in H.
    rewrite half_millisecond_loop in H. discriminate.
Qed.

(** X21.  At a duration that is a whole number of milliseconds, on dates
    that a [Date] can hold, [computeWindows] run on numbers returns,
    within every bound on the iterations, the list that the loop on
    whole durations returns, and returns none when that loop does not;
    and what [computeWindows] returns is returned on numbers once the
    bound is large enough. *)
Theorem whole_durations_run_alike sigs rs re d :
  representable rs -> representable re ->
  (forall fuel,
      run_list (computeWindows_number fuel sigs rs re (Finite d 0))
      = computeWindows_loop fuel sigs re d rs 0 []) /\
  (forall ws,
      computeWindows sigs rs re d = Some ws ->
      exists fuel,
        computeWindows_number fuel sigs rs re (Finite d 0) = Returned ws).
Proof.
  intros Hrs Hre. split.
  - intros fuel. apply whole_duration_agrees; assumption.
  - intros ws. apply whole_duration_returns; assumption.
Qed.

Lemma whole_durations_run_alike_witness :
  exists fuel,
    computeWindows_number fuel example_signals (Some 0%Z) (Some 10%Z)
      (Finite 4 0)
    = Returned example_windows.
Proof.
  refine (proj2 (whole_durations_run_alike example_signals (Some 0%Z)
                   (Some 10%Z) 4 _ _) example_windows eq_refl);
    unfold representable, MAX_TIME; simpl; lia.
Defined.

(** X22.  With a duration of one millisecond and a half on the range from
    0 to 3, [computeWindows] returns three windows, from 0 to 1, from 1
    to 2 and from 2 to 3: the ends 1.5 and 2.5 are cut to 1 and 2 by
    [new Date], and the third is cut at the end of the range. *)
Theorem fractional_end_is_truncated :
  forall fuel,
    computeWindows_number (3 + fuel) [] (Some 0%Z) (Some 3%Z) (Finite 3 (-1))
    = Returned [window_at [] 0 0 1; window_at [] 1 1 2; window_at [] 2 2 3].
Proof.
  intros fuel. unfold computeWindows_number, newDate, getTime.
  change (3 + fuel)%nat with (S (S (S fuel))).
  rewrite (number_loop_step _ [] 3 (Finite 3 (-1)) 0 0 [] 1);
    [|lia|reflexivity].
  rewrite (number_loop_step _ [] 3 (Finite 3 (-1)) 1 _ _ 2);
    [|lia|reflexivity].
  rewrite (number_loop_step _ [] 3 (Finite 3 (-1)) 2 _ _ 3);
    [|lia|reflexivity].
  rewrite number_loop_done by reflexivity. reflexivity.
Qed.

(** ** Sublists *)

Lemma subseq_refl {A : Type} (l : list A) : subseq l l.
Proof. induction l; constructor; assumption. Qed.

Lemma subseq_In {A : Type} (l l' : list A) :
  subseq l l' -> forall x, In x l -> In x l'.
Proof.
  induction 1 as [l'|x l l' Hs IH|x l l' Hs IH]; intros y Hy.
  - contradiction.
  - right. apply IH. exact Hy.
  - destruct Hy as [<-|Hy]; [left; reflexivity|right; apply IH; exact Hy].
Qed.

Lemma subseq_filter {A : Type} (p : A -> bool) (l l' : list A) :
  subseq l l' -> subseq (filter p l) (filter p l').
Proof.
  induction 1 as [l'|x l l' Hs IH|x l l' Hs IH]; simpl.
  - constructor.
  - destruct (p x); [constructor|]; exact IH.
  - destruct (p x); [constructor|]; exact IH.
Qed.

Lemma filter_subseq {A : Type} (p : A -> bool) (l : list A) :
  subseq (filter p l) l.
Proof.
  induction l as [|x l IH]; simpl; [constructor|].
  destruct (p x); constructor; exact IH.
Qed.

(** ** The signal repository and the route handler *)

Lemma append_keeps_prefix {A : Type} (b m : list A) :
  firstn (List.length b) (b ++ m) = b /\
  (forall i x, nth_error b i = Some x -> nth_error (b ++ m) i = Some x) /\
  (forall x, In x b -> In x (b ++ m)) /\
  skipn (List.length b) (b ++ m) = m.
Proof.
  split; [|split; [|split]].
  - rewrite firstn_app, Nat.sub_diag, firstn_all, firstn_O.
    apply app_nil_r.
  - intros i x Hi. rewrite nth_error_app1; [exact Hi|].
    apply nth_error_Some. congruence.
  - intros x Hx. apply in_or_app. left. exact Hx.
  - rewrite skipn_app, Nat.sub_diag, skipn_all. reflexivity.
Qed.

Section RuntimeProperties.

Variable rt : Runtime.

(** C10.  Without the scenario [getAllSignals] returns the base signals;
    with it, the base signals followed by the mega-event signals.  So
    the base signals are a prefix of the scenario list, position by
    position, every base signal is in the scenario list, and what comes
    after the base signals are the mega-event signals, all of type
    [megaEvent]. *)
Theorem scenario_only_adds :
  getAllSignals rt false = getBaseSignals rt /\
  getAllSignals rt true = (getBaseSignals rt ++ megaEventSignals rt)%list /\
  firstn (List.length (getBaseSignals rt)) (getAllSignals rt true)
  = getAllSignals rt false /\
  (forall i s, nth_error (getAllSignals rt false) i = Some s ->
               nth_error (getAllSignals rt true) i = Some s) /\
  (forall s, In s (getAllSignals rt false) -> In s (getAllSignals rt true)) /\
  skipn (List.length (getAllSignals rt false)) (getAllSignals rt true)
  = megaEventSignals rt /\
  Forall (fun s => signalType s = megaEvent) (megaEventSignals rt) /\
  (forall s, In s (getAllSignals rt true) -> ~ In s (getAllSignals rt false) ->
             signalType s = megaEvent).
Proof.
  assert (Ht : getAllSignals rt true
               = (getBaseSignals rt ++ megaEventSignals rt)%list)
    by reflexivity.
  assert (Hf : getAllSignals rt false = getBaseSignals rt) by reflexivity.
  split; [exact Hf|]. split; [exact Ht|]. rewrite Ht, Hf.
  destruct (append_keeps_prefix (getBaseSignals rt) (megaEventSignals rt))
    as [H1 [H2 [H3 H4]]].
  split; [exact H1|]. split; [exact H2|]. split; [exact H3|].
  split; [exact H4|].
  assert (Hm : Forall (fun s => signalType s = megaEvent)
                 (megaEventSignals rt))
    by (unfold megaEventSignals; repeat constructor).
  split; [exact Hm|].
  intros s Hin Hout. apply in_app_or in Hin.
  destruct Hin as [Hin|Hin]; [contradiction|].
  rewrite Forall_forall in Hm. apply Hm. exact Hin.
Qed.

(** The handler in terms of the query range of the request. *)
Lemma GET_by_query_range request_time response_time request :
  GET rt request_time response_time request =
  let s := query_start rt request_time request in
  let e := query_end rt request_time request in
  if isNaN (getTime s) || isNaN (getTime e) then
    Some {| http_status := 400;
            body := ErrorBody "Invalid date format. Use ISO 8601 format." |}
  else if date_le e s then
    Some {| http_status := 400;
            body := ErrorBody "End date must be after start date." |}
  else
    let filtered :=
      filterSignalsByDateRange (getAllSignals rt (scenario_flag request))
        s e in
    match computeWindows_default filtered s e with
    | None => None
    | Some ws =>
        Some {| http_status := 200;
                body := DataBody
                  {| r_signals := filtered;
                     r_overlaps := detectSignalOverlaps filtered;
                     r_windows := ws;
                     meta := {| queryRange := {| start := s; end_ := e |};
                                scenarioMode := scenario_flag request;
                                generatedAt := Some response_time;
                                disclaimer := DISCLAIMER |} |} |}
    end.
Proof.
  unfold GET, query_end, query_start.
  destruct (truthy (q_end request)); [reflexivity|].
  destruct (truthy (q_start request)) as [x|].
  - destruct (parseDate rt x) as [t|]; [|reflexivity].
    unfold getTime. rewrite default_end_value. reflexivity.
  - unfold getTime. rewrite default_end_value. reflexivity.
Qed.

(** C7, amended.  The handler always answers.  The start of the query
    range is the parsed [start] parameter, or the time of the request
    when the parameter is absent or empty; its end is the parsed [end]
    parameter, or seven days after the start when absent or empty, an
    Invalid Date when that is beyond the largest time value.  When the
    start or the end is not a valid date, or the end is not after the
    start, the answer has status 400 and an error message as its body.
    Otherwise it has status 200 and its body holds: the signals of the
    repository that start no later than the end of the range and end no
    earlier than its start, in their order; the overlaps detected among
    them, one for each qualifying pair; the windows computed over them
    for the range with the default duration of two hours; and the
    metadata: the query range, the scenario flag, the time of the
    answer and the disclaimer. *)
Theorem GET_validates_then_answers request_time response_time request :
  let s := query_start rt request_time request in
  let e := query_end rt request_time request in
  let answer := GET rt request_time response_time request in
  (exists r, answer = Some r) /\
  (s = None \/ e = None \/ date_gt e s = false ->
   exists msg,
     answer = Some {| http_status := 400; body := ErrorBody msg |}) /\
  (forall a b,
      s = Some a -> e = Some b -> (a < b)%Z ->
      exists sigs ovs ws,
        answer
        = Some {| http_status := 200;
                  body := DataBody
                    {| r_signals := sigs;
                       r_overlaps := ovs;
                       r_windows := ws;
                       meta := {| queryRange := {| start := Some a;
                                                   end_ := Some b |};
                                  scenarioMode := scenario_flag request;
                                  generatedAt := Some response_time;
                                  disclaimer := DISCLAIMER |} |} |} /\
        sigs = filterSignalsByDateRange
                 (getAllSignals rt (scenario_flag request))
                 (Some a) (Some b) /\
        subseq sigs (getAllSignals rt (scenario_flag request)) /\
        (forall x,
            In x sigs <->
            In x (getAllSignals rt (scenario_flag request)) /\
            exists xs xe,
              timeRange x = {| start := Some xs; end_ := Some xe |} /\
              (xs <= b)%Z /\ (a <= xe)%Z) /\
        ovs = detectSignalOverlaps sigs /\
        (exists ps : list (nat * nat),
            NoDup ps /\
            (forall i j, In (i, j) ps <-> qualifying sigs i j) /\
            Forall2 (reports sigs) ps ovs) /\
        computeWindows sigs (Some a) (Some b) DEFAULT_WINDOW_DURATION_MS
          = Some ws /\
        DEFAULT_WINDOW_DURATION_MS = 7200000%Z /\
        Z.of_nat (List.length ws) = ((b - a + 7200000 - 1) / 7200000)%Z /\
        (forall i w,
            nth_error ws i = Some w ->
            w_start w = Some (a + 7200000 * Z.of_nat i)%Z /\
            w_end w = Some (Z.min (a + 7200000 * (Z.of_nat i + 1)) b) /\
            contributingSignals w = filter (overlaps_window w) sigs)).
Proof.
  intros s e answer. subst answer. rewrite GET_by_query_range.
  fold s e. clearbody s e.
  assert (Hbad : s = None \/ e = None \/ date_gt e s = false ->
    exists msg,
      (if isNaN (getTime s) || isNaN (getTime e) then
         Some {| http_status := 400;
                 body := ErrorBody
                           "Invalid date format. Use ISO 8601 format." |}
       else if date_le e s then
         Some {| http_status := 400;
                 body := ErrorBody "End date must be after start date." |}
       else
         let filtered :=
           filterSignalsByDateRange
             (getAllSignals rt (scenario_flag request)) s e in
         match computeWindows_default filtered s e with
         | None => None
         | Some ws =>
             Some {| http_status := 200;
                     body := DataBody
                       {| r_signals := filtered;
                          r_overlaps := detectSignalOverlaps filtered;
                          r_windows := ws;
                          meta := {| queryRange := {| start := s;
                                                      end_ := e |};
                                     scenarioMode := scenario_flag request;
                                     generatedAt := Some response_time;
                                     disclaimer := DISCLAIMER |} |} |}
         end)
      = Some {| http_status := 400; body := ErrorBody msg |}).
  { intros H. destruct s as [a|]; [|eexists; reflexivity].
    destruct e as [b|]; [|eexists; reflexivity].
    destruct H as [H|[H|H]]; try discriminate.
    unfold date_gt in H. simpl in H. simpl.
    apply Z.ltb_ge in H. apply Z.leb_le in H. rewrite H.
    eexists. reflexivity. }
  split; [|split; [exact Hbad|]].
  - destruct s as [a|]; [|eexists; reflexivity].
    destruct e as [b|]; [|eexists; reflexivity].
    destruct (Z.lt_ge_cases a b) as [Hlt|Hge].
    + simpl. destruct (Z.leb_spec b a) as [Hle|_]; [lia|].
      destruct (computeWindows_total
                  (filterSignalsByDateRange
                     (getAllSignals rt (scenario_flag request))
                     (Some a) (Some b))
                  (Some a) (Some b) DEFAULT_WINDOW_DURATION_MS)
        as [ws Hws]; [reflexivity|].
      unfold computeWindows_default. rewrite Hws. eexists. reflexivity.
    + destruct Hbad as [msg E].
      * right. right. unfold date_gt. simpl. apply Z.ltb_ge. exact Hge.
      * eexists. exact E.
  - intros a b -> -> Hlt.
    set (sigs := filterSignalsByDateRange
                   (getAllSignals rt (scenario_flag request))
                   (Some a) (Some b)).
    destruct (computeWindows_total sigs (Some a) (Some b)
                DEFAULT_WINDOW_DURATION_MS) as [ws Hws]; [reflexivity|].
    exists sigs, (detectSignalOverlaps sigs), ws.
    split.
    { simpl. destruct (Z.leb_spec b a) as [Hle|_]; [lia|].
      fold sigs. unfold computeWindows_default. rewrite Hws. reflexivity. }
    split; [reflexivity|].
    split; [apply filter_subseq|].
    split; [intros x; apply filterSignalsByDateRange_inclusive|].
    split; [reflexivity|].
    split; [apply detectSignalOverlaps_reports|].
    split; [exact Hws|]. split; [reflexivity|].
    pose proof (computeWindows_valid_tiling _ _ _ _ _ Hws) as Ht.
    split.
    { apply (tiling_length _ _ _ _ _ _ Ht); [reflexivity|lia]. }
    intros i w Hi.
    destruct (tiling_nth _ _ _ _ _ _ Ht i w Hi) as [_ [_ ->]].
    split; [reflexivity|]. split; [reflexivity|].
    symmetry. apply window_at_overlaps.
Qed.

End RuntimeProperties.

Lemma scenario_only_adds_witness :
  exists s,
    nth_error (getAllSignals ex_runtime false) 0 = Some s /\
    nth_error (getAllSignals ex_runtime true) 0 = Some s /\
    In s (getAllSignals ex_runtime true).
Proof.
  destruct (scenario_only_adds ex_runtime) as [_ [_ [_ [Hnth [Hin _]]]]].
  eexists. split; [reflexivity|]. split.
  - apply Hnth. reflexivity.
  - apply Hin. left. reflexivity.
Defined.

Lemma GET_validates_then_answers_witness :
  (exists msg,
      GET ex_runtime 5 6 ex_bad_request
      = Some {| http_status := 400; body := ErrorBody msg |}) /\
  (exists ws,
      computeWindows
        (filterSignalsByDateRange (getAllSignals ex_runtime true)
           (Some 0%Z) (Some 86400000%Z))
        (Some 0%Z) (Some 86400000%Z) DEFAULT_WINDOW_DURATION_MS = Some ws /\
      Z.of_nat (List.length ws) = 12%Z /\
      GET ex_runtime 5 6 ex_request
      = Some {| http_status := 200;
                body := DataBody
                  {| r_signals :=
                       filterSignalsByDateRange (getAllSignals ex_runtime true)
                         (Some 0%Z) (Some 86400000%Z);
                     r_overlaps :=
                       detectSignalOverlaps
                         (filterSignalsByDateRange
                            (getAllSignals ex_runtime true)
                            (Some 0%Z) (Some 86400000%Z));
                     r_windows := ws;
                     meta := {| queryRange := {| start := Some 0%Z;
                                                 end_ := Some 86400000%Z |};
                                scenarioMode := true;
                                generatedAt := Some 6%Z;
                                disclaimer := DISCLAIMER |} |} |}).
Proof.
  split.
  - destruct (GET_validates_then_answers ex_runtime 5 6 ex_bad_request)
      as [_ [Hbad _]].
    apply Hbad. left. reflexivity.
  - destruct (GET_validates_then_answers ex_runtime 5 6 ex_request)
      as [_ [_ Hok]].
    destruct (Hok 0%Z 86400000%Z eq_refl eq_refl eq_refl)
      as [sigs [ovs [ws [Hans [Hs [_ [_ [Ho [_ [Hws [_ [Hlen _]]]]]]]]]]]].
    subst ovs. subst sigs. exists ws.
    split; [exact Hws|]. split; [exact Hlen|exact Hans].
Defined.

(** C7, as stated, fails: a [start] parameter that is present and empty
    does not parse to a valid date, and yet the handler, which takes the
    time of the request in its place, answers with status 200. *)
Lemma empty_start_is_answered_200 :
  parseDate ex_runtime "" = None /\
  exists data,
    GET ex_runtime 5 6
      {| q_start := Some ""; q_end := None; q_scenario := None |}
    = Some {| http_status := 200; body := DataBody data |}.
Proof.
  split; [reflexivity|]. rewrite GET_by_query_range. cbv zeta.
  change (query_start ex_runtime 5
            {| q_start := Some ""; q_end := None; q_scenario := None |})
    with (Some 5%Z).
  change (query_end ex_runtime 5
            {| q_start := Some ""; q_end := None; q_scenario := None |})
    with (Some 604800005%Z).
  cbn [getTime isNaN orb date_le].
  change (604800005 <=? 5)%Z with false. cbv iota.
  destruct (computeWindows_total
              (filterSignalsByDateRange
                 (getAllSignals ex_runtime
                    (scenario_flag
                       {| q_start := Some ""; q_end := None;
                          q_scenario := None |}))
                 (Some 5%Z) (Some 604800005%Z))
              (Some 5%Z) (Some 604800005%Z) DEFAULT_WINDOW_DURATION_MS)
    as [ws Hws]; [reflexivity|].
  unfold computeWindows_default. rewrite Hws. eexists. reflexivity.
Qed.

(** * Further properties of the engine *)

(** ** The number of windows, and durations that are not positive *)

(** X1.  On a range that is not empty and with a duration that is a
    positive whole number of milliseconds [computeWindows] returns as many windows as the range length divided
    by the duration, rounded up, whatever the signals. *)
Theorem window_count sigs rs re d :
  (rs < re)%Z -> (0 < d)%Z ->
  exists ws,
    computeWindows sigs (Some rs) (Some re) d = Some ws /\
    Z.of_nat (List.length ws) = ((re - rs + d - 1) / d)%Z.
Proof.
  intros Hlt Hd.
  destruct (computeWindows_total sigs (Some rs) (Some re) d Hd) as [ws H].
  exists ws. split; [exact H|].
  apply computeWindows_valid_tiling in H.
  eapply tiling_length; [exact H|exact Hd|lia].
Qed.

Lemma window_count_witness :
  exists ws,
    computeWindows example_signals (Some 0%Z) (Some 10%Z) 4 = Some ws /\
    Z.of_nat (List.length ws) = 3%Z.
Proof.
  apply (window_count example_signals 0 10 4); lia.
Defined.

(** X2.  With a duration that is zero or a negative whole number of
    milliseconds, on a range that is not empty, the loop of [computeWindows] never comes to its end:
    whatever the number of iterations allowed, the loop condition still
    holds, and no list is returned. *)
Theorem nonpositive_duration_never_returns sigs rs re d :
  (d <= 0)%Z -> (rs < re)%Z ->
  (forall fuel idx acc,
      computeWindows_loop fuel sigs (Some re) d (Some rs) idx acc = None) /\
  computeWindows sigs (Some rs) (Some re) d = None.
Proof.
  intros Hd Hlt. split.
  - intros fuel idx acc. apply loop_diverges; assumption.
  - unfold computeWindows, newDate, getTime. apply loop_diverges; assumption.
Qed.

Lemma nonpositive_duration_never_returns_witness :
  computeWindows_loop 1000 example_signals (Some 10%Z) 0 (Some 0%Z) 0 []
  = None /\
  computeWindows example_signals (Some 0%Z) (Some 10%Z) (-4) = None.
Proof.
  split.
  - apply (nonpositive_duration_never_returns example_signals 0 10 0); lia.
  - apply (nonpositive_duration_never_returns example_signals 0 10 (-4)); lia.
Defined.

(** ** Filtering to the range before computing the windows *)

Lemma overlapping_is_in_range s a b cs ce :
  (a <= cs)%Z -> (ce <= b)%Z ->
  date_lt (start (timeRange s)) (Some ce)
  && date_gt (end_ (timeRange s)) (Some cs) = true ->
  date_le (start (timeRange s)) (Some b)
  && date_ge (end_ (timeRange s)) (Some a) = true.
Proof.
  intros Ha Hb H. apply andb_true_iff in H. destruct H as [H1 H2].
  unfold date_gt, date_ge in *.
  destruct (start (timeRange s)) as [x|]; [|discriminate].
  destruct (end_ (timeRange s)) as [y|]; [|discriminate].
  simpl in *. apply Z.ltb_lt in H1, H2.
  apply andb_true_iff. split; apply Z.leb_le; lia.
Qed.

Lemma filter_of_wider_filter {A : Type} (p q : A -> bool) l :
  (forall x, p x = true -> q x = true) ->
  filter p (filter q l) = filter p l.
Proof.
  intros Hpq. induction l as [|x r IH]; [reflexivity|].
  cbn [filter]. destruct (q x) eqn:Eq.
  - cbn [filter]. rewrite IH. reflexivity.
  - destruct (p x) eqn:Ep; [|exact IH].
    apply Hpq in Ep. congruence.
Qed.

Lemma findOverlaps_prefilter sigs a b cs ce :
  (a <= cs)%Z -> (ce <= b)%Z ->
  findOverlaps (filterSignalsByDateRange sigs (Some a) (Some b))
    (Some cs) (Some ce)
  = findOverlaps sigs (Some cs) (Some ce).
Proof.
  intros Ha Hb. unfold findOverlaps, filterSignalsByDateRange.
  apply filter_of_wider_filter. intros s.
  apply overlapping_is_in_range; assumption.
Qed.

Lemma window_at_prefilter sigs a b i cs ce :
  (a <= cs)%Z -> (ce <= b)%Z ->
  window_at (filterSignalsByDateRange sigs (Some a) (Some b)) i cs ce
  = window_at sigs i cs ce.
Proof.
  intros Ha Hb. unfold window_at.
  rewrite (findOverlaps_prefilter _ _ _ _ _ Ha Hb). reflexivity.
Qed.

Lemma loop_prefilter sigs a b d fuel :
  (0 < d)%Z ->
  forall cs idx acc,
    (a <= cs)%Z ->
    computeWindows_loop fuel
      (filterSignalsByDateRange sigs (Some a) (Some b))
      (Some b) d (Some cs) idx acc
    = computeWindows_loop fuel sigs (Some b) d (Some cs) idx acc.
Proof.
  intros Hd. induction fuel as [|fuel IH]; intros cs idx acc Ha.
  - reflexivity.
  - destruct (Z.lt_ge_cases cs b) as [Hlt|Hge].
    + rewrite !loop_step by exact Hlt.
      rewrite window_at_prefilter by lia. apply IH. lia.
    + rewrite !loop_done by (simpl; apply Z.ltb_ge; exact Hge).
      reflexivity.
Qed.

(** X3.  Filtering the signals to the range, as the route handler and
    the planner do before they compute the windows, changes nothing:
    [computeWindows] gives the same outcome on the filtered signals as
    on all the signals. *)
Theorem prefilter_keeps_windows sigs rs re d :
  computeWindows (filterSignalsByDateRange sigs rs re) rs re d
  = computeWindows sigs rs re d.
Proof.
  destruct (date_lt rs re) eqn:E.
  - destruct rs as [a|]; [|discriminate]. destruct re as [b|]; [|discriminate].
    simpl in E. apply Z.ltb_lt in E.
    destruct (Z.lt_ge_cases 0 d) as [Hd|Hd].
    + unfold computeWindows, newDate, getTime.
      apply loop_prefilter; [exact Hd|lia].
    + unfold computeWindows, newDate, getTime.
      rewrite !loop_diverges by assumption. reflexivity.
  - rewrite !computeWindows_empty by exact E. reflexivity.
Qed.

(** ** More signals never make a window safer *)

Lemma weighted_sum_app l1 l2 :
  (weighted_sum (l1 ++ l2) == weighted_sum l1 + weighted_sum l2)%Q.
Proof.
  induction l1 as [|s l1 IH]; simpl.
  - rewrite Qplus_0_l. reflexivity.
  - rewrite IH, Qplus_assoc. reflexivity.
Qed.

Lemma findOverlaps_app l1 l2 a b :
  findOverlaps (l1 ++ l2) a b
  = (findOverlaps l1 a b ++ findOverlaps l2 a b)%list.
Proof. unfold findOverlaps. apply filter_app. Qed.

Lemma getStatusFromScore_mono q q' :
  (q <= q')%Q ->
  (status_rank (getStatusFromScore q)
   <= status_rank (getStatusFromScore q'))%Z.
Proof.
  intros Hle. unfold getStatusFromScore. simpl.
  destruct (Qle_bool q 20) eqn:E1, (Qle_bool q' 20) eqn:E1';
    destruct (Qle_bool q 50) eqn:E2, (Qle_bool q' 50) eqn:E2';
    simpl; try lia; exfalso;
    repeat match goal with
      | H : Qle_bool _ _ = true |- _ => apply Qle_bool_iff in H
      | H : Qle_bool ?x ?y = false |- _ =>
          assert (y < x)%Q
            by (apply Qnot_le_lt; intros Hc; apply Qle_bool_iff in Hc;
                congruence);
          clear H
      end; lra.
Qed.

Lemma window_at_more_signals sigs1 extra sigs2 i cs ce :
  (score (window_at (sigs1 ++ sigs2) i cs ce)
   <= score (window_at (sigs1 ++ extra ++ sigs2) i cs ce))%Q /\
  (status_rank (status (window_at (sigs1 ++ sigs2) i cs ce))
   <= status_rank (status (window_at (sigs1 ++ extra ++ sigs2) i cs ce)))%Z.
Proof.
  assert (H : (score (window_at (sigs1 ++ sigs2) i cs ce)
               <= score (window_at (sigs1 ++ extra ++ sigs2) i cs ce))%Q).
  { rewrite !window_at_score, !findOverlaps_app, !weighted_sum_app.
    apply Q.min_le_compat_l.
    pose proof (weighted_sum_nonneg (findOverlaps extra (Some cs) (Some ce))).
    lra. }
  split; [exact H|]. apply getStatusFromScore_mono. exact H.
Qed.

(** X4.  Adding signals, anywhere in the list, never makes a window
    safer: the call with the added signals returns as many windows,
    with the same bounds, and each has a score and a status at least as
    high as before. *)
Theorem more_signals_never_safer sigs1 extra sigs2 rs re d ws :
  computeWindows (sigs1 ++ sigs2) rs re d = Some ws ->
  exists ws',
    computeWindows (sigs1 ++ extra ++ sigs2) rs re d = Some ws' /\
    List.length ws' = List.length ws /\
    forall i w w',
      nth_error ws i = Some w -> nth_error ws' i = Some w' ->
      w_timeRange w' = w_timeRange w /\
      (score w <= score w')%Q /\
      (status_rank (status w) <= status_rank (status w'))%Z.
Proof.
  intros H. destruct (date_lt rs re) eqn:E.
  2:{ rewrite computeWindows_empty in H by exact E. injection H as <-.
      exists []. split; [apply computeWindows_empty; exact E|].
      split; [reflexivity|]. intros i w w' Hi. destruct i; discriminate. }
  destruct rs as [a|]; [|discriminate]. destruct re as [b|]; [|discriminate].
  pose proof (computeWindows_valid_tiling _ _ _ _ _ H) as Ht.
  destruct (tiling_other_signals _ (sigs1 ++ extra ++ sigs2) _ _ _ _ _ Ht)
    as [ws' [Ht' Hl]].
  exists ws'. split; [apply tiling_computeWindows; exact Ht'|].
  split; [exact Hl|]. intros i w w' Hi Hi'.
  destruct (tiling_nth _ _ _ _ _ _ Ht i w Hi) as [_ [_ ->]].
  destruct (tiling_nth _ _ _ _ _ _ Ht' i w' Hi') as [_ [_ ->]].
  split; [reflexivity|]. apply window_at_more_signals.
Qed.

Lemma more_signals_never_safer_witness :
  (score (window_at example_signals 2 8 10)
   <= score (window_at (touching_signal :: example_signals) 2 8 10))%Q /\
  (status_rank (status (window_at example_signals 2 8 10))
   <= status_rank
        (status (window_at (touching_signal :: example_signals) 2 8 10)))%Z.
Proof.
  destruct (more_signals_never_safer [] [touching_signal] example_signals
              (Some 0%Z) (Some 10%Z) 4 example_windows eq_refl)
    as [ws' [H [_ Hcmp]]].
  assert (E : Some ws'
              = Some [window_at (touching_signal :: example_signals) 0 0 4;
                      window_at (touching_signal :: example_signals) 1 4 8;
                      window_at (touching_signal :: example_signals) 2 8 10])
    by (rewrite <- H; reflexivity).
  injection E as ->.
  destruct (Hcmp 2%nat (window_at example_signals 2 8 10)
              (window_at (touching_signal :: example_signals) 2 8 10)
              eq_refl eq_refl) as [_ Hle].
  exact Hle.
Defined.

(** ** Lookups in the list of windows *)

Lemma find_first {A : Type} (p : A -> bool) l :
  forall i x,
    nth_error l i = Some x -> p x = true ->
    (forall j y, (j < i)%nat -> nth_error l j = Some y -> p y = false) ->
    find p l = Some x.
Proof.
  induction l as [|y l IH]; intros i x Hi Hp Hbefore.
  - destruct i; discriminate.
  - destruct i as [|i].
    + injection Hi as ->. simpl. rewrite Hp. reflexivity.
    + simpl. rewrite (Hbefore 0%nat y) by (simpl; (lia || reflexivity)).
      apply (IH i); [exact Hi|exact Hp|].
      intros j z Hj Hz. apply (Hbefore (S j) z); [lia|exact Hz].
Qed.

Lemma find_nowhere {A : Type} (p : A -> bool) l :
  (forall x, In x l -> p x = false) -> find p l = None.
Proof.
  induction l as [|y l IH]; intros H; [reflexivity|].
  simpl. rewrite (H y) by (left; reflexivity).
  apply IH. intros x Hx. apply H. right. exact Hx.
Qed.

Lemma numberToString_inj n m :
  numberToString n = numberToString m -> n = m.
Proof.
  unfold numberToString. intros H.
  assert (Hnil : forall z, Z.to_int z <> Decimal.Pos Decimal.Nil
                           /\ Z.to_int z <> Decimal.Neg Decimal.Nil).
  { intros [|p|p]; simpl; split; try discriminate;
      intros E; injection E as E;
      exact (Unsigned.to_uint_nonnil p E). }
  apply (f_equal NilZero.int_of_string) in H.
  rewrite !NilZero.isi in H by apply Hnil.
  injection H as H. apply DecimalZ.to_int_inj. exact H.
Qed.

Lemma window_id_inj n m :
  "window-" ++ numberToString n = "window-" ++ numberToString m -> n = m.
Proof.
  simpl. intros H. injection H as H. apply numberToString_inj. exact H.
Qed.

(** X5.  The windows [computeWindows] returns are numbered by their
    position: the window at position [i] has the identifier window-i,
    no two windows have the same identifier, and the planner page, which
    looks a window up by its identifier, finds the window itself. *)
Theorem windows_found_by_id sigs rs re d ws :
  computeWindows sigs rs re d = Some ws ->
  (forall i w,
      nth_error ws i = Some w ->
      w_id w = "window-" ++ numberToString (Z.of_nat i)) /\
  NoDup (map w_id ws) /\
  (forall data i w,
      r_windows data = ws -> nth_error ws i = Some w ->
      selectedWindowData (Some data) (Some (w_id w)) = Some w).
Proof.
  intros H.
  assert (Hid : forall i w, nth_error ws i = Some w ->
                  w_id w = "window-" ++ numberToString (Z.of_nat i)).
  { intros i w Hi.
    destruct (computeWindows_nth _ _ _ _ _ _ _ H Hi)
      as [a [b [_ [_ [_ [_ [_ ->]]]]]]]. reflexivity. }
  assert (Hinj : forall i j w w',
            nth_error ws i = Some w -> nth_error ws j = Some w' ->
            w_id w = w_id w' -> i = j).
  { intros i j w w' Hi Hj E.
    rewrite (Hid _ _ Hi), (Hid _ _ Hj) in E.
    apply window_id_inj in E. lia. }
  split; [exact Hid|]. split.
  - apply NoDup_nth_error. intros i j Hi E.
    rewrite length_map in Hi. rewrite !nth_error_map in E.
    destruct (nth_error ws i) as [w|] eqn:Ei.
    2:{ apply nth_error_None in Ei. lia. }
    destruct (nth_error ws j) as [w'|] eqn:Ej; [|discriminate].
    simpl in E. injection E as E. eapply Hinj; eassumption.
  - intros data i w Hd Hi. unfold selectedWindowData. rewrite Hd.
    apply (find_first _ _ i); [exact Hi|apply String.eqb_refl|].
    intros j y Hj Hy. apply String.eqb_neq. intros E.
    assert (j = i) by (eapply Hinj; eassumption). lia.
Qed.

Lemma windows_found_by_id_witness :
  selectedWindowData (Some (response_of example_windows))
    (Some "window-1")
  = Some (window_at example_signals 1 4 8).
Proof.
  destruct (windows_found_by_id example_signals (Some 0%Z) (Some 10%Z) 4
              example_windows eq_refl) as [_ [_ Hsel]].
  exact (Hsel (response_of example_windows) 1%nat
           (window_at example_signals 1 4 8) eq_refl eq_refl).
Defined.

Lemma holds_instant_window_at sigs i cs ce t :
  holds_instant (window_at sigs i cs ce) t = true <-> (cs <= t < ce)%Z.
Proof.
  unfold holds_instant, date_ge. simpl.
  rewrite andb_true_iff, Z.leb_le, Z.ltb_lt. reflexivity.
Qed.

(** X6.  On a range that is not empty and with a duration that is a
    positive whole number of milliseconds, every instant of the range, its end excluded, lies in exactly one
    window: the one whose position is the quotient of the distance to
    the start of the range by the duration; the overview page finds that
    window as the current window.  For an instant outside the range the
    page finds no current window. *)
Theorem instant_in_one_window sigs rs re d t :
  (rs < re)%Z -> (0 < d)%Z ->
  exists ws,
    computeWindows sigs (Some rs) (Some re) d = Some ws /\
    ((rs <= t < re)%Z ->
     exists w,
       nth_error ws (Z.to_nat ((t - rs) / d)) = Some w /\
       holds_instant w t = true /\
       (forall j w', nth_error ws j = Some w' -> holds_instant w' t = true ->
                     j = Z.to_nat ((t - rs) / d)) /\
       (forall data, r_windows data = ws ->
                     currentWindow (Some data) (Some t) = Some w)) /\
    ((t < rs \/ re <= t)%Z ->
     forall data, r_windows data = ws ->
                  currentWindow (Some data) (Some t) = None).
Proof.
  intros Hlt Hd.
  destruct (computeWindows_total sigs (Some rs) (Some re) d Hd) as [ws H].
  exists ws. split; [exact H|].
  pose proof (computeWindows_valid_tiling _ _ _ _ _ H) as Ht.
  pose proof (tiling_length _ _ _ _ _ _ Ht Hd ltac:(lia)) as Hlen.
  assert (Hnth : forall j w', nth_error ws j = Some w' ->
            (rs + d * Z.of_nat j < re)%Z /\
            w' = window_at sigs (0 + Z.of_nat j) (rs + d * Z.of_nat j)
                   (Z.min (rs + d * (Z.of_nat j + 1)) re)).
  { intros j w' Hj. destruct (tiling_nth _ _ _ _ _ _ Ht j w' Hj) as [_ Hw].
    exact Hw. }
  assert (Huniq : forall j w', nth_error ws j = Some w' ->
            holds_instant w' t = true -> j = Z.to_nat ((t - rs) / d)).
  { intros j w' Hj Hh. destruct (Hnth _ _ Hj) as [Hb ->].
    apply holds_instant_window_at in Hh.
    assert (E : Z.of_nat j = ((t - rs) / d)%Z).
    { apply (Z.div_unique_pos (t - rs) d (Z.of_nat j)
               (t - rs - d * Z.of_nat j)); lia. }
    lia. }
  split.
  - intros Hin. set (q := ((t - rs) / d)%Z).
    assert (Hq0 : (0 <= q)%Z) by (apply Z.div_pos; lia).
    assert (Hq1 : (d * q <= t - rs)%Z) by (apply Z.mul_div_le; lia).
    assert (Hq2 : (t - rs < d * (q + 1))%Z).
    { pose proof (Z.mul_succ_div_gt (t - rs) d Hd). unfold q. lia. }
    assert (Hq3 : (q < Z.of_nat (List.length ws))%Z).
    { rewrite Hlen.
      replace (re - rs + d - 1)%Z with ((re - rs - 1) + 1 * d)%Z by lia.
      rewrite Z.div_add by lia.
      assert (q <= (re - rs - 1) / d)%Z
        by (apply Z.div_le_mono; lia).
      lia. }
    destruct (nth_error ws (Z.to_nat q)) as [w|] eqn:Ew.
    2:{ apply nth_error_None in Ew. lia. }
    exists w. split; [reflexivity|].
    assert (Hh : holds_instant w t = true).
    { destruct (Hnth _ _ Ew) as [Hb ->].
      apply holds_instant_window_at. rewrite Z2Nat.id by lia. lia. }
    split; [exact Hh|]. split; [exact Huniq|].
    intros data Hdata. unfold currentWindow. rewrite Hdata.
    apply (find_first _ _ (Z.to_nat q)); [exact Ew|exact Hh|].
    intros j y Hj Hy.
    destruct (holds_instant y t) eqn:Ey; [|exact Ey].
    pose proof (Huniq _ _ Hy Ey) as Hjq. fold q in Hjq. lia.
  - intros Hout data Hdata. unfold currentWindow. rewrite Hdata.
    apply find_nowhere. intros w Hw.
    apply In_nth_error in Hw. destruct Hw as [j Hj].
    destruct (Hnth _ _ Hj) as [Hb ->].
    fold (holds_instant (window_at sigs (0 + Z.of_nat j)
            (rs + d * Z.of_nat j) (Z.min (rs + d * (Z.of_nat j + 1)) re)) t).
    apply not_true_is_false. intros Hh.
    apply holds_instant_window_at in Hh. nia.
Qed.

Lemma instant_in_one_window_witness :
  exists ws,
    computeWindows example_signals (Some 0%Z) (Some 10%Z) 4 = Some ws /\
    (exists w,
        nth_error ws 1 = Some w /\ holds_instant w 5 = true) /\
    (forall data, r_windows data = ws ->
                  currentWindow (Some data) (Some 10%Z) = None).
Proof.
  destruct (instant_in_one_window example_signals 0 10 4 5
              ltac:(lia) ltac:(lia)) as [ws [Hws [Hin _]]].
  destruct (instant_in_one_window example_signals 0 10 4 10
              ltac:(lia) ltac:(lia)) as [ws' [Hws' [_ Hout]]].
  exists ws. split; [exact Hws|]. split.
  - destruct (Hin ltac:(lia)) as [w [Hw [Hh _]]].
    exists w. split; assumption.
  - rewrite Hws in Hws'. injection Hws' as <-.
    apply Hout. right. lia.
Defined.

(** ** More on the overlap detector *)

Lemma overlaps_from_In a rest o :
  In o (overlaps_from a rest) ->
  exists b, In b rest /\ intersects a b = true /\ o = overlap_of a b.
Proof.
  induction rest as [|b r IH]; simpl; [contradiction|].
  rewrite in_app_iff. intros [H|H].
  - destruct (intersects a b) eqn:E; [|contradiction].
    destruct H as [<-|[]]. exists b. repeat split; auto.
  - destruct (IH H) as [y [Hy Ho]]. exists y. split; [right; exact Hy|exact Ho].
Qed.

Lemma pair_overlaps_In l o :
  In o (pair_overlaps l) ->
  exists a b,
    In a l /\ In b l /\ intersects a b = true /\ o = overlap_of a b.
Proof.
  induction l as [|a r IH]; simpl; [contradiction|].
  rewrite in_app_iff. intros [H|H].
  - apply overlaps_from_In in H. destruct H as [b [Hb Ho]].
    exists a, b. split; [left; reflexivity|]. split; [right; exact Hb|exact Ho].
  - destruct (IH H) as [x [y [Hx [Hy Ho]]]].
    exists x, y. split; [right; exact Hx|]. split; [right; exact Hy|exact Ho].
Qed.

(** X7.  When every signal of medium or high impact has valid bounds
    with its start before its end, every overlap [detectSignalOverlaps]
    returns has valid bounds with its start before its end, and lies
    within the range of each of its two signals. *)
Theorem overlaps_of_well_formed sigs :
  (forall s, In s sigs -> significant s = true -> well_formed s) ->
  forall o,
    In o (detectSignalOverlaps sigs) ->
    exists a b,
      o_timeRange o = {| start := Some a; end_ := Some b |} /\
      (a < b)%Z /\
      forall s, In s (signals o) ->
        exists sa sb,
          timeRange s = {| start := Some sa; end_ := Some sb |} /\
          (sa <= a)%Z /\ (b <= sb)%Z.
Proof.
  intros Hwf o Ho. rewrite detectSignalOverlaps_pairs in Ho.
  apply pair_overlaps_In in Ho.
  destruct Ho as [x [y [Hx [Hy [Hint ->]]]]].
  apply filter_In in Hx, Hy.
  destruct (Hwf x (proj1 Hx) (proj2 Hx)) as [xa [xb [Ex Hxl]]].
  destruct (Hwf y (proj1 Hy) (proj2 Hy)) as [ya [yb [Ey Hyl]]].
  unfold intersects, date_gt in Hint. rewrite Ex, Ey in Hint. simpl in Hint.
  apply andb_true_iff in Hint. destruct Hint as [H1 H2].
  apply Z.ltb_lt in H1, H2.
  exists (Z.max xa ya), (Z.min xb yb).
  split; [unfold overlap_of; simpl; rewrite Ex, Ey; reflexivity|].
  split; [lia|].
  intros s [<-|[<-|[]]].
  - exists xa, xb. split; [exact Ex|lia].
  - exists ya, yb. split; [exact Ey|lia].
Qed.

Lemma overlaps_of_well_formed_witness :
  exists a b,
    o_timeRange (overlap_of (mkSig "a" "A" sanitation 1 3 high low)
                            (mkSig "b" "B" publicEvent 2 9 medium medium))
    = {| start := Some a; end_ := Some b |} /\ (a < b)%Z.
Proof.
  destruct (overlaps_of_well_formed example_signals) with
    (o := overlap_of (mkSig "a" "A" sanitation 1 3 high low)
                     (mkSig "b" "B" publicEvent 2 9 medium medium))
    as [a [b [E [Hlt _]]]].
  - intros s [<-|[<-|[<-|[]]]] _.
    + exists 1%Z, 3%Z. split; [reflexivity|lia].
    + exists 2%Z, 9%Z. split; [reflexivity|lia].
    + exists 0%Z, 4%Z. split; [reflexivity|lia].
  - left. reflexivity.
  - exists a, b. split; assumption.
Defined.

Lemma overlaps_from_length a rest :
  (List.length (overlaps_from a rest) <= List.length rest)%nat.
Proof.
  induction rest as [|b r IH]; simpl; [lia|].
  rewrite length_app. destruct (intersects a b); simpl; lia.
Qed.

Lemma pair_overlaps_length l :
  (2 * List.length (pair_overlaps l)
   <= List.length l * (List.length l - 1))%nat.
Proof.
  induction l as [|a r IH]; simpl; [lia|].
  rewrite length_app. pose proof (overlaps_from_length a r).
  rewrite Nat.sub_0_r. nia.
Qed.

(** X8.  Among [n] signals of medium or high impact there are at most
    [n (n - 1) / 2] overlaps, and none when there are fewer than two
    such signals. *)
Theorem overlaps_at_most_pairs sigs :
  (2 * List.length (detectSignalOverlaps sigs)
   <= List.length (filter significant sigs)
      * (List.length (filter significant sigs) - 1))%nat /\
  ((List.length (filter significant sigs) <= 1)%nat ->
   detectSignalOverlaps sigs = []).
Proof.
  rewrite detectSignalOverlaps_pairs.
  pose proof (pair_overlaps_length (filter significant sigs)) as H.
  split; [exact H|]. intros Hn.
  destruct (pair_overlaps (filter significant sigs)); [reflexivity|].
  simpl in H. nia.
Qed.

Lemma overlaps_at_most_pairs_witness :
  detectSignalOverlaps [mkSig "a" "A" sanitation 1 3 high low;
                        mkSig "c" "C" custom 0 4 low high] = [].
Proof.
  apply (overlaps_at_most_pairs
           [mkSig "a" "A" sanitation 1 3 high low;
            mkSig "c" "C" custom 0 4 low high]).
  simpl. lia.
Defined.

(** X9.  A signal of low impact plays no part in the detection of
    overlaps: with it or without it, wherever it stands in the list,
    [detectSignalOverlaps] returns the same overlaps. *)
Theorem low_impact_is_ignored sigs1 s sigs2 :
  impactLevel s = low ->
  detectSignalOverlaps (sigs1 ++ s :: sigs2)
  = detectSignalOverlaps (sigs1 ++ sigs2).
Proof.
  intros Hlow. rewrite !detectSignalOverlaps_pairs, !filter_app. simpl.
  unfold significant at 2. rewrite Hlow. reflexivity.
Qed.

Lemma low_impact_is_ignored_witness :
  detectSignalOverlaps
    ([mkSig "a" "A" sanitation 1 3 high low]
     ++ mkSig "c" "C" custom 0 4 low high
     :: [mkSig "b" "B" publicEvent 2 9 medium medium])
  = detectSignalOverlaps
      ([mkSig "a" "A" sanitation 1 3 high low]
       ++ [mkSig "b" "B" publicEvent 2 9 medium medium]).
Proof.
  apply low_impact_is_ignored. reflexivity.
Defined.

(** ** Fewer signals, fewer overlaps *)

Lemma overlaps_from_complete a rest b :
  In b rest -> intersects a b = true ->
  In (overlap_of a b) (overlaps_from a rest).
Proof.
  induction rest as [|y r IH]; simpl; [contradiction|].
  intros [->|Hb] Hint; rewrite in_app_iff.
  - left. rewrite Hint. left. reflexivity.
  - right. apply IH; assumption.
Qed.

Lemma pair_overlaps_subseq l l' :
  subseq l l' -> forall o, In o (pair_overlaps l) -> In o (pair_overlaps l').
Proof.
  induction 1 as [l'|x l l' Hs IH|x l l' Hs IH]; intros o Ho.
  - contradiction.
  - simpl. rewrite in_app_iff. right. apply IH. exact Ho.
  - simpl in *. rewrite in_app_iff in *. destruct Ho as [Ho|Ho].
    + left. apply overlaps_from_In in Ho.
      destruct Ho as [b [Hb [Hint ->]]].
      apply overlaps_from_complete; [|exact Hint].
      eapply subseq_In; eassumption.
    + right. apply IH. exact Ho.
Qed.

(** X10.  Leaving signals out never brings in an overlap: the overlaps
    detected in a list from which signals were left out are all
    detected in the whole list.  So are the overlaps detected among the
    signals filtered to a date range, and those detected among the
    high-impact signals, which are all of high combined impact. *)
Theorem fewer_signals_fewer_overlaps sigs :
  (forall sigs' o,
      subseq sigs' sigs ->
      In o (detectSignalOverlaps sigs') -> In o (detectSignalOverlaps sigs)) /\
  (forall a b o,
      In o (detectSignalOverlaps (filterSignalsByDateRange sigs a b)) ->
      In o (detectSignalOverlaps sigs)) /\
  (forall o,
      In o (detectSignalOverlaps (getHighImpactSignals sigs)) ->
      In o (detectSignalOverlaps sigs) /\ combinedImpact o = high).
Proof.
  assert (Hsub : forall sigs' o, subseq sigs' sigs ->
            In o (detectSignalOverlaps sigs') ->
            In o (detectSignalOverlaps sigs)).
  { intros sigs' o Hs. rewrite !detectSignalOverlaps_pairs.
    apply pair_overlaps_subseq. apply subseq_filter. exact Hs. }
  split; [exact Hsub|]. split.
  - intros a b o. apply Hsub. apply filter_subseq.
  - intros o Ho. split; [exact (Hsub _ o (filter_subseq _ _) Ho)|].
    rewrite detectSignalOverlaps_pairs in Ho. apply pair_overlaps_In in Ho.
    destruct Ho as [x [y [Hx [_ [_ ->]]]]].
    apply filter_In in Hx. destruct Hx as [Hx _].
    apply filter_In in Hx. destruct Hx as [_ Hx].
    unfold overlap_of. simpl. rewrite Hx. reflexivity.
Qed.

Lemma fewer_signals_fewer_overlaps_witness :
  In (overlap_of (mkSig "a" "A" sanitation 1 3 high low)
                 (mkSig "b" "B" publicEvent 2 9 medium medium))
     (detectSignalOverlaps example_signals).
Proof.
  destruct (fewer_signals_fewer_overlaps example_signals) as [_ [Hf _]].
  apply (Hf (Some 0%Z) (Some 3%Z)). left. reflexivity.
Defined.

(** ** Filters and groups of signals *)

(** X11.  Filtering to a date range and then to a range inside it gives
    what filtering to the inner range gives at once. *)
Theorem filter_then_narrow sigs a b a' b' :
  (a <= a')%Z -> (b' <= b)%Z ->
  filterSignalsByDateRange
    (filterSignalsByDateRange sigs (Some a) (Some b)) (Some a') (Some b')
  = filterSignalsByDateRange sigs (Some a') (Some b').
Proof.
  intros Ha Hb. unfold filterSignalsByDateRange.
  apply filter_of_wider_filter. intros s H.
  apply andb_true_iff in H. destruct H as [H1 H2]. unfold date_ge in *.
  destruct (start (timeRange s)) as [x|]; [|discriminate].
  destruct (end_ (timeRange s)) as [y|]; [|discriminate].
  simpl in *. apply Z.leb_le in H1, H2.
  apply andb_true_iff. split; apply Z.leb_le; lia.
Qed.

Lemma filter_then_narrow_witness :
  filterSignalsByDateRange
    (filterSignalsByDateRange example_signals (Some 0%Z) (Some 10%Z))
    (Some 4%Z) (Some 8%Z)
  = filterSignalsByDateRange example_signals (Some 4%Z) (Some 8%Z).
Proof.
  apply filter_then_narrow; lia.
Defined.

Lemma groupSignalsByType_loop sigs :
  forall (g : SignalType -> list Signal) t,
    fold_left (fun (grouped : SignalType -> list Signal) signal =>
      fun t =>
        if signalType_eqb t (signalType signal) then push (grouped t) signal
        else grouped t) sigs g t
    = (g t ++ filter (fun s => signalType_eqb t (signalType s)) sigs)%list.
Proof.
  induction sigs as [|s r IH]; intros g t; simpl.
  - rewrite app_nil_r. reflexivity.
  - rewrite IH. destruct (signalType_eqb t (signalType s)).
    + unfold push. rewrite <- app_assoc. reflexivity.
    + reflexivity.
Qed.

Lemma signalType_eqb_eq a b : signalType_eqb a b = true <-> a = b.
Proof. destruct a, b; simpl; split; congruence. Qed.

Lemma filter_by_type_lengths sigs :
  fold_right
    (fun t n =>
       (List.length (filter (fun s => signalType_eqb t (signalType s)) sigs)
        + n)%nat)
    0%nat all_signalTypes
  = List.length sigs.
Proof.
  simpl. induction sigs as [|s r IH]; [reflexivity|].
  simpl. destruct (signalType s); simpl; rewrite <- IH; lia.
Qed.

(** X12.  [groupSignalsByType] puts every signal in the group of its
    type and nowhere else, keeps the order of the input within a group,
    and the sizes of the eight groups add up to the number of
    signals. *)
Theorem groups_partition_signals sigs :
  (forall t,
      groupSignalsByType sigs t
      = filter (fun s => signalType_eqb t (signalType s)) sigs) /\
  (forall t s,
      In s (groupSignalsByType sigs t) <-> In s sigs /\ signalType s = t) /\
  fold_right (fun t n => (List.length (groupSignalsByType sigs t) + n)%nat)
             0%nat all_signalTypes
  = List.length sigs.
Proof.
  assert (H : forall t,
            groupSignalsByType sigs t
            = filter (fun s => signalType_eqb t (signalType s)) sigs).
  { intros t. unfold groupSignalsByType.
    rewrite groupSignalsByType_loop. reflexivity. }
  split; [exact H|]. split.
  - intros t s. rewrite H, filter_In, signalType_eqb_eq.
    split; intros [H1 H2]; split; congruence.
  - rewrite <- (filter_by_type_lengths sigs). simpl. rewrite !H.
    reflexivity.
Qed.

Lemma groups_partition_signals_witness :
  groupSignalsByType example_signals custom
  = [mkSig "c" "C" custom 0 4 low high] /\
  In (mkSig "a" "A" sanitation 1 3 high low)
     (groupSignalsByType example_signals sanitation).
Proof.
  destruct (groups_partition_signals example_signals) as [Hg [Hin _]].
  split.
  - rewrite Hg. reflexivity.
  - apply Hin. split; [left; reflexivity|reflexivity].
Defined.

(** ** The summary of a list of windows *)

Lemma status_count_total (ws : list OutreachWindow) :
  (List.length (filter (fun w => status_eqb (status w) safer) ws)
   + List.length (filter (fun w => status_eqb (status w) caution) ws)
   + List.length (filter (fun w => status_eqb (status w) avoid) ws)
   = List.length ws)%nat.
Proof.
  induction ws as [|w r IH]; [reflexivity|].
  simpl. destruct (status w); simpl; lia.
Qed.

Lemma windowCounts_loop ws :
  forall acc,
    fold_left (fun acc w =>
      match status w with
      | safer => {| c_safer := c_safer acc + 1;
                    c_caution := c_caution acc;
                    c_avoid := c_avoid acc |}
      | caution => {| c_safer := c_safer acc;
                      c_caution := c_caution acc + 1;
                      c_avoid := c_avoid acc |}
      | avoid => {| c_safer := c_safer acc;
                    c_caution := c_caution acc;
                    c_avoid := c_avoid acc + 1 |}
      end)%Z ws acc
    = {| c_safer :=
           c_safer acc
           + Z.of_nat (List.length
               (filter (fun w => status_eqb (status w) safer) ws));
         c_caution :=
           c_caution acc
           + Z.of_nat (List.length
               (filter (fun w => status_eqb (status w) caution) ws));
         c_avoid :=
           c_avoid acc
           + Z.of_nat (List.length
               (filter (fun w => status_eqb (status w) avoid) ws)) |}%Z.
Proof.
  induction ws as [|w r IH]; intros [s c a]; simpl.
  - f_equal; lia.
  - rewrite IH. destruct (status w); simpl; f_equal; lia.
Qed.

(** X13.  In the summary of a list of windows the three counts by status
    add up to the total, which is the number of windows; the counts are
    those the overview page computes by its own loop; and the summary of
    the empty list is all zeros. *)
Theorem summary_counts windows :
  (s_safer (getWindowSummary windows) + s_caution (getWindowSummary windows)
   + s_avoid (getWindowSummary windows)
   = s_total (getWindowSummary windows))%Z /\
  s_total (getWindowSummary windows) = Z.of_nat (List.length windows) /\
  (forall data,
      r_windows data = windows ->
      windowCounts (Some data)
      = {| c_safer := s_safer (getWindowSummary windows);
           c_caution := s_caution (getWindowSummary windows);
           c_avoid := s_avoid (getWindowSummary windows) |}) /\
  getWindowSummary []
  = {| s_total := 0; s_safer := 0; s_caution := 0; s_avoid := 0;
       s_averageScore := 0 |}.
Proof.
  split; [|split; [reflexivity|split; [|reflexivity]]].
  - unfold getWindowSummary. simpl.
    pose proof (status_count_total windows). lia.
  - intros data Hd. unfold windowCounts. rewrite Hd, windowCounts_loop.
    reflexivity.
Qed.

Lemma summary_counts_witness :
  windowCounts (Some (response_of example_windows))
  = {| c_safer := 0; c_caution := 2; c_avoid := 1 |}.
Proof.
  destruct (summary_counts example_windows) as [_ [_ [Hc _]]].
  rewrite (Hc (response_of example_windows) eq_refl). reflexivity.
Defined.

Lemma window_at_score_bounds sigs i cs ce :
  (0 <= score (window_at sigs i cs ce) <= 100)%Q.
Proof.
  rewrite window_at_score. split.
  - apply Q.min_glb; [discriminate|apply weighted_sum_nonneg].
  - apply Q.le_min_l.
Qed.

Lemma score_sum_bounds (ws : list OutreachWindow) :
  (forall w, In w ws -> (0 <= score w <= 100)%Q) ->
  forall a,
    (a <= fold_left (fun sum w => sum + score w) ws a
     <= a + 100 * inject_Z (Z.of_nat (List.length ws)))%Q.
Proof.
  induction ws as [|w r IH]; intros Hb a.
  - simpl. unfold inject_Z. lra.
  - cbn [fold_left List.length].
    assert (Hw : (0 <= score w <= 100)%Q) by (apply Hb; left; reflexivity).
    assert (Hr : forall x, In x r -> (0 <= score x <= 100)%Q)
      by (intros x Hx; apply Hb; right; exact Hx).
    specialize (IH Hr (a + score w)%Q).
    rewrite Nat2Z.inj_succ. unfold Z.succ. rewrite inject_Z_plus.
    change (inject_Z 1) with 1%Q. lra.
Qed.

(** X14.  The average score in the summary of the windows
    [computeWindows] returns is an integer between 0 and 100. *)
Theorem summary_average_between_0_and_100 sigs rs re d ws :
  computeWindows sigs rs re d = Some ws ->
  (0 <= s_averageScore (getWindowSummary ws) <= 100)%Z.
Proof.
  intros H.
  assert (Hb : forall w, In w ws -> (0 <= score w <= 100)%Q).
  { intros w Hin. returned_window H Hin. apply window_at_score_bounds. }
  unfold getWindowSummary. cbn [s_averageScore]. unfold Math_round.
  destruct (Z.of_nat (List.length ws) >? 0)%Z eqn:E.
  - apply Z.gtb_lt in E.
    pose proof (score_sum_bounds ws Hb 0%Q) as Hs.
    set (sum := fold_left (fun sum w => (sum + score w)%Q) ws 0%Q) in *.
    set (n := inject_Z (Z.of_nat (List.length ws))) in *.
    assert (Hn : (0 < n)%Q).
    { unfold n. rewrite <- (Zlt_Qlt 0). exact E. }
    assert (Hq : (0 <= sum / n <= 100)%Q).
    { split.
      - apply Qle_shift_div_l; [exact Hn|]. lra.
      - apply Qle_shift_div_r; [exact Hn|]. lra. }
    split.
    + change 0%Z with (Qfloor 0). apply Qfloor_resp_le. lra.
    + change 100%Z with (Qfloor (100 + (1 # 2))). apply Qfloor_resp_le. lra.
  - split; vm_compute; discriminate.
Qed.

Lemma summary_average_between_0_and_100_witness :
  (0 <= s_averageScore (getWindowSummary example_windows) <= 100)%Z.
Proof.
  apply (summary_average_between_0_and_100 example_signals
           (Some 0%Z) (Some 10%Z) 4).
  reflexivity.
Defined.

(** ** The next safer window *)

Lemma first_min_In l m : first_min l = Some m -> In m l.
Proof.
  revert m. induction l as [|x r IH]; intros m H; [discriminate|].
  simpl in H. destruct (first_min r) as [y|].
  - destruct (start_ms x - start_ms y >? 0)%Z; injection H as <-.
    + right. apply IH. reflexivity.
    + left. reflexivity.
  - injection H as <-. left. reflexivity.
Qed.

Lemma first_min_least l m :
  first_min l = Some m ->
  forall w, In w l -> (start_ms m <= start_ms w)%Z.
Proof.
  revert m. induction l as [|x r IH]; intros m H w Hw; [contradiction|].
  simpl in H. destruct (first_min r) as [y|] eqn:Er.
  - specialize (IH y eq_refl).
    destruct (Z.gtb_spec (start_ms x - start_ms y) 0); injection H as <-;
      destruct Hw as [<-|Hw]; try lia.
    + apply IH. exact Hw.
    + specialize (IH w Hw). lia.
  - injection H as <-. destruct Hw as [<-|Hw]; [lia|].
    destruct r; [contradiction|]. simpl in Er.
    destruct (first_min r); [destruct (_ >? _)%Z|]; discriminate.
Qed.

Lemma first_min_none l : first_min l = None -> l = [].
Proof.
  destruct l as [|x r]; [reflexivity|]. simpl.
  destruct (first_min r); [destruct (_ >? _)%Z|]; discriminate.
Qed.

(** The head of the sorted array. *)
Lemma sorted_head (l : list OutreachWindow) :
  (forall w, In w l -> exists t, w_start w = Some t) ->
  nth_error
    (Array_sort (fun a b =>
                   num_sub (getTime (start (w_timeRange a)))
                           (getTime (start (w_timeRange b)))) l) 0
  = first_min l.
Proof.
  induction l as [|x r IH]; intros Hv; [reflexivity|].
  assert (Hr : forall w, In w r -> exists t, w_start w = Some t)
    by (intros w Hw; apply Hv; right; exact Hw).
  specialize (IH Hr). cbn [Array_sort fold_right first_min].
  fold (Array_sort (fun a b =>
                      num_sub (getTime (start (w_timeRange a)))
                              (getTime (start (w_timeRange b)))) r).
  rewrite <- IH.
  destruct (Array_sort _ r) as [|y l'] eqn:Es; [reflexivity|].
  cbn [nth_error sort_insert].
  assert (Hy : In y r) by (apply first_min_In; rewrite <- IH; reflexivity).
  destruct (Hv x (or_introl eq_refl)) as [tx Ex].
  destruct (Hr y Hy) as [ty Ey].
  unfold getTime. unfold w_start in Ex, Ey. rewrite Ex, Ey. simpl.
  unfold start_ms, w_start. rewrite Ex, Ey.
  destruct (tx - ty >? 0)%Z; reflexivity.
Qed.

Lemma future_safer_valid fromTime w :
  future_safer fromTime w = true ->
  status w = safer /\
  exists t f, w_start w = Some t /\ fromTime = Some f /\ (f <= t)%Z.
Proof.
  unfold future_safer, date_ge. intros H.
  apply andb_true_iff in H. destruct H as [H1 H2].
  split; [destruct (status w); (reflexivity || discriminate)|].
  destruct fromTime as [f|]; [|discriminate].
  destruct (w_start w) as [t|]; [|discriminate].
  exists t, f. repeat split. simpl in H1. apply Z.leb_le. exact H1.
Qed.

Lemma findNextSaferWindow_first_min windows fromTime :
  findNextSaferWindow windows fromTime
  = first_min (filter (future_safer fromTime) windows).
Proof.
  unfold findNextSaferWindow.
  change (fun w => date_ge (start (w_timeRange w)) fromTime
                   && status_eqb (status w) safer)
    with (future_safer fromTime).
  destruct (filter (future_safer fromTime) windows) as [|x r] eqn:E.
  - reflexivity.
  - cbn [List.length]. rewrite Nat2Z.inj_succ.
    destruct (Z.eqb_spec (Z.succ (Z.of_nat (List.length r))) 0); [lia|].
    apply sorted_head. intros w Hw. rewrite <- E in Hw.
    apply filter_In in Hw. destruct Hw as [_ Hw].
    apply future_safer_valid in Hw.
    destruct Hw as [_ [t [f [Et _]]]]. exists t. exact Et.
Qed.

(** X15.  [findNextSaferWindow] returns no window exactly when no window
    of the list is safer and starts at the given time or later.
    Otherwise it returns a window of the list that is safer, starts at
    that time or later, and starts no later than any other such
    window. *)
Theorem next_safer_is_earliest windows fromTime :
  (findNextSaferWindow windows fromTime = None <->
   forall w, In w windows -> future_safer fromTime w = false) /\
  (forall w,
      findNextSaferWindow windows fromTime = Some w ->
      In w windows /\ status w = safer /\
      date_ge (w_start w) fromTime = true /\
      forall w',
        In w' windows -> future_safer fromTime w' = true ->
        date_le (w_start w) (w_start w') = true).
Proof.
  rewrite findNextSaferWindow_first_min. split.
  - split.
    + intros H w Hw. apply first_min_none in H.
      destruct (future_safer fromTime w) eqn:E; [|reflexivity].
      assert (Hin : In w (filter (future_safer fromTime) windows))
        by (apply filter_In; split; assumption).
      rewrite H in Hin. contradiction.
    + intros H.
      destruct (first_min (filter (future_safer fromTime) windows))
        as [m|] eqn:E; [|reflexivity].
      apply first_min_In, filter_In in E. destruct E as [Hm Hf].
      rewrite (H m Hm) in Hf. discriminate.
  - intros w H. pose proof (first_min_In _ _ H) as Hin.
    apply filter_In in Hin. destruct Hin as [Hin Hf].
    split; [exact Hin|].
    pose proof (future_safer_valid _ _ Hf) as [Hst [t [f [Et [Ef Hle]]]]].
    split; [exact Hst|]. split.
    + unfold future_safer in Hf. apply andb_true_iff in Hf. apply Hf.
    + intros w' Hin' Hf'.
      pose proof (first_min_least _ _ H w'
                    ltac:(apply filter_In; split; assumption)) as Hleast.
      destruct (future_safer_valid _ _ Hf') as [_ [t' [f' [Et' _]]]].
      unfold start_ms in Hleast. rewrite Et, Et' in *. simpl.
      apply Z.leb_le. exact Hleast.
Qed.

Lemma next_safer_is_earliest_witness :
  findNextSaferWindow
    [window_at [] 1 2 3; window_at example_signals 0 0 4;
     window_at [] 0 0 2] (Some 0%Z) <> None /\
  findNextSaferWindow example_windows (Some 0%Z) = None.
Proof.
  split.
  - intros H.
    destruct (next_safer_is_earliest
                [window_at [] 1 2 3; window_at example_signals 0 0 4;
                 window_at [] 0 0 2] (Some 0%Z)) as [[Hn _] _].
    specialize (Hn H (window_at [] 1 2 3) (or_introl eq_refl)).
    discriminate Hn.
  - destruct (next_safer_is_earliest example_windows (Some 0%Z))
      as [[_ Hn] _].
    apply Hn. intros w [<-|[<-|[<-|[]]]]; reflexivity.
Defined.

Lemma hd_filter_find {A : Type} (p : A -> bool) l :
  hd_error (filter p l) = find p l.
Proof.
  induction l as [|x r IH]; [reflexivity|].
  simpl. destruct (p x); [reflexivity|exact IH].
Qed.

Lemma find_same_test {A : Type} (p q : A -> bool) l :
  (forall x, p x = q x) -> find p l = find q l.
Proof.
  intros H. induction l as [|x r IH]; [reflexivity|].
  simpl. rewrite H, IH. reflexivity.
Qed.

Lemma StronglySorted_filter {A : Type} (R : A -> A -> Prop) p l :
  StronglySorted R l -> StronglySorted R (filter p l).
Proof.
  induction 1 as [|x r Hs IH Hx]; simpl; [constructor|].
  destruct (p x); [|exact IH].
  constructor; [exact IH|].
  rewrite Forall_forall in *. intros y Hy. apply filter_In in Hy.
  apply Hx. apply Hy.
Qed.

Lemma first_min_sorted l :
  StronglySorted (fun a b => (start_ms a < start_ms b)%Z) l ->
  first_min l = hd_error l.
Proof.
  induction 1 as [|x r Hs IH Hx]; [reflexivity|].
  simpl. rewrite IH. destruct r as [|y r']; [reflexivity|].
  simpl. apply Forall_inv in Hx.
  destruct (Z.gtb_spec (start_ms x - start_ms y) 0); [lia|reflexivity].
Qed.

(** The windows of a tiling start later and later. *)
Lemma tiling_sorted sigs d re cs idx ws :
  tiling sigs d re cs idx ws ->
  StronglySorted (fun a b => (start_ms a < start_ms b)%Z) ws.
Proof.
  induction 1 as [cs idx Hge|cs idx ws Hlt Ht IH]; constructor; [exact IH|].
  pose proof (tiling_windows _ _ _ _ _ _ Ht) as Hw.
  eapply Forall_impl; [|exact Hw].
  intros w [i [s [Hs [Hd ->]]]]. unfold start_ms. simpl. lia.
Qed.

(** X16.  On the windows [computeWindows] returns, which come in the
    order of time, the next safer window is the first window of the
    list that is safer and starts at the given time or later; and the
    search of the pages, which want a start after the present instant,
    finds the next safer window from the following millisecond. *)
Theorem next_safer_is_first sigs rs re d ws :
  computeWindows sigs rs re d = Some ws ->
  (forall fromTime,
      findNextSaferWindow ws fromTime = find (future_safer fromTime) ws) /\
  (forall data t,
      r_windows data = ws ->
      nextSaferWindow (Some data) (Some t)
      = findNextSaferWindow ws (Some (t + 1)%Z)).
Proof.
  intros H.
  assert (Hsorted : StronglySorted
                      (fun a b => (start_ms a < start_ms b)%Z) ws).
  { destruct (computeWindows_tiling _ _ _ _ _ H)
      as [->|[a [b [_ [_ Ht]]]]]; [constructor|].
    eapply tiling_sorted. exact Ht. }
  assert (Hfirst : forall fromTime,
            findNextSaferWindow ws fromTime
            = find (future_safer fromTime) ws).
  { intros fromTime. rewrite findNextSaferWindow_first_min.
    rewrite first_min_sorted by (apply StronglySorted_filter; exact Hsorted).
    apply hd_filter_find. }
  split; [exact Hfirst|].
  intros data t Hd. rewrite Hfirst. unfold nextSaferWindow. rewrite Hd.
  apply find_same_test. intros w. unfold future_safer, date_gt, date_ge, w_start.
  destruct (start (w_timeRange w)) as [x|]; [|reflexivity]. simpl.
  f_equal. destruct (Z.ltb_spec t x), (Z.leb_spec (t + 1) x);
    (reflexivity || lia).
Qed.

Lemma next_safer_is_first_witness :
  findNextSaferWindow [window_at [] 0 0 2; window_at [] 1 2 3] (Some 1%Z)
  = Some (window_at [] 1 2 3) /\
  nextSaferWindow
    (Some (response_of [window_at [] 0 0 2; window_at [] 1 2 3])) (Some 0%Z)
  = Some (window_at [] 1 2 3).
Proof.
  destruct (next_safer_is_first [] (Some 0%Z) (Some 3%Z) 2
              [window_at [] 0 0 2; window_at [] 1 2 3] eq_refl)
    as [Hf Hn].
  split.
  - rewrite Hf. reflexivity.
  - rewrite (Hn (response_of [window_at [] 0 0 2; window_at [] 1 2 3])
               0%Z eq_refl).
    rewrite Hf. reflexivity.
Defined.

(** ** The custom signals of the planner *)

Lemma remove_absent customSignals signalId :
  (forall s, In s customSignals -> id s <> signalId) ->
  handleRemoveCustomSignal customSignals signalId = customSignals.
Proof.
  unfold handleRemoveCustomSignal.
  induction customSignals as [|x r IH]; intros Hfresh; [reflexivity|].
  cbn [filter].
  assert (Hx : (id x =? signalId)%string = false)
    by (apply String.eqb_neq; apply Hfresh; left; reflexivity).
  rewrite Hx. simpl. f_equal. apply IH.
  intros s Hs. apply Hfresh. right. exact Hs.
Qed.

(** X17.  Removing the identifier of a signal that was just added undoes
    the addition and removes the older custom signals with that
    identifier; when no older custom signal has it, the list is back to
    what it was.  The added signal is marked as custom. *)
Theorem add_then_remove customSignals signal :
  handleRemoveCustomSignal (handleAddSignal customSignals signal) (id signal)
  = handleRemoveCustomSignal customSignals (id signal) /\
  ((forall s, In s customSignals -> id s <> id signal) ->
   handleRemoveCustomSignal (handleAddSignal customSignals signal)
     (id signal) = customSignals) /\
  (exists s,
      handleAddSignal customSignals signal = (customSignals ++ [s])%list /\
      id s = id signal /\ isCustom s = Some true).
Proof.
  assert (H : handleRemoveCustomSignal (handleAddSignal customSignals signal)
                (id signal)
              = handleRemoveCustomSignal customSignals (id signal)).
  { unfold handleRemoveCustomSignal, handleAddSignal.
    rewrite filter_app. cbn [filter id]. rewrite String.eqb_refl.
    apply app_nil_r. }
  split; [exact H|]. split.
  - intros Hfresh. rewrite H. apply remove_absent. exact Hfresh.
  - eexists. split; [reflexivity|]. split; reflexivity.
Qed.

Lemma add_then_remove_witness :
  handleRemoveCustomSignal
    (handleAddSignal example_signals touching_signal) "t"
  = example_signals.
Proof.
  destruct (add_then_remove example_signals touching_signal) as [_ [H _]].
  apply H. intros s [<-|[<-|[<-|[]]]]; discriminate.
Defined.

Lemma findIndex_from_early {A : Type} (p : A -> bool) pre l y :
  In y pre -> p y = true ->
  forall k,
    (findIndex_from p (pre ++ l) k < k + Z.of_nat (List.length pre))%Z.
Proof.
  intros Hy Hp. induction pre as [|z pre IH]; intros k; [contradiction|].
  cbn [app findIndex_from List.length]. rewrite Nat2Z.inj_succ.
  destruct (p z) eqn:Ez; [lia|].
  destruct Hy as [->|Hy]; [congruence|].
  specialize (IH Hy (k + 1)%Z). lia.
Qed.

Lemma findIndex_from_first {A : Type} (p : A -> bool) pre x r :
  forall k,
    (forall y, In y pre -> p y = false) -> p x = true ->
    findIndex_from p (pre ++ x :: r) k = (k + Z.of_nat (List.length pre))%Z.
Proof.
  induction pre as [|y pre IH]; intros k Hpre Hx.
  - simpl. rewrite Hx. lia.
  - cbn [app findIndex_from List.length].
    rewrite (Hpre y) by (left; reflexivity).
    rewrite IH; [lia| |exact Hx].
    intros z Hz. apply Hpre. right. exact Hz.
Qed.

(** The filter of [handleImport] keeps the first signal of each
    identifier. *)
Lemma import_filter_keep_first merged :
  forall pre l,
    merged = (pre ++ l)%list ->
    filter_indexed
      (fun s i =>
         (findIndex (fun x => (id x =? id s)%string) merged =? i)%Z)
      l (Z.of_nat (List.length pre))
    = keep_first pre l.
Proof.
  intros pre l. revert pre. induction l as [|x r IH]; intros pre E.
  - reflexivity.
  - cbn [filter_indexed keep_first].
    assert (Enext : (Z.of_nat (List.length pre) + 1)%Z
                    = Z.of_nat (List.length (pre ++ [x])%list))
      by (rewrite length_app; simpl; lia).
    rewrite Enext, (IH (pre ++ [x])%list)
      by (rewrite <- app_assoc; exact E).
    destruct (existsb (fun y => (id y =? id x)%string) pre) eqn:Ex.
    + apply existsb_exists in Ex. destruct Ex as [y [Hy Ey]].
      assert (Hlt : (findIndex (fun z => (id z =? id x)%string) merged
                     < Z.of_nat (List.length pre))%Z).
      { unfold findIndex. rewrite E.
        apply (findIndex_from_early _ pre (x :: r) y Hy Ey 0%Z). }
      destruct (Z.eqb_spec
                  (findIndex (fun z => (id z =? id x)%string) merged)
                  (Z.of_nat (List.length pre))); [lia|reflexivity].
    + assert (Hpre : forall y, In y pre -> (id y =? id x)%string = false).
      { intros y Hy. destruct ((id y =? id x)%string) eqn:Ey; [|reflexivity].
        assert (existsb (fun y => (id y =? id x)%string) pre = true)
          by (apply existsb_exists; exists y; split; assumption).
        congruence. }
      unfold findIndex. rewrite E.
      rewrite findIndex_from_first
        by (try exact Hpre; apply String.eqb_refl).
      rewrite Z.add_0_l, Z.eqb_refl. reflexivity.
Qed.

Lemma keep_first_In seen l s :
  In s (keep_first seen l) ->
  In s l /\ forall y, In y seen -> id y <> id s.
Proof.
  revert seen. induction l as [|x r IH]; intros seen H; [contradiction|].
  cbn [keep_first] in H.
  assert (Hrec : In s (keep_first (seen ++ [x]) r) ->
                 In s (x :: r) /\ forall y, In y seen -> id y <> id s).
  { intros Hr. destruct (IH _ Hr) as [Hin Hne].
    split; [right; exact Hin|].
    intros y Hy. apply Hne. apply in_or_app. left. exact Hy. }
  destruct (existsb (fun y => (id y =? id x)%string) seen) eqn:Ex.
  - apply Hrec. exact H.
  - destruct H as [<-|H]; [|apply Hrec; exact H].
    split; [left; reflexivity|].
    intros y Hy E. apply String.eqb_eq in E.
    assert (existsb (fun y => (id y =? id x)%string) seen = true)
      by (apply existsb_exists; exists y; split; assumption).
    congruence.
Qed.

Lemma keep_first_NoDup l : forall seen, NoDup (map id (keep_first seen l)).
Proof.
  induction l as [|x r IH]; intros seen; [constructor|].
  cbn [keep_first].
  destruct (existsb (fun y => (id y =? id x)%string) seen); [apply IH|].
  cbn [map]. constructor; [|apply IH].
  intros Hin. apply in_map_iff in Hin. destruct Hin as [s [Es Hs]].
  apply keep_first_In in Hs. destruct Hs as [_ Hne].
  apply (Hne x); [apply in_or_app; right; left; reflexivity|].
  symmetry. exact Es.
Qed.

Lemma keep_first_covers l :
  forall seen s,
    In s l ->
    (exists y, In y seen /\ id y = id s) \/
    (exists s', In s' (keep_first seen l) /\ id s' = id s).
Proof.
  induction l as [|x r IH]; intros seen s Hs; [contradiction|].
  cbn [keep_first].
  destruct (existsb (fun y => (id y =? id x)%string) seen) eqn:Ex.
  - destruct Hs as [<-|Hs].
    + left. apply existsb_exists in Ex. destruct Ex as [y [Hy Ey]].
      exists y. split; [exact Hy|]. apply String.eqb_eq. exact Ey.
    + destruct (IH (seen ++ [x])%list s Hs) as [[y [Hy Ey]]|Hk].
      * apply in_app_or in Hy. destruct Hy as [Hy|[<-|[]]].
        -- left. exists y. split; assumption.
        -- left. apply existsb_exists in Ex. destruct Ex as [z [Hz Ez]].
           exists z. split; [exact Hz|].
           apply String.eqb_eq in Ez. congruence.
      * right. exact Hk.
  - destruct Hs as [<-|Hs].
    + right. exists x. split; [left; reflexivity|reflexivity].
    + destruct (IH (seen ++ [x])%list s Hs) as [[y [Hy Ey]]|[s' [Hs' Es']]].
      * apply in_app_or in Hy. destruct Hy as [Hy|[<-|[]]].
        -- left. exists y. split; assumption.
        -- right. exists x. split; [left; reflexivity|exact Ey].
      * right. exists s'. split; [right; exact Hs'|exact Es'].
Qed.

Lemma keep_first_prefix c :
  forall seen l,
    NoDup (map id (seen ++ c)) ->
    keep_first seen (c ++ l) = (c ++ keep_first (seen ++ c) l)%list.
Proof.
  induction c as [|x c IH]; intros seen l Hnd.
  - rewrite app_nil_r. reflexivity.
  - cbn [app keep_first].
    assert (Ex : existsb (fun y => (id y =? id x)%string) seen = false).
    { destruct (existsb _ seen) eqn:E; [|reflexivity].
      apply existsb_exists in E. destruct E as [y [Hy Ey]].
      apply String.eqb_eq in Ey.
      rewrite map_app in Hnd. cbn [map] in Hnd.
      apply NoDup_remove_2 in Hnd. exfalso. apply Hnd.
      apply in_or_app. left. rewrite <- Ey. apply in_map. exact Hy. }
    rewrite Ex. f_equal.
    replace (seen ++ x :: c)%list with ((seen ++ [x]) ++ c)%list
      by (rewrite <- app_assoc; reflexivity).
    apply IH. rewrite <- app_assoc. exact Hnd.
Qed.

(** X18.  The list that an import saves holds no identifier twice; it
    holds only custom or imported signals, and one for every identifier
    among them; and when the custom signals have distinct identifiers
    they are all kept, in front and unchanged, so that on a clash of
    identifiers the custom signal wins over the imported one. *)
Theorem import_keeps_first_of_each_id customSignals imported :
  NoDup (map id (import_unique customSignals imported)) /\
  (forall s, In s (import_unique customSignals imported) ->
             In s (customSignals ++ imported)) /\
  (forall s, In s (customSignals ++ imported) ->
             exists s', In s' (import_unique customSignals imported)
                        /\ id s' = id s) /\
  (NoDup (map id customSignals) ->
   exists rest,
     import_unique customSignals imported = (customSignals ++ rest)%list /\
     forall s, In s rest ->
               In s imported /\
               forall c, In c customSignals -> id c <> id s).
Proof.
  assert (E : import_unique customSignals imported
              = keep_first [] (customSignals ++ imported)).
  { unfold import_unique.
    apply (import_filter_keep_first _ [] (customSignals ++ imported)).
    reflexivity. }
  rewrite E. split; [apply keep_first_NoDup|]. split; [|split].
  - intros s Hs. apply keep_first_In in Hs. apply Hs.
  - intros s Hs.
    destruct (keep_first_covers _ [] s Hs) as [[y [[] _]]|H]. exact H.
  - intros Hnd. exists (keep_first customSignals imported).
    split; [apply (keep_first_prefix customSignals [] imported); exact Hnd|].
    intros s Hs. apply keep_first_In in Hs. exact Hs.
Qed.

Lemma import_keeps_first_of_each_id_witness :
  exists rest,
    import_unique example_signals
      [mkSig "a" "Other" custom 5 6 low low; touching_signal]
    = (example_signals ++ rest)%list /\
    forall s, In s rest ->
      In s [mkSig "a" "Other" custom 5 6 low low; touching_signal] /\
      forall c, In c example_signals -> id c <> id s.
Proof.
  destruct (import_keeps_first_of_each_id example_signals
              [mkSig "a" "Other" custom 5 6 low low; touching_signal])
    as [_ [_ [_ H]]].
  apply H. repeat constructor; simpl; intuition discriminate.
Defined.

(** ** The dialog that adds a signal *)

(** X19.  [handleSubmit] does nothing when the trimmed title is empty.
    A signal it hands to [onAdd] has that trimmed title, which is not
    empty, a description that is not empty, the parsed dates as its
    bounds, both valid and the start before the end, the type and impact
    chosen in the form, high confidence, and the custom mark.  When both
    dates are valid and the end is not after the start it alerts.  A
    date that does not parse is not caught by that test: the handler
    then raises (in [toISOString]) instead of adding or alerting. *)
Theorem submit_adds_only_well_formed
  rt trim id_time random_digits update_time form :
  let outcome :=
    handleSubmit rt trim id_time random_digits update_time form in
  (trim (f_title form) = "" -> outcome = Ignored) /\
  (forall s,
      outcome = Added s ->
      trim (f_title form) <> "" /\
      title s = trim (f_title form) /\
      description s <> "" /\
      timeRange s = {| start := parseDate rt (f_startDate form);
                       end_ := parseDate rt (f_endDate form) |} /\
      well_formed s /\
      signalType s = f_signalType form /\
      impactLevel s = f_impactLevel form /\
      confidenceLevel s = high /\
      isCustom s = Some true) /\
  (forall a b,
      trim (f_title form) <> "" ->
      parseDate rt (f_startDate form) = Some a ->
      parseDate rt (f_endDate form) = Some b ->
      (b <= a)%Z ->
      outcome = Alerted "End time must be after start time.") /\
  (outcome = Threw <->
   trim (f_title form) <> "" /\
   (parseDate rt (f_startDate form) = None
    \/ parseDate rt (f_endDate form) = None)).
Proof.
  intros outcome. subst outcome. unfold handleSubmit.
  destruct (String.eqb_spec (trim (f_title form)) "") as [Et|Et].
  - split; [reflexivity|]. split; [discriminate|].
    split; [intros a b H; contradiction|].
    split; [discriminate|intros [H _]; contradiction].
  - split; [contradiction|].
    destruct (parseDate rt (f_startDate form)) as [a|] eqn:Ea;
      destruct (parseDate rt (f_endDate form)) as [b|] eqn:Eb;
      cbn [date_le].
    + destruct (Z.leb_spec b a) as [Hle|Hlt].
      * split; [discriminate|]. split; [intros; reflexivity|].
        split; [discriminate|intros [_ [H|H]]; discriminate].
      * split.
        { intros s H. injection H as <-. cbn.
          split; [exact Et|]. split; [reflexivity|].
          split.
          - unfold str_or.
            destruct (String.eqb_spec (trim (f_description form)) "");
              assumption.
          - split; [reflexivity|].
            split; [exists a, b; split; [reflexivity|exact Hlt]|].
            repeat split. }
        split.
        { intros a' b' _ Ha' Hb' Hle. injection Ha' as <-.
          injection Hb' as <-. lia. }
        split; [discriminate|intros [_ [H|H]]; discriminate].
    + split; [discriminate|].
      split; [intros a' b' _ Ha' Hb'; discriminate|].
      split; [intros _; split; [exact Et|right; reflexivity]|reflexivity].
    + split; [discriminate|].
      split; [intros a' b' _ Ha' Hb'; discriminate|].
      split; [intros _; split; [exact Et|left; reflexivity]|reflexivity].
    + split; [discriminate|].
      split; [intros a' b' _ Ha' Hb'; discriminate|].
      split; [intros _; split; [exact Et|left; reflexivity]|reflexivity].
Qed.

Lemma submit_adds_only_well_formed_witness :
  (exists s,
      handleSubmit ex_runtime (fun x => x) 7 "k3x9q2m1z" 8 ex_form = Added s
      /\ well_formed s /\ description s = "Team shift") /\
  handleSubmit ex_runtime (fun x => x) 7 "k3x9q2m1z" 8
    {| f_title := "Team shift"; f_description := "";
       f_signalType := custom; f_impactLevel := low;
       f_startDate := ""; f_endDate := "1970-01-02T00:00:00.000Z";
       f_notes := "" |} = Threw.
Proof.
  split.
  - destruct (submit_adds_only_well_formed ex_runtime (fun x => x) 7
                "k3x9q2m1z" 8 ex_form) as [_ [Hadd _]].
    eexists. split; [reflexivity|].
    destruct (Hadd _ eq_refl) as [_ [_ [_ [_ [Hwf _]]]]].
    split; [exact Hwf|reflexivity].
  - destruct (submit_adds_only_well_formed ex_runtime (fun x => x) 7
                "k3x9q2m1z" 8
                {| f_title := "Team shift"; f_description := "";
                   f_signalType := custom; f_impactLevel := low;
                   f_startDate := "";
                   f_endDate := "1970-01-02T00:00:00.000Z";
                   f_notes := "" |}) as [_ [_ [_ Hthrow]]].
    apply Hthrow. split; [discriminate|left; reflexivity].
Defined.

(** ** A request without dates *)

(** X20.  When the request gives no start and no end (the parameters
    absent or empty), and seven days after the time of the request is
    still a time a date can hold, the handler answers with status 200,
    for the seven days that follow the time of the request, and with 84
    windows of two hours each. *)
Theorem GET_defaults_to_a_week rt request_time response_time request :
  truthy (q_start request) = None ->
  truthy (q_end request) = None ->
  (Z.abs (request_time + 604800000) <= MAX_TIME)%Z ->
  let filtered :=
    filterSignalsByDateRange (getAllSignals rt (scenario_flag request))
      (Some request_time) (Some (request_time + 604800000)%Z) in
  exists ws,
    List.length ws = 84%nat /\
    (forall w, In w ws -> w_length w = Some 7200000%Z) /\
    GET rt request_time response_time request
    = Some {| http_status := 200;
              body := DataBody
                {| r_signals := filtered;
                   r_overlaps := detectSignalOverlaps filtered;
                   r_windows := ws;
                   meta :=
                     {| queryRange :=
                          {| start := Some request_time;
                             end_ := Some (request_time + 604800000)%Z |};
                        scenarioMode := scenario_flag request;
                        generatedAt := Some response_time;
                        disclaimer := DISCLAIMER |} |} |}.
Proof.
  intros Hs He Hmax filtered. rewrite GET_by_query_range.
  unfold query_end, query_start. rewrite Hs, He.
  apply Z.leb_le in Hmax. rewrite Hmax.
  cbv zeta. cbn [getTime isNaN orb date_le].
  destruct (Z.leb_spec (request_time + 604800000) request_time)
    as [Hle|_]; [lia|].
  fold filtered. unfold computeWindows_default.
  destruct (computeWindows_total filtered (Some request_time)
              (Some (request_time + 604800000)%Z)
              DEFAULT_WINDOW_DURATION_MS) as [ws Hws]; [reflexivity|].
  rewrite Hws. exists ws.
  pose proof (computeWindows_valid_tiling _ _ _ _ _ Hws) as Ht.
  split; [|split; [|reflexivity]].
  - assert (Hlen := tiling_length _ _ _ _ _ _ Ht
                      ltac:(reflexivity) ltac:(lia)).
    replace (request_time + 604800000 - request_time
             + DEFAULT_WINDOW_DURATION_MS - 1)%Z
      with (604800000 + DEFAULT_WINDOW_DURATION_MS - 1)%Z in Hlen by lia.
    change ((604800000 + DEFAULT_WINDOW_DURATION_MS - 1)
            / DEFAULT_WINDOW_DURATION_MS)%Z with 84%Z in Hlen.
    lia.
  - intros w Hw. apply In_nth_error in Hw. destruct Hw as [i Hi].
    destruct (tiling_nth _ _ _ _ _ _ Ht i w Hi) as [_ [Hb ->]].
    change DEFAULT_WINDOW_DURATION_MS with 7200000%Z in *.
    unfold w_length, w_start, w_end, window_at.
    cbn [w_timeRange start end_]. f_equal. lia.
Qed.

Lemma GET_defaults_to_a_week_witness :
  exists ws,
    List.length ws = 84%nat /\
    (forall w, In w ws -> w_length w = Some 7200000%Z) /\
    GET ex_runtime 5 6
      {| q_start := None; q_end := Some ""; q_scenario := Some "off" |}
    = Some {| http_status := 200;
              body := DataBody
                {| r_signals :=
                     filterSignalsByDateRange (getAllSignals ex_runtime false)
                       (Some 5%Z) (Some 604800005%Z);
                   r_overlaps :=
                     detectSignalOverlaps
                       (filterSignalsByDateRange
                          (getAllSignals ex_runtime false)
                          (Some 5%Z) (Some 604800005%Z));
                   r_windows := ws;
                   meta :=
                     {| queryRange := {| start := Some 5%Z;
                                         end_ := Some 604800005%Z |};
                        scenarioMode := false;
                        generatedAt := Some 6%Z;
                        disclaimer := DISCLAIMER |} |} |}.
Proof.
  apply (GET_defaults_to_a_week ex_runtime 5 6
           {| q_start := None; q_end := Some ""; q_scenario := Some "off" |}
           eq_refl eq_refl).
  unfold MAX_TIME. lia.
Defined.

(** X23.  When the request gives no end and seven days after the start
    of the query range is beyond the largest time value, the end is an
    Invalid Date and the handler answers with status 400 and the message
    on the date format. *)
Theorem GET_default_end_beyond_limit rt request_time response_time request a :
  query_start rt request_time request = Some a ->
  truthy (q_end request) = None ->
  (MAX_TIME < Z.abs (a + 604800000))%Z ->
  query_end rt request_time request = None /\
  GET rt request_time response_time request
  = Some {| http_status := 400;
            body := ErrorBody "Invalid date format. Use ISO 8601 format." |}.
Proof.
  intros Hs He Hmax.
  assert (E : query_end rt request_time request = None).
  { unfold query_end. rewrite He, Hs.
    destruct (Z.leb_spec (Z.abs (a + 604800000)) MAX_TIME); [lia|reflexivity]. }
  split; [exact E|].
  rewrite GET_by_query_range. cbv zeta. rewrite E, Hs. reflexivity.
Qed.

Lemma GET_default_end_beyond_limit_witness :
  query_end far_runtime 5 far_request = None /\
  GET far_runtime 5 6 far_request
  = Some {| http_status := 400;
            body := ErrorBody "Invalid date format. Use ISO 8601 format." |}.
Proof.
  apply (GET_default_end_beyond_limit far_runtime 5 6 far_request MAX_TIME
           eq_refl eq_refl).
  unfold MAX_TIME. lia.
Defined.
